(** * The Xero accounting client: field mapping, transport and facade

    A shallow embedding of [client.ts] (the class [XeroClientImpl]), of the
    credential and settings helpers of [types/env.ts], of the pagination
    helpers of [utils/formatters.ts] and of the [fetch] handler of
    [index.ts], followed by the properties of the specification that are
    settled on it and by further properties of the code.

    JavaScript values are kept untyped, as they are at run time: the casts
    [c.Name as string] of the source erase to nothing, so a mapper copies
    whatever the wire record holds. *)

From Stdlib Require Import String Ascii List ZArith Bool Lia QArith_base.
From Stdlib Require DecimalString DecimalPos.
Import ListNotations.
Close Scope Q_scope.
Local Open Scope string_scope.

(* ===================================================================== *)
(** ** JavaScript values *)
(* ===================================================================== *)

Module Js.

(** A JavaScript number is [NaN] or a finite value. The client never
    computes with numbers: it tests them for truthiness, prints them and
    passes them on, so the finite ones are kept as exact rationals. *)
Inductive number :=
| NaN
| Fin (q : Q).

Definition of_Z (z : Z) : number := Fin (inject_Z z).
Definition of_nat (n : nat) : number := of_Z (Z.of_nat n).

(** Objects keep their own properties in insertion order, as
    [JSON.stringify] enumerates them. *)
Unset Elimination Schemes.
Inductive value :=
| VUndef
| VNull
| VBool (b : bool)
| VNum (n : number)
| VStr (s : string)
| VArr (items : list value)
| VObj (fields : list (string * value)).
Set Elimination Schemes.

Definition props := list (string * value).

Section ValueInduction.
Variable P : value -> Prop.
Hypothesis Hundef : P VUndef.
Hypothesis Hnull : P VNull.
Hypothesis Hbool : forall b, P (VBool b).
Hypothesis Hnum : forall n, P (VNum n).
Hypothesis Hstr : forall s, P (VStr s).
Hypothesis Harr : forall l, Forall P l -> P (VArr l).
Hypothesis Hobj : forall o, Forall (fun kv => P (snd kv)) o -> P (VObj o).

Fixpoint value_deep_ind (v : value) : P v :=
  match v with
  | VUndef => Hundef
  | VNull => Hnull
  | VBool b => Hbool b
  | VNum n => Hnum n
  | VStr s => Hstr s
  | VArr l =>
      Harr l ((fix all (l : list value) : Forall P l :=
                 match l with
                 | [] => Forall_nil P
                 | x :: r => Forall_cons x (value_deep_ind x) (all r)
                 end) l)
  | VObj o =>
      Hobj o ((fix all (o : props) : Forall (fun kv => P (snd kv)) o :=
                 match o with
                 | [] => Forall_nil _
                 | kv :: r => Forall_cons kv (value_deep_ind (snd kv)) (all r)
                 end) o)
  end.
End ValueInduction.

(** [if (x)]: the falsy values are [undefined], [null], [false], [0],
    [NaN] and the empty string. *)
Definition num_truthy (n : number) : bool :=
  match n with
  | NaN => false
  | Fin q => negb (Qnum q =? 0)%Z
  end.

Definition truthy (v : value) : bool :=
  match v with
  | VUndef | VNull => false
  | VBool b => b
  | VNum n => num_truthy n
  | VStr s => negb (s =? "")
  | VArr _ | VObj _ => true
  end.

(** [x !== undefined] *)
Definition defined (v : value) : bool :=
  match v with
  | VUndef => false
  | _ => true
  end.

(** [x == null]: the values on which a property read throws. *)
Definition nullish (v : value) : bool :=
  match v with
  | VUndef | VNull => true
  | _ => false
  end.

(** [a || b] *)
Definition or_else (a b : value) : value := if truthy a then a else b.

(** *** Own properties *)

Fixpoint lookup (k : string) (o : props) : option value :=
  match o with
  | [] => None
  | (k', v) :: r => if k =? k' then Some v else lookup k r
  end.

(** [o.k = v]: an existing property keeps its place, a new one goes last. *)
Fixpoint assign (k : string) (v : value) (o : props) : props :=
  match o with
  | [] => [(k, v)]
  | (k', v') :: r => if k =? k' then (k, v) :: r else (k', v') :: assign k v r
  end.

Definition keys (o : props) : list string := map fst o.

(** [v.k] on a value that is neither [undefined] nor [null]. The names the
    client reads are the identifiers written in its source; none of them is
    defined by a prototype except [length], so every other name read on a
    primitive or an array gives [undefined]. Indexed reads go through
    [at0]. The length of a string is only ever tested against zero. *)
Definition member (v : value) (k : string) : value :=
  match v with
  | VObj o => match lookup k o with Some x => x | None => VUndef end
  | VArr l => if k =? "length" then VNum (of_nat (length l)) else VUndef
  | VStr s => if k =? "length" then VNum (of_nat (String.length s)) else VUndef
  | _ => VUndef
  end.

(** [v?.k] *)
Definition opt_member (v : value) (k : string) : value :=
  if nullish v then VUndef else member v k.

(** [v[0]] on a value that is neither [undefined] nor [null]. *)
Definition at0 (v : value) : value :=
  match v with
  | VArr (x :: _) => x
  | VObj o => match lookup "0" o with Some x => x | None => VUndef end
  | VStr (String c _) => VStr (String c "")
  | _ => VUndef
  end.

(** *** What [JSON.stringify] writes

    The request body is kept as the JSON document that [JSON.stringify]
    writes rather than as its text: a property whose value is [undefined]
    is left out, an [undefined] array element and [NaN] are written as
    [null]. *)
Fixpoint stringify (v : value) : value :=
  match v with
  | VArr l =>
      VArr (map (fun x => match x with
                          | VUndef => VNull
                          | _ => stringify x
                          end) l)
  | VObj o =>
      VObj ((fix each (o : props) : props :=
               match o with
               | [] => []
               | (k, x) :: r =>
                   match x with
                   | VUndef => each r
                   | _ => (k, stringify x) :: each r
                   end
               end) o)
  | VNum NaN => VNull
  | _ => v
  end.

(** A JSON document holds no [undefined] and no [NaN], at any depth. *)
Fixpoint is_json (v : value) : bool :=
  match v with
  | VUndef => false
  | VNum NaN => false
  | VArr l => forallb is_json l
  | VObj o => forallb (fun kv => is_json (snd kv)) o
  | _ => true
  end.

(** *** Failures *)

(** What a [TypeError] raised by the engine is about. *)
Inductive fault :=
| ReadOfNullish (base : value) (prop : string)
| NotAFunction (prop : string).

(** Modelled from the spec: the error classes of [utils/errors.js], which
    [client.ts] imports and which is not among the sources
    ([AuthenticationError], [RateLimitError] and [CrmApiError], the
    [AuthenticationFailed], [RateLimitExceeded{retryAfterSeconds}] and
    [ApiError{message, httpStatus}] of the specification); each keeps the
    arguments its constructor is called with. The other constructors
    are the failures the engine itself raises: a [TypeError] for a read on
    [undefined] or [null] or a call of something that is no function, the
    [SyntaxError] of [response.json()], the rejection of [fetch], and a
    plain [new Error(message)]. *)
Inductive error :=
| AuthenticationError (message : string)
| RateLimitError (message : string) (retryAfterSeconds : number)
| CrmApiError (message : value) (statusCode : Z)
| TypeError (why : fault)
| SyntaxError (text : string)
| FetchError (message : string)
| PlainError (message : string).

Definition result (A : Type) : Type := (error + A)%type.

Definition ok {A} (x : A) : result A := inr x.
Definition throw {A} (e : error) : result A := inl e.

Definition and_then {A B} (r : result A) (k : A -> result B) : result B :=
  match r with
  | inl e => inl e
  | inr x => k x
  end.

(** [v.k], which throws on [undefined] and [null]. *)
Definition read (v : value) (k : string) : result value :=
  if nullish v then throw (TypeError (ReadOfNullish v k)) else ok (member v k).

(** [v[0]], which throws on [undefined] and [null]. *)
Definition read0 (v : value) : result value :=
  if nullish v then throw (TypeError (ReadOfNullish v "0")) else ok (at0 v).

(** [l.map(f)] for a callback that may throw: left to right, the first
    failure ends the loop. *)
Fixpoint traverse {A B} (f : A -> result B) (l : list A) : result (list B) :=
  match l with
  | [] => ok []
  | x :: r =>
      and_then (f x) (fun y =>
      and_then (traverse f r) (fun ys => ok (y :: ys)))
  end.

(** [v.map(f)]: only an array has the method. *)
Definition array_map (what : string) (f : value -> result value) (v : value)
  : result value :=
  match v with
  | VArr l => and_then (traverse f l) (fun ys => ok (VArr ys))
  | _ =>
      if nullish v then throw (TypeError (ReadOfNullish v "map"))
      else throw (TypeError (NotAFunction what))
  end.

(** [{ k1: v1, ..., kn: vn }] *)
Definition literal (o : props) : value := VObj o.

End Js.

(* ===================================================================== *)
(** ** The entity mapper *)
(* ===================================================================== *)

Module Mapper.
Import Js.

(** One property [to: x.from] of an object literal, or, in the payments of
    a batch payment, [to: x.from ? { idKey: x.from.idField } : undefined]. *)
Inductive part :=
| Plain (to from : string)
| Linked (to from idKey idField : string).

Definition part_name (p : part) : string :=
  match p with
  | Plain t _ => t
  | Linked t _ _ _ => t
  end.

Definition part_source (p : part) : string :=
  match p with
  | Plain _ f => f
  | Linked _ f _ _ => f
  end.

Definition part_value (x : value) (p : part) : result (string * value) :=
  match p with
  | Plain t f => and_then (read x f) (fun v => ok (t, v))
  | Linked t f idKey idField =>
      and_then (read x f) (fun v =>
        ok (t, if truthy v then literal [(idKey, member v idField)] else VUndef))
  end.

(** [({ K1: x.f1, ..., Kn: x.fn })] *)
Definition build (parts : list part) (x : value) : result value :=
  and_then (traverse (part_value x) parts) (fun o => ok (VObj o)).

Definition copies (l : list (string * string)) : list part :=
  map (fun p => Plain (fst p) (snd p)) l.

(** *** Domain to wire *)

Inductive guard :=
| IfTruthy       (* if (src.f) ... *)
| IfDefined.     (* if (src.f !== undefined) ... *)

Inductive payload :=
| Copy                             (* result.K = src.f *)
| Ref (idKey idField : string)     (* result.K = { idKey: src.f.idField } *)
| Obj (parts : list part)          (* result.K = { K1: src.f.f1, ... } *)
| Each (parts : list part).        (* result.K = src.f.map(x => ({ K1: x.f1, ... })) *)

(** One statement [if (src.field ...) result.key = ...] of a [map...ToXero]
    method. *)
Record rule := {
  field : string;
  key : string;
  when : guard;
  what : payload;
}.

Definition passes (g : guard) (v : value) : bool :=
  match g with
  | IfTruthy => truthy v
  | IfDefined => defined v
  end.

Definition payload_value (r : rule) (v : value) : result value :=
  match what r with
  | Copy => ok v
  | Ref idKey idField =>
      and_then (read v idField) (fun i => ok (literal [(idKey, i)]))
  | Obj parts => build parts v
  | Each parts => array_map (field r) (build parts) v
  end.

Definition statement (src : value) (acc : result props) (r : rule)
  : result props :=
  and_then acc (fun result =>
  and_then (read src (field r)) (fun v =>
    if passes (when r) v
    then and_then (payload_value r v) (fun w => ok (assign (key r) w result))
    else ok result)).

(** [const result = {}; ...statements...; return result;] *)
Definition toWire (rules : list rule) (src : value) : result value :=
  and_then (fold_left (statement src) rules (ok [])) (fun o => ok (VObj o)).

Definition when_truthy (f k : string) : rule :=
  {| field := f; key := k; when := IfTruthy; what := Copy |}.
Definition when_defined (f k : string) : rule :=
  {| field := f; key := k; when := IfDefined; what := Copy |}.
Definition ref_when_truthy (f k idKey idField : string) : rule :=
  {| field := f; key := k; when := IfTruthy; what := Ref idKey idField |}.
Definition object_when_truthy (f k : string) (parts : list part) : rule :=
  {| field := f; key := k; when := IfTruthy; what := Obj parts |}.
Definition each_when_truthy (f k : string) (parts : list part) : rule :=
  {| field := f; key := k; when := IfTruthy; what := Each parts |}.

(** *** Wire to domain *)

(** One property of the object literal a [map...] method returns. *)
Inductive reader :=
| Get (f k : string)
    (* f: w.k *)
| Expand (f k : string) (parts : list (string * string))
    (* const c = w.k;  f: { f1: c?.k1, ... } *)
| ExpandIf (f k : string) (parts : list (string * string))
    (* const c = w.k;  f: c ? { f1: c.k1, ... } : undefined *)
| Items (f k : string) (via : option string) (elem : list (string * string)).
    (* f: w.k?.map(callback): [via] names the method read off [this] when
       the callback is [this.method], and is [None] for an inline arrow *)

Definition reader_field (r : reader) : string :=
  match r with
  | Get f _ | Expand f _ _ | ExpandIf f _ _ | Items f _ _ _ => f
  end.

Definition reader_key (r : reader) : string :=
  match r with
  | Get _ k | Expand _ k _ | ExpandIf _ k _ | Items _ k _ _ => k
  end.

Definition pick (c : value) (parts : list (string * string)) : value :=
  VObj (map (fun p => (fst p, opt_member c (snd p))) parts).

(** [bound] tells whether [this] is the client: it is in a method call
    [this.mapX(...)] and in a callback passed as [this.mapX.bind(this)],
    and it is [undefined] in a callback passed as [this.mapX]. *)
Definition reader_value (bound : bool) (w : value) (r : reader)
  : result (string * value) :=
  match r with
  | Get f k => ok (f, member w k)
  | Expand f k parts => ok (f, pick (member w k) parts)
  | ExpandIf f k parts =>
      let c := member w k in
      ok (f, if truthy c then pick c parts else VUndef)
  | Items f k via elem =>
      let a := member w k in
      if nullish a then ok (f, VUndef)
      else
        match via with
        | Some method =>
            if bound
            then and_then (array_map k (build (copies elem)) a)
                          (fun l => ok (f, l))
            else throw (TypeError (ReadOfNullish VUndef method))
        | None =>
            and_then (array_map k (build (copies elem)) a) (fun l => ok (f, l))
        end
  end.

(** A [map...] method: [first] is the property its body reads first, on
    which a record that is [undefined] or [null] makes it throw. *)
Definition fromWire (first : string) (readers : list reader) (bound : bool)
  (w : value) : result value :=
  if nullish w then throw (TypeError (ReadOfNullish w first))
  else and_then (traverse (reader_value bound w) readers)
                (fun o => ok (VObj o)).

End Mapper.

(* ===================================================================== *)
(** ** The mapping tables of [client.ts]

    Each table lists the statements of one method in source order. *)
(* ===================================================================== *)

Module Entities.
Import Js Mapper.

(** *** Line items *)

(** [mapLineItem] *)
Definition line_item_fields : list (string * string) :=
  [ ("lineItemId", "LineItemID");
    ("description", "Description");
    ("quantity", "Quantity");
    ("unitAmount", "UnitAmount");
    ("itemCode", "ItemCode");
    ("accountCode", "AccountCode");
    ("taxType", "TaxType");
    ("taxAmount", "TaxAmount");
    ("lineAmount", "LineAmount");
    ("discountRate", "DiscountRate");
    ("discountAmount", "DiscountAmount");
    ("tracking", "Tracking") ].

Definition mapLineItem : value -> result value :=
  build (copies line_item_fields).

(** [lineItems: (x.LineItems as ...)?.map(this.mapLineItem)] *)
Definition line_items : reader :=
  Items "lineItems" "LineItems" (Some "mapLineItem") line_item_fields.

(** *** Organisation (the literal of [getOrganisation]) *)

Definition organisation_readers : list reader :=
  [ Get "organisationId" "OrganisationID";
    Get "name" "Name";
    Get "legalName" "LegalName";
    Get "shortCode" "ShortCode";
    Get "organisationType" "OrganisationType";
    Get "baseCurrency" "BaseCurrency";
    Get "countryCode" "CountryCode";
    Get "isDemoCompany" "IsDemoCompany";
    Get "salesTaxBasis" "SalesTaxBasis";
    Get "salesTaxPeriod" "SalesTaxPeriod";
    Get "financialYearEndDay" "FinancialYearEndDay";
    Get "financialYearEndMonth" "FinancialYearEndMonth";
    Get "createdDateUtc" "CreatedDateUTC";
    Get "timezone" "Timezone";
    Get "organisationEntityType" "OrganisationEntityType";
    Get "version" "Version";
    Get "lineOfBusiness" "LineOfBusiness" ].

Definition mapOrganisation : value -> result value :=
  fromWire "OrganisationID" organisation_readers true.

(** *** Contacts *)

Definition contact_fields : list (string * string) :=
  [ ("contactId", "ContactID");
    ("contactNumber", "ContactNumber");
    ("accountNumber", "AccountNumber");
    ("contactStatus", "ContactStatus");
    ("name", "Name");
    ("firstName", "FirstName");
    ("lastName", "LastName");
    ("emailAddress", "EmailAddress");
    ("bankAccountDetails", "BankAccountDetails");
    ("taxNumber", "TaxNumber");
    ("accountsReceivableTaxType", "AccountsReceivableTaxType");
    ("accountsPayableTaxType", "AccountsPayableTaxType");
    ("isSupplier", "IsSupplier");
    ("isCustomer", "IsCustomer");
    ("defaultCurrency", "DefaultCurrency");
    ("updatedDateUtc", "UpdatedDateUTC");
    ("hasAttachments", "HasAttachments");
    ("hasValidationErrors", "HasValidationErrors");
    ("addresses", "Addresses");
    ("phones", "Phones");
    ("contactPersons", "ContactPersons");
    ("balances", "Balances");
    ("paymentTerms", "PaymentTerms");
    ("contactGroups", "ContactGroups") ].

Definition contact_readers : list reader :=
  map (fun p => Get (fst p) (snd p)) contact_fields.

Definition mapContact : value -> result value :=
  fromWire "ContactID" contact_readers true.

Definition contact_rules : list rule :=
  [ when_truthy "name" "Name";
    when_truthy "firstName" "FirstName";
    when_truthy "lastName" "LastName";
    when_truthy "emailAddress" "EmailAddress";
    when_truthy "contactNumber" "ContactNumber";
    when_truthy "accountNumber" "AccountNumber";
    when_truthy "contactStatus" "ContactStatus";
    when_truthy "bankAccountDetails" "BankAccountDetails";
    when_truthy "taxNumber" "TaxNumber";
    when_truthy "accountsReceivableTaxType" "AccountsReceivableTaxType";
    when_truthy "accountsPayableTaxType" "AccountsPayableTaxType";
    when_defined "isSupplier" "IsSupplier";
    when_defined "isCustomer" "IsCustomer";
    when_truthy "defaultCurrency" "DefaultCurrency";
    when_truthy "addresses" "Addresses";
    when_truthy "phones" "Phones";
    when_truthy "contactPersons" "ContactPersons";
    when_truthy "paymentTerms" "PaymentTerms" ].

Definition mapContactToXero : value -> result value := toWire contact_rules.

(** *** Contact groups *)

Definition contact_group_readers : list reader :=
  [ Get "contactGroupId" "ContactGroupID";
    Get "name" "Name";
    Get "status" "Status";
    Items "contacts" "Contacts" (Some "mapContact") contact_fields ].

Definition mapContactGroup : bool -> value -> result value :=
  fromWire "ContactGroupID" contact_group_readers.

(** *** Accounts *)

Definition account_readers : list reader :=
  [ Get "accountId" "AccountID";
    Get "code" "Code";
    Get "name" "Name";
    Get "type" "Type";
    Get "status" "Status";
    Get "description" "Description";
    Get "taxType" "TaxType";
    Get "class" "Class";
    Get "systemAccount" "SystemAccount";
    Get "enablePaymentsToAccount" "EnablePaymentsToAccount";
    Get "showInExpenseClaims" "ShowInExpenseClaims";
    Get "bankAccountNumber" "BankAccountNumber";
    Get "bankAccountType" "BankAccountType";
    Get "currencyCode" "CurrencyCode";
    Get "reportingCode" "ReportingCode";
    Get "reportingCodeName" "ReportingCodeName";
    Get "hasAttachments" "HasAttachments";
    Get "updatedDateUtc" "UpdatedDateUTC";
    Get "addToWatchlist" "AddToWatchlist" ].

Definition mapAccount : value -> result value :=
  fromWire "AccountID" account_readers true.

Definition account_rules : list rule :=
  [ when_truthy "code" "Code";
    when_truthy "name" "Name";
    when_truthy "type" "Type";
    when_truthy "status" "Status";
    when_truthy "description" "Description";
    when_truthy "taxType" "TaxType";
    when_defined "enablePaymentsToAccount" "EnablePaymentsToAccount";
    when_defined "showInExpenseClaims" "ShowInExpenseClaims";
    when_truthy "bankAccountNumber" "BankAccountNumber";
    when_truthy "bankAccountType" "BankAccountType";
    when_truthy "currencyCode" "CurrencyCode";
    when_defined "addToWatchlist" "AddToWatchlist" ].

Definition mapAccountToXero : value -> result value := toWire account_rules.

(** *** Invoices *)

Definition contact_reference : list (string * string) :=
  [ ("contactId", "ContactID"); ("name", "Name") ].

Definition invoice_readers : list reader :=
  [ Get "invoiceId" "InvoiceID";
    Get "invoiceNumber" "InvoiceNumber";
    Get "reference" "Reference";
    Get "type" "Type";
    Get "status" "Status";
    Get "lineAmountTypes" "LineAmountTypes";
    Expand "contact" "Contact" contact_reference;
    Get "date" "Date";
    Get "dueDate" "DueDate";
    Get "expectedPaymentDate" "ExpectedPaymentDate";
    Get "plannedPaymentDate" "PlannedPaymentDate";
    Get "currencyCode" "CurrencyCode";
    Get "currencyRate" "CurrencyRate";
    line_items;
    Get "subTotal" "SubTotal";
    Get "totalTax" "TotalTax";
    Get "total" "Total";
    Get "totalDiscount" "TotalDiscount";
    Get "amountDue" "AmountDue";
    Get "amountPaid" "AmountPaid";
    Get "amountCredited" "AmountCredited";
    Get "fullyPaidOnDate" "FullyPaidOnDate";
    Get "url" "Url";
    Get "brandingThemeId" "BrandingThemeID";
    Get "sentToContact" "SentToContact";
    Get "hasAttachments" "HasAttachments";
    Get "hasErrors" "HasErrors";
    Get "updatedDateUtc" "UpdatedDateUTC" ].

Definition mapInvoice : bool -> value -> result value :=
  fromWire "Contact" invoice_readers.

Definition invoice_rules : list rule :=
  [ when_truthy "type" "Type";
    ref_when_truthy "contact" "Contact" "ContactID" "contactId";
    when_truthy "date" "Date";
    when_truthy "dueDate" "DueDate";
    when_truthy "lineAmountTypes" "LineAmountTypes";
    when_truthy "invoiceNumber" "InvoiceNumber";
    when_truthy "reference" "Reference";
    when_truthy "currencyCode" "CurrencyCode";
    when_truthy "status" "Status";
    when_truthy "brandingThemeId" "BrandingThemeID";
    each_when_truthy "lineItems" "LineItems"
      [ Plain "Description" "description";
        Plain "Quantity" "quantity";
        Plain "UnitAmount" "unitAmount";
        Plain "ItemCode" "itemCode";
        Plain "AccountCode" "accountCode";
        Plain "TaxType" "taxType";
        Plain "DiscountRate" "discountRate";
        Plain "Tracking" "tracking" ] ].

Definition mapInvoiceToXero : value -> result value := toWire invoice_rules.

(** *** Credit notes *)

Definition credit_note_readers : list reader :=
  [ Get "creditNoteId" "CreditNoteID";
    Get "creditNoteNumber" "CreditNoteNumber";
    Get "reference" "Reference";
    Get "type" "Type";
    Get "status" "Status";
    Expand "contact" "Contact" contact_reference;
    Get "date" "Date";
    Get "currencyCode" "CurrencyCode";
    Get "currencyRate" "CurrencyRate";
    line_items;
    Get "subTotal" "SubTotal";
    Get "totalTax" "TotalTax";
    Get "total" "Total";
    Get "remainingCredit" "RemainingCredit";
    Get "brandingThemeId" "BrandingThemeID";
    Get "hasAttachments" "HasAttachments";
    Get "updatedDateUtc" "UpdatedDateUTC" ].

Definition mapCreditNote : bool -> value -> result value :=
  fromWire "Contact" credit_note_readers.

Definition credit_note_rules : list rule :=
  [ when_truthy "type" "Type";
    ref_when_truthy "contact" "Contact" "ContactID" "contactId";
    when_truthy "date" "Date";
    when_truthy "status" "Status";
    when_truthy "reference" "Reference";
    when_truthy "currencyCode" "CurrencyCode";
    when_truthy "brandingThemeId" "BrandingThemeID";
    each_when_truthy "lineItems" "LineItems"
      [ Plain "Description" "description";
        Plain "Quantity" "quantity";
        Plain "UnitAmount" "unitAmount";
        Plain "ItemCode" "itemCode";
        Plain "AccountCode" "accountCode";
        Plain "TaxType" "taxType" ] ].

Definition mapCreditNoteToXero : value -> result value :=
  toWire credit_note_rules.

(** *** Payments *)

Definition payment_readers : list reader :=
  [ Get "paymentId" "PaymentID";
    Get "paymentType" "PaymentType";
    Get "date" "Date";
    Get "amount" "Amount";
    Get "currencyRate" "CurrencyRate";
    Get "reference" "Reference";
    Get "isReconciled" "IsReconciled";
    Get "status" "Status";
    ExpandIf "invoice" "Invoice"
      [ ("invoiceId", "InvoiceID"); ("invoiceNumber", "InvoiceNumber") ];
    ExpandIf "account" "Account"
      [ ("accountId", "AccountID"); ("code", "Code") ];
    Get "updatedDateUtc" "UpdatedDateUTC" ].

Definition mapPayment : value -> result value :=
  fromWire "Invoice" payment_readers true.

Definition payment_rules : list rule :=
  [ ref_when_truthy "invoice" "Invoice" "InvoiceID" "invoiceId";
    ref_when_truthy "account" "Account" "AccountID" "accountId";
    when_truthy "date" "Date";
    when_truthy "amount" "Amount";
    when_truthy "reference" "Reference";
    when_defined "isReconciled" "IsReconciled" ].

Definition mapPaymentToXero : value -> result value := toWire payment_rules.

(** *** Bank transactions *)

Definition bank_account_reference : list (string * string) :=
  [ ("accountId", "AccountID"); ("code", "Code"); ("name", "Name") ].

Definition bank_transaction_readers : list reader :=
  [ Get "bankTransactionId" "BankTransactionID";
    Get "type" "Type";
    Get "status" "Status";
    ExpandIf "contact" "Contact" contact_reference;
    Get "date" "Date";
    line_items;
    Expand "bankAccount" "BankAccount" bank_account_reference;
    Get "isReconciled" "IsReconciled";
    Get "reference" "Reference";
    Get "currencyCode" "CurrencyCode";
    Get "currencyRate" "CurrencyRate";
    Get "url" "Url";
    Get "subTotal" "SubTotal";
    Get "totalTax" "TotalTax";
    Get "total" "Total";
    Get "hasAttachments" "HasAttachments";
    Get "updatedDateUtc" "UpdatedDateUTC" ].

Definition mapBankTransaction : bool -> value -> result value :=
  fromWire "Contact" bank_transaction_readers.

Definition bank_transaction_rules : list rule :=
  [ when_truthy "type" "Type";
    ref_when_truthy "contact" "Contact" "ContactID" "contactId";
    ref_when_truthy "bankAccount" "BankAccount" "AccountID" "accountId";
    when_truthy "date" "Date";
    when_truthy "reference" "Reference";
    when_truthy "currencyCode" "CurrencyCode";
    each_when_truthy "lineItems" "LineItems"
      [ Plain "Description" "description";
        Plain "Quantity" "quantity";
        Plain "UnitAmount" "unitAmount";
        Plain "AccountCode" "accountCode";
        Plain "TaxType" "taxType" ] ].

Definition mapBankTransactionToXero : value -> result value :=
  toWire bank_transaction_rules.

(** *** Bank transfers *)

Definition bank_transfer_readers : list reader :=
  [ Get "bankTransferId" "BankTransferID";
    Expand "fromBankAccount" "FromBankAccount" bank_account_reference;
    Expand "toBankAccount" "ToBankAccount" bank_account_reference;
    Get "amount" "Amount";
    Get "date" "Date";
    Get "currencyRate" "CurrencyRate";
    Get "fromBankTransactionId" "FromBankTransactionID";
    Get "toBankTransactionId" "ToBankTransactionID";
    Get "hasAttachments" "HasAttachments";
    Get "createdDateUtc" "CreatedDateUTC" ].

Definition mapBankTransfer : value -> result value :=
  fromWire "FromBankAccount" bank_transfer_readers true.

(** *** Items *)

Definition item_readers : list reader :=
  [ Get "itemId" "ItemID";
    Get "code" "Code";
    Get "name" "Name";
    Get "description" "Description";
    Get "purchaseDescription" "PurchaseDescription";
    ExpandIf "purchaseDetails" "PurchaseDetails"
      [ ("unitPrice", "UnitPrice");
        ("accountCode", "AccountCode");
        ("cogsAccountCode", "COGSAccountCode");
        ("taxType", "TaxType") ];
    ExpandIf "salesDetails" "SalesDetails"
      [ ("unitPrice", "UnitPrice");
        ("accountCode", "AccountCode");
        ("taxType", "TaxType") ];
    Get "isTrackedAsInventory" "IsTrackedAsInventory";
    Get "inventoryAssetAccountCode" "InventoryAssetAccountCode";
    Get "totalCostPool" "TotalCostPool";
    Get "quantityOnHand" "QuantityOnHand";
    Get "isSold" "IsSold";
    Get "isPurchased" "IsPurchased";
    Get "updatedDateUtc" "UpdatedDateUTC" ].

Definition mapItem : value -> result value :=
  fromWire "PurchaseDetails" item_readers true.

Definition item_rules : list rule :=
  [ when_truthy "code" "Code";
    when_truthy "name" "Name";
    when_truthy "description" "Description";
    when_truthy "purchaseDescription" "PurchaseDescription";
    object_when_truthy "purchaseDetails" "PurchaseDetails"
      [ Plain "UnitPrice" "unitPrice";
        Plain "AccountCode" "accountCode";
        Plain "COGSAccountCode" "cogsAccountCode";
        Plain "TaxType" "taxType" ];
    object_when_truthy "salesDetails" "SalesDetails"
      [ Plain "UnitPrice" "unitPrice";
        Plain "AccountCode" "accountCode";
        Plain "TaxType" "taxType" ];
    when_defined "isTrackedAsInventory" "IsTrackedAsInventory";
    when_truthy "inventoryAssetAccountCode" "InventoryAssetAccountCode";
    when_defined "isSold" "IsSold";
    when_defined "isPurchased" "IsPurchased" ].

Definition mapItemToXero : value -> result value := toWire item_rules.

(** *** Purchase orders *)

Definition purchase_order_readers : list reader :=
  [ Get "purchaseOrderId" "PurchaseOrderID";
    Get "purchaseOrderNumber" "PurchaseOrderNumber";
    Get "reference" "Reference";
    Get "status" "Status";
    Expand "contact" "Contact" contact_reference;
    Get "date" "Date";
    Get "deliveryDate" "DeliveryDate";
    Get "deliveryAddress" "DeliveryAddress";
    Get "attentionTo" "AttentionTo";
    Get "telephone" "Telephone";
    Get "deliveryInstructions" "DeliveryInstructions";
    Get "expectedArrivalDate" "ExpectedArrivalDate";
    Get "currencyCode" "CurrencyCode";
    Get "currencyRate" "CurrencyRate";
    line_items;
    Get "subTotal" "SubTotal";
    Get "totalTax" "TotalTax";
    Get "total" "Total";
    Get "totalDiscount" "TotalDiscount";
    Get "hasAttachments" "HasAttachments";
    Get "updatedDateUtc" "UpdatedDateUTC" ].

Definition mapPurchaseOrder : bool -> value -> result value :=
  fromWire "Contact" purchase_order_readers.

Definition purchase_order_rules : list rule :=
  [ ref_when_truthy "contact" "Contact" "ContactID" "contactId";
    when_truthy "date" "Date";
    when_truthy "deliveryDate" "DeliveryDate";
    when_truthy "status" "Status";
    when_truthy "reference" "Reference";
    when_truthy "deliveryAddress" "DeliveryAddress";
    when_truthy "attentionTo" "AttentionTo";
    when_truthy "telephone" "Telephone";
    when_truthy "deliveryInstructions" "DeliveryInstructions";
    when_truthy "currencyCode" "CurrencyCode";
    each_when_truthy "lineItems" "LineItems"
      [ Plain "Description" "description";
        Plain "Quantity" "quantity";
        Plain "UnitAmount" "unitAmount";
        Plain "ItemCode" "itemCode";
        Plain "AccountCode" "accountCode";
        Plain "TaxType" "taxType" ] ].

Definition mapPurchaseOrderToXero : value -> result value :=
  toWire purchase_order_rules.

(** *** Quotes *)

Definition quote_readers : list reader :=
  [ Get "quoteId" "QuoteID";
    Get "quoteNumber" "QuoteNumber";
    Get "reference" "Reference";
    Get "status" "Status";
    Expand "contact" "Contact" contact_reference;
    Get "date" "Date";
    Get "expiryDate" "ExpiryDate";
    Get "currencyCode" "CurrencyCode";
    Get "currencyRate" "CurrencyRate";
    line_items;
    Get "subTotal" "SubTotal";
    Get "totalTax" "TotalTax";
    Get "total" "Total";
    Get "totalDiscount" "TotalDiscount";
    Get "title" "Title";
    Get "summary" "Summary";
    Get "terms" "Terms";
    Get "brandingThemeId" "BrandingThemeID";
    Get "updatedDateUtc" "UpdatedDateUTC" ].

Definition mapQuote : bool -> value -> result value :=
  fromWire "Contact" quote_readers.

Definition quote_rules : list rule :=
  [ ref_when_truthy "contact" "Contact" "ContactID" "contactId";
    when_truthy "date" "Date";
    when_truthy "expiryDate" "ExpiryDate";
    when_truthy "status" "Status";
    when_truthy "reference" "Reference";
    when_truthy "title" "Title";
    when_truthy "summary" "Summary";
    when_truthy "terms" "Terms";
    when_truthy "currencyCode" "CurrencyCode";
    when_truthy "brandingThemeId" "BrandingThemeID";
    each_when_truthy "lineItems" "LineItems"
      [ Plain "Description" "description";
        Plain "Quantity" "quantity";
        Plain "UnitAmount" "unitAmount";
        Plain "ItemCode" "itemCode";
        Plain "AccountCode" "accountCode";
        Plain "TaxType" "taxType";
        Plain "DiscountRate" "discountRate" ] ].

Definition mapQuoteToXero : value -> result value := toWire quote_rules.

(** *** Prepayments and overpayments *)

Definition prepayment_readers : list reader :=
  [ Get "prepaymentId" "PrepaymentID";
    Get "type" "Type";
    ExpandIf "contact" "Contact" contact_reference;
    Get "date" "Date";
    Get "status" "Status";
    Get "lineAmountTypes" "LineAmountTypes";
    line_items;
    Get "subTotal" "SubTotal";
    Get "totalTax" "TotalTax";
    Get "total" "Total";
    Get "remainingCredit" "RemainingCredit";
    Get "currencyCode" "CurrencyCode";
    Get "currencyRate" "CurrencyRate";
    Get "hasAttachments" "HasAttachments";
    Get "updatedDateUtc" "UpdatedDateUTC" ].

Definition mapPrepayment : bool -> value -> result value :=
  fromWire "Contact" prepayment_readers.

Definition overpayment_readers : list reader :=
  [ Get "overpaymentId" "OverpaymentID";
    Get "type" "Type";
    ExpandIf "contact" "Contact" contact_reference;
    Get "date" "Date";
    Get "status" "Status";
    Get "lineAmountTypes" "LineAmountTypes";
    line_items;
    Get "subTotal" "SubTotal";
    Get "totalTax" "TotalTax";
    Get "total" "Total";
    Get "remainingCredit" "RemainingCredit";
    Get "currencyCode" "CurrencyCode";
    Get "currencyRate" "CurrencyRate";
    Get "hasAttachments" "HasAttachments";
    Get "updatedDateUtc" "UpdatedDateUTC" ].

Definition mapOverpayment : bool -> value -> result value :=
  fromWire "Contact" overpayment_readers.

(** *** Journals *)

Definition journal_readers : list reader :=
  [ Get "journalId" "JournalID";
    Get "journalDate" "JournalDate";
    Get "journalNumber" "JournalNumber";
    Get "createdDateUtc" "CreatedDateUTC";
    Get "reference" "Reference";
    Get "sourceId" "SourceID";
    Get "sourceType" "SourceType";
    Items "journalLines" "JournalLines" None
      [ ("journalLineId", "JournalLineID");
        ("accountId", "AccountID");
        ("accountCode", "AccountCode");
        ("accountType", "AccountType");
        ("accountName", "AccountName");
        ("description", "Description");
        ("netAmount", "NetAmount");
        ("grossAmount", "GrossAmount");
        ("taxAmount", "TaxAmount");
        ("taxType", "TaxType");
        ("taxName", "TaxName") ] ].

Definition mapJournal : value -> result value :=
  fromWire "JournalID" journal_readers true.

(** *** Manual journals *)

Definition manual_journal_readers : list reader :=
  [ Get "manualJournalId" "ManualJournalID";
    Get "date" "Date";
    Get "status" "Status";
    Get "narration" "Narration";
    Get "lineAmountTypes" "LineAmountTypes";
    Items "journalLines" "JournalLines" None
      [ ("lineAmount", "LineAmount");
        ("accountCode", "AccountCode");
        ("accountId", "AccountID");
        ("description", "Description");
        ("taxType", "TaxType");
        ("taxAmount", "TaxAmount") ];
    Get "url" "Url";
    Get "showOnCashBasisReports" "ShowOnCashBasisReports";
    Get "hasAttachments" "HasAttachments";
    Get "updatedDateUtc" "UpdatedDateUTC" ].

Definition mapManualJournal : value -> result value :=
  fromWire "ManualJournalID" manual_journal_readers true.

Definition manual_journal_rules : list rule :=
  [ when_truthy "narration" "Narration";
    when_truthy "date" "Date";
    when_truthy "status" "Status";
    when_truthy "lineAmountTypes" "LineAmountTypes";
    when_defined "showOnCashBasisReports" "ShowOnCashBasisReports";
    each_when_truthy "journalLines" "JournalLines"
      [ Plain "LineAmount" "lineAmount";
        Plain "AccountCode" "accountCode";
        Plain "Description" "description";
        Plain "TaxType" "taxType" ] ].

Definition mapManualJournalToXero : value -> result value :=
  toWire manual_journal_rules.

(** *** Batch payments *)

Definition batch_payment_readers : list reader :=
  [ Get "batchPaymentId" "BatchPaymentID";
    ExpandIf "account" "Account"
      [ ("accountId", "AccountID"); ("code", "Code") ];
    Get "particulars" "Particulars";
    Get "code" "Code";
    Get "reference" "Reference";
    Get "date" "Date";
    Get "type" "Type";
    Get "status" "Status";
    Get "totalAmount" "TotalAmount";
    Get "isReconciled" "IsReconciled";
    Get "updatedDateUtc" "UpdatedDateUTC" ].

Definition mapBatchPayment : value -> result value :=
  fromWire "Account" batch_payment_readers true.

Definition batch_payment_rules : list rule :=
  [ ref_when_truthy "account" "Account" "AccountID" "accountId";
    when_truthy "date" "Date";
    when_truthy "particulars" "Particulars";
    when_truthy "code" "Code";
    when_truthy "reference" "Reference";
    each_when_truthy "payments" "Payments"
      [ Linked "Invoice" "invoice" "InvoiceID" "invoiceId";
        Linked "Account" "account" "AccountID" "accountId";
        Plain "Date" "date";
        Plain "Amount" "amount";
        Plain "Reference" "reference" ] ].

Definition mapBatchPaymentToXero : value -> result value :=
  toWire batch_payment_rules.

(** *** Tax rates *)

Definition tax_rate_readers : list reader :=
  [ Get "name" "Name";
    Get "taxType" "TaxType";
    Items "taxComponents" "TaxComponents" None
      [ ("name", "Name");
        ("rate", "Rate");
        ("isCompound", "IsCompound");
        ("isNonRecoverable", "IsNonRecoverable") ];
    Get "status" "Status";
    Get "reportTaxType" "ReportTaxType";
    Get "canApplyToAssets" "CanApplyToAssets";
    Get "canApplyToEquity" "CanApplyToEquity";
    Get "canApplyToExpenses" "CanApplyToExpenses";
    Get "canApplyToLiabilities" "CanApplyToLiabilities";
    Get "canApplyToRevenue" "CanApplyToRevenue";
    Get "displayTaxRate" "DisplayTaxRate";
    Get "effectiveRate" "EffectiveRate" ].

Definition mapTaxRate : value -> result value :=
  fromWire "Name" tax_rate_readers true.

Definition tax_rate_rules : list rule :=
  [ when_truthy "name" "Name";
    when_truthy "taxType" "TaxType";
    when_truthy "status" "Status";
    when_truthy "reportTaxType" "ReportTaxType";
    each_when_truthy "taxComponents" "TaxComponents"
      [ Plain "Name" "name";
        Plain "Rate" "rate";
        Plain "IsCompound" "isCompound";
        Plain "IsNonRecoverable" "isNonRecoverable" ] ].

Definition mapTaxRateToXero : value -> result value := toWire tax_rate_rules.

(** *** Currencies (the literal of [listCurrencies] and [createCurrency]) *)

Definition currency_readers : list reader :=
  [ Get "code" "Code"; Get "description" "Description" ].

Definition mapCurrency : value -> result value :=
  fromWire "Code" currency_readers true.

(** *** Tracking categories *)

Definition tracking_category_readers : list reader :=
  [ Get "trackingCategoryId" "TrackingCategoryID";
    Get "name" "Name";
    Get "status" "Status";
    Items "options" "Options" None
      [ ("trackingOptionId", "TrackingOptionID");
        ("name", "Name");
        ("status", "Status") ] ].

Definition mapTrackingCategory : value -> result value :=
  fromWire "TrackingCategoryID" tracking_category_readers true.

(** *** Branding themes *)

Definition branding_theme_readers : list reader :=
  [ Get "brandingThemeId" "BrandingThemeID";
    Get "name" "Name";
    Get "logoUrl" "LogoUrl";
    Get "type" "Type";
    Get "sortOrder" "SortOrder";
    Get "createdDateUtc" "CreatedDateUTC" ].

Definition mapBrandingTheme : value -> result value :=
  fromWire "BrandingThemeID" branding_theme_readers true.

(** *** Repeating invoices *)

Definition repeating_invoice_readers : list reader :=
  [ Get "repeatingInvoiceId" "RepeatingInvoiceID";
    Get "type" "Type";
    Get "reference" "Reference";
    Get "hasAttachments" "HasAttachments";
    Expand "contact" "Contact" contact_reference;
    ExpandIf "schedule" "Schedule"
      [ ("period", "Period");
        ("unit", "Unit");
        ("dueDate", "DueDate");
        ("dueDateType", "DueDateType");
        ("startDate", "StartDate");
        ("nextScheduledDate", "NextScheduledDate");
        ("endDate", "EndDate") ];
    line_items;
    Get "lineAmountTypes" "LineAmountTypes";
    Get "status" "Status";
    Get "subTotal" "SubTotal";
    Get "totalTax" "TotalTax";
    Get "total" "Total";
    Get "currencyCode" "CurrencyCode";
    Get "brandingThemeId" "BrandingThemeID";
    Get "approvedForSending" "ApprovedForSending";
    Get "sendCopy" "SendCopy";
    Get "markAsSent" "MarkAsSent";
    Get "includePdf" "IncludePDF" ].

Definition mapRepeatingInvoice : bool -> value -> result value :=
  fromWire "Contact" repeating_invoice_readers.

Definition repeating_invoice_rules : list rule :=
  [ when_truthy "type" "Type";
    ref_when_truthy "contact" "Contact" "ContactID" "contactId";
    when_truthy "reference" "Reference";
    when_truthy "status" "Status";
    when_truthy "lineAmountTypes" "LineAmountTypes";
    when_truthy "currencyCode" "CurrencyCode";
    when_truthy "brandingThemeId" "BrandingThemeID";
    when_defined "approvedForSending" "ApprovedForSending";
    when_defined "sendCopy" "SendCopy";
    when_defined "markAsSent" "MarkAsSent";
    when_defined "includePdf" "IncludePDF";
    object_when_truthy "schedule" "Schedule"
      [ Plain "Period" "period";
        Plain "Unit" "unit";
        Plain "DueDate" "dueDate";
        Plain "DueDateType" "dueDateType";
        Plain "StartDate" "startDate";
        Plain "EndDate" "endDate" ];
    each_when_truthy "lineItems" "LineItems"
      [ Plain "Description" "description";
        Plain "Quantity" "quantity";
        Plain "UnitAmount" "unitAmount";
        Plain "ItemCode" "itemCode";
        Plain "AccountCode" "accountCode";
        Plain "TaxType" "taxType" ] ].

Definition mapRepeatingInvoiceToXero : value -> result value :=
  toWire repeating_invoice_rules.

(** *** Users *)

Definition user_readers : list reader :=
  [ Get "userId" "UserID";
    Get "emailAddress" "EmailAddress";
    Get "firstName" "FirstName";
    Get "lastName" "LastName";
    Get "updatedDateUtc" "UpdatedDateUTC";
    Get "isSubscriber" "IsSubscriber";
    Get "organisationRole" "OrganisationRole" ].

Definition mapUser : value -> result value :=
  fromWire "UserID" user_readers true.

(** *** Linked transactions *)

Definition linked_transaction_readers : list reader :=
  [ Get "linkedTransactionId" "LinkedTransactionID";
    Get "sourceTransactionId" "SourceTransactionID";
    Get "sourceLineItemId" "SourceLineItemID";
    Get "sourceTransactionTypeCode" "SourceTransactionTypeCode";
    Get "contactId" "ContactID";
    Get "targetTransactionId" "TargetTransactionID";
    Get "targetLineItemId" "TargetLineItemID";
    Get "status" "Status";
    Get "type" "Type";
    Get "updatedDateUtc" "UpdatedDateUTC" ].

Definition mapLinkedTransaction : value -> result value :=
  fromWire "LinkedTransactionID" linked_transaction_readers true.

(** *** Reports *)

Definition report_readers : list reader :=
  [ Get "reportId" "ReportID";
    Get "reportName" "ReportName";
    Get "reportType" "ReportType";
    Get "reportTitles" "ReportTitles";
    Get "reportDate" "ReportDate";
    Get "updatedDateUtc" "UpdatedDateUTC";
    Get "rows" "Rows" ].

Definition mapReport : value -> result value :=
  fromWire "ReportID" report_readers true.

(** *** The mapping pairs

    The entity kinds that have both directions, with the wire keys of what
    the remote system owns: the identifier it assigns, the money fields it
    computes and its timestamps; [owned_within] lists those of the records
    nested under a key (the identifier and the computed amounts of a line
    item, of a journal line, the next date of a schedule). *)
Record kind := {
  label : string;
  first_read : string;
  readers : list reader;
  rules : list rule;
  remote_owned : list string;
  owned_within : list (string * list string);
}.

(** What the remote side owns of a line item. *)
Definition line_owned : list string :=
  ["LineItemID"; "TaxAmount"; "LineAmount"; "DiscountAmount"].

Definition contact_kind : kind :=
  {| label := "contact"; first_read := "ContactID";
     readers := contact_readers; rules := contact_rules;
     remote_owned := ["ContactID"; "UpdatedDateUTC"; "Balances"];
     owned_within := [] |}.

Definition account_kind : kind :=
  {| label := "account"; first_read := "AccountID";
     readers := account_readers; rules := account_rules;
     remote_owned := ["AccountID"; "UpdatedDateUTC"];
     owned_within := [] |}.

Definition invoice_kind : kind :=
  {| label := "invoice"; first_read := "Contact";
     readers := invoice_readers; rules := invoice_rules;
     remote_owned :=
       ["InvoiceID"; "SubTotal"; "TotalTax"; "Total"; "TotalDiscount";
        "AmountDue"; "AmountPaid"; "AmountCredited"; "FullyPaidOnDate";
        "UpdatedDateUTC"];
     owned_within := [("LineItems", line_owned)] |}.

Definition credit_note_kind : kind :=
  {| label := "creditNote"; first_read := "Contact";
     readers := credit_note_readers; rules := credit_note_rules;
     remote_owned :=
       ["CreditNoteID"; "SubTotal"; "TotalTax"; "Total"; "RemainingCredit";
        "UpdatedDateUTC"];
     owned_within := [("LineItems", line_owned)] |}.

Definition payment_kind : kind :=
  {| label := "payment"; first_read := "Invoice";
     readers := payment_readers; rules := payment_rules;
     remote_owned := ["PaymentID"; "UpdatedDateUTC"];
     owned_within := [] |}.

Definition bank_transaction_kind : kind :=
  {| label := "bankTransaction"; first_read := "Contact";
     readers := bank_transaction_readers; rules := bank_transaction_rules;
     remote_owned :=
       ["BankTransactionID"; "SubTotal"; "TotalTax"; "Total";
        "UpdatedDateUTC"];
     owned_within := [("LineItems", line_owned)] |}.

Definition item_kind : kind :=
  {| label := "item"; first_read := "PurchaseDetails";
     readers := item_readers; rules := item_rules;
     remote_owned :=
       ["ItemID"; "TotalCostPool"; "QuantityOnHand"; "UpdatedDateUTC"];
     owned_within := [] |}.

Definition purchase_order_kind : kind :=
  {| label := "purchaseOrder"; first_read := "Contact";
     readers := purchase_order_readers; rules := purchase_order_rules;
     remote_owned :=
       ["PurchaseOrderID"; "SubTotal"; "TotalTax"; "Total"; "TotalDiscount";
        "UpdatedDateUTC"];
     owned_within := [("LineItems", line_owned)] |}.

Definition quote_kind : kind :=
  {| label := "quote"; first_read := "Contact";
     readers := quote_readers; rules := quote_rules;
     remote_owned :=
       ["QuoteID"; "SubTotal"; "TotalTax"; "Total"; "TotalDiscount";
        "UpdatedDateUTC"];
     owned_within := [("LineItems", line_owned)] |}.

Definition manual_journal_kind : kind :=
  {| label := "manualJournal"; first_read := "ManualJournalID";
     readers := manual_journal_readers; rules := manual_journal_rules;
     remote_owned := ["ManualJournalID"; "UpdatedDateUTC"];
     owned_within := [("JournalLines", ["AccountID"; "TaxAmount"])] |}.

Definition batch_payment_kind : kind :=
  {| label := "batchPayment"; first_read := "Account";
     readers := batch_payment_readers; rules := batch_payment_rules;
     remote_owned := ["BatchPaymentID"; "TotalAmount"; "UpdatedDateUTC"];
     owned_within := [] |}.

Definition tax_rate_kind : kind :=
  {| label := "taxRate"; first_read := "Name";
     readers := tax_rate_readers; rules := tax_rate_rules;
     remote_owned := ["DisplayTaxRate"; "EffectiveRate"];
     owned_within := [] |}.

Definition repeating_invoice_kind : kind :=
  {| label := "repeatingInvoice"; first_read := "Contact";
     readers := repeating_invoice_readers; rules := repeating_invoice_rules;
     remote_owned :=
       ["RepeatingInvoiceID"; "SubTotal"; "TotalTax"; "Total"];
     owned_within :=
       [("LineItems", line_owned);
        ("Schedule", ["NextScheduledDate"])] |}.

Definition kinds : list kind :=
  [ contact_kind; account_kind; invoice_kind; credit_note_kind; payment_kind;
    bank_transaction_kind; item_kind; purchase_order_kind; quote_kind;
    manual_journal_kind; batch_payment_kind; tax_rate_kind;
    repeating_invoice_kind ].

(** [fromWire] and [toWire] of a kind; [this] is bound, as it is when the
    client calls the method itself. *)
Definition from_wire (k : kind) : value -> result value :=
  fromWire (first_read k) (readers k) true.

Definition to_wire (k : kind) : value -> result value := toWire (rules k).

End Entities.

(* ===================================================================== *)
(** ** Strings of the platform: numbers, headers, query strings *)
(* ===================================================================== *)

Module Text.
Import Js.

Definition dquote : string := String (ascii_of_nat 34) EmptyString.

(** Decimal digits of an integer, as a template literal prints a status
    code or a count. *)
Definition decimal (z : Z) : string :=
  DecimalString.NilZero.string_of_int (Z.to_int z).

(** *** [parseInt(s, 10)]

    Leading white space is skipped, one sign is read, then the longest
    run of decimal digits; with no digit the result is [NaN]. (The value
    is exact; the engine rounds beyond 2^53.) *)
Definition is_space (c : ascii) : bool :=
  let n := nat_of_ascii c in
  ((9 <=? n) && (n <=? 13) || (n =? 32))%nat.

Fixpoint skip_spaces (s : string) : string :=
  match s with
  | String c r => if is_space c then skip_spaces r else s
  | EmptyString => s
  end.

Definition digit_of (c : ascii) : option Z :=
  let n := nat_of_ascii c in
  if ((48 <=? n) && (n <=? 57))%nat then Some (Z.of_nat (n - 48)) else None.

Fixpoint digits (s : string) (acc : option Z) : option Z :=
  match s with
  | String c r =>
      match digit_of c with
      | Some d =>
          digits r (Some (10 * match acc with Some a => a | None => 0 end + d)%Z)
      | None => acc
      end
  | EmptyString => acc
  end.

Definition parseInt (s : string) : number :=
  let s := skip_spaces s in
  let signed :=
    match s with
    | String "-" r => (true, r)
    | String "+" r => (false, r)
    | _ => (false, s)
    end in
  match digits (snd signed) None with
  | Some n => of_Z (if fst signed then - n else n)
  | None => NaN
  end.

(** *** [Headers.get]: names compare without case, and several fields of
    one name are joined with a comma and a space. *)
Definition lower (c : ascii) : ascii :=
  let n := nat_of_ascii c in
  if ((65 <=? n) && (n <=? 90))%nat then ascii_of_nat (n + 32) else c.

Fixpoint lowercase (s : string) : string :=
  match s with
  | String c r => String (lower c) (lowercase r)
  | EmptyString => EmptyString
  end.

Definition headers_get (name : string) (hs : list (string * string))
  : option string :=
  match filter (fun h => lowercase (fst h) =? lowercase name) hs with
  | [] => None
  | found => Some (String.concat ", " (map snd found))
  end.

(** *** [URLSearchParams]

    A list of pairs; [set] overwrites the first pair of the name and drops
    the others, or appends; [toString] is the form-urlencoded serialisation
    of the bytes. A string is the sequence of bytes of a well-formed text
    in UTF-8: a JavaScript string with a lone surrogate, which the
    serialiser replaces by U+FFFD, has no counterpart here, and nothing
    below is said of one. *)
Definition query := list (string * string).

Fixpoint query_set (name v : string) (q : query) : query :=
  match q with
  | [] => [(name, v)]
  | (n, x) :: r =>
      if n =? name
      then (name, v) :: filter (fun p => negb (fst p =? name)) r
      else (n, x) :: query_set name v r
  end.

Definition hex_digit (n : nat) : ascii :=
  if (n <? 10)%nat then ascii_of_nat (48 + n) else ascii_of_nat (55 + n).

Definition plain_byte (c : ascii) : bool :=
  let n := nat_of_ascii c in
  ((48 <=? n) && (n <=? 57) || (65 <=? n) && (n <=? 90)
   || (97 <=? n) && (n <=? 122)
   || (n =? 42) || (n =? 45) || (n =? 46) || (n =? 95))%nat.

Fixpoint urlencode (s : string) : string :=
  match s with
  | String c r =>
      let n := nat_of_ascii c in
      if (n =? 32)%nat then String "+" (urlencode r)
      else if plain_byte c then String c (urlencode r)
      else String "%" (String (hex_digit (n / 16))
                         (String (hex_digit (n mod 16)) (urlencode r)))
  | EmptyString => EmptyString
  end.

Definition query_toString (q : query) : string :=
  String.concat "&" (map (fun p => urlencode (fst p) ++ "=" ++ urlencode (snd p)) q).

(** [`${queryString ? `?${queryString}` : ''}`] *)
Definition query_suffix (queryString : string) : string :=
  if queryString =? "" then "" else "?" ++ queryString.

End Text.

(* ===================================================================== *)
(** ** The platform a client runs on *)
(* ===================================================================== *)

Module Platform.
Import Js.

(** [RequestInit] as the client fills it, and the request [fetch] is
    called with. *)
Record RequestInit := {
  method : option string;
  body : option value;
}.

Definition GET : RequestInit := {| method := None; body := None |}.
Definition DELETE : RequestInit := {| method := Some "DELETE"; body := None |}.
Definition POST (b : value) : RequestInit :=
  {| method := Some "POST"; body := Some (stringify b) |}.
Definition PUT (b : value) : RequestInit :=
  {| method := Some "PUT"; body := Some (stringify b) |}.

Record Request := {
  url : string;
  init : RequestInit;
  headers : list (string * string);
}.

Record Response := {
  status : Z;
  response_headers : list (string * string);
  text : string;
}.

Inductive Settled :=
| Rejected (message : string)
| Responded (r : Response).

(** What the engine and the network supply: the printing of numbers, the
    JSON parser ([None] when it throws), the wording of the errors the
    engine raises, and [fetch], which answers a request knowing the
    requests made before it. *)
Record Runtime := {
  Number_toString : number -> string;
  JSON_parse : string -> option value;
  TypeError_message : fault -> string;
  SyntaxError_message : string -> string;
  fetch : list Request -> Request -> Settled;
}.

Section WithRuntime.
Variable env : Runtime.

(** [String(n)]: an integer of magnitude below 2^53 prints as its decimal
    digits. Beyond that the engine prints the shortest digits that read
    back as the same double, which are not the digits of the integer, so
    every other number is left to the engine. *)
Definition number_to_string (n : number) : string :=
  match n with
  | NaN => "NaN"
  | Fin q =>
      if (Zpos (Qden q) =? 1)%Z && (Z.abs (Qnum q) <? 2 ^ 53)%Z
      then Text.decimal (Qnum q)
      else Number_toString env n
  end.

(** [String(v)], as template literals, [URLSearchParams] and [join]
    apply it. *)
Fixpoint to_string (v : value) : string :=
  match v with
  | VUndef => "undefined"
  | VNull => "null"
  | VBool true => "true"
  | VBool false => "false"
  | VNum n => number_to_string n
  | VStr s => s
  | VArr l =>
      String.concat ","
        (map (fun x => if nullish x then "" else to_string x) l)
  | VObj _ => "[object Object]"
  end.

(** [l.join(sep)] *)
Definition join (sep : string) (l : list value) : string :=
  String.concat sep (map (fun x => if nullish x then "" else to_string x) l).

(** [e.message] *)
Definition message_of (e : error) : string :=
  match e with
  | AuthenticationError m => m
  | RateLimitError m _ => m
  | CrmApiError m _ => to_string m
  | TypeError f => TypeError_message env f
  | SyntaxError t => SyntaxError_message env t
  | FetchError m => m
  | PlainError m => m
  end.
End WithRuntime.

End Platform.

(* ===================================================================== *)
(** ** Credentials ([types/env.ts]) *)
(* ===================================================================== *)

Module Env.
Import Js.

(** [TenantCredentials]. The two mandatory fields are declared [string];
    they are options here so that an absent field can be told from an
    empty one. *)
Record TenantCredentials := {
  accessToken : option string;
  tenantId : option string;
  baseUrl : option string;
}.

(** [!s] for a string that may be absent *)
Definition blank (s : option string) : bool :=
  match s with
  | None => true
  | Some s => s =? ""
  end.

Definition text_of (s : option string) : string :=
  match s with
  | None => "undefined"
  | Some s => s
  end.

(** [validateCredentials] *)
Definition validateCredentials (credentials : TenantCredentials)
  : result unit :=
  if blank (accessToken credentials) then
    throw (PlainError
      "Missing X-Xero-Access-Token header. Provide a valid OAuth 2.0 access token.")
  else if blank (tenantId credentials) then
    throw (PlainError
      "Missing X-Xero-Tenant-Id header. Provide a valid Xero tenant ID.")
  else ok tt.

End Env.

(* ===================================================================== *)
(** ** Pagination helper ([utils/formatters.ts]) *)
(* ===================================================================== *)

Module Formatters.

(** [hasMoreItems(itemCount, pageSize = 100)] *)
Definition hasMoreItems (itemCount : Z) (pageSize : option Z) : bool :=
  (match pageSize with Some p => p | None => 100 end <=? itemCount)%Z.

End Formatters.

(* ===================================================================== *)
(** ** The client ([client.ts]) *)
(* ===================================================================== *)

Module Client.
Import Js Mapper Entities Text Platform Env.

Definition API_BASE_URL : string := "https://api.xero.com/api.xro/2.0".

(** An asynchronous method: it runs from the requests issued so far to a
    value or a failure and the requests issued by then. *)
Definition M (A : Type) : Type := list Request -> result A * list Request.

Definition lift {A} (r : result A) : M A := fun log => (r, log).
Definition pure {A} (x : A) : M A := lift (ok x).

Definition bind {A B} (m : M A) (k : A -> M B) : M B :=
  fun log =>
    match m log with
    | (inl e, log') => (inl e, log')
    | (inr x, log') => k x log'
    end.

(** [try { body } catch (error) { handler }] *)
Definition try_catch {A} (body : M A) (handler : error -> M A) : M A :=
  fun log =>
    match body log with
    | (inl e, log') => handler e log'
    | (inr x, log') => (inr x, log')
    end.

Declare Scope client_scope.
Delimit Scope client_scope with client.
Notation "x <- m ;; k" := (bind m (fun x => k))
  (at level 61, m at next level, right associativity) : client_scope.
Notation "'let!' x ':=' r 'in' k" := (and_then r (fun x => k))
  (at level 61, x name, r at next level, right associativity).
Local Open Scope client_scope.

Section WithClient.
Variable env : Runtime.
Variable credentials : TenantCredentials.

(** [this.baseUrl = credentials.baseUrl || API_BASE_URL] *)
Definition clientBaseUrl : string :=
  if blank (baseUrl credentials) then API_BASE_URL
  else text_of (baseUrl credentials).

(** *** HTTP request helper *)

Definition getAuthHeaders : result (list (string * string)) :=
  if blank (accessToken credentials) then
    throw (AuthenticationError
      "No access token provided. Include X-Xero-Access-Token header.")
  else if blank (tenantId credentials) then
    throw (AuthenticationError
      "No tenant ID provided. Include X-Xero-Tenant-Id header.")
  else
    ok [ ("Authorization", "Bearer " ++ text_of (accessToken credentials));
         ("Xero-Tenant-Id", text_of (tenantId credentials));
         ("Content-Type", "application/json");
         ("Accept", "application/json") ].

(** [retryAfter ? parseInt(retryAfter, 10) : 60] *)
Definition retry_after_seconds (r : Response) : number :=
  match headers_get "Retry-After" (response_headers r) with
  | Some retryAfter =>
      if retryAfter =? "" then of_Z 60 else parseInt retryAfter
  | None => of_Z 60
  end.

(** [errorJson.Elements.filter(e => e.ValidationErrors?.length)
      .flatMap(e => e.ValidationErrors?.map(v => v.Message) || [])] *)
Definition has_validation_errors (e : value) : result bool :=
  let! ve := read e "ValidationErrors" in
  ok (truthy (opt_member ve "length")).

Fixpoint keep (es : list value) : result (list value) :=
  match es with
  | [] => ok []
  | e :: r =>
      let! b := has_validation_errors e in
      let! rest := keep r in
      ok (if b then e :: rest else rest)
  end.

Definition messages_of (e : value) : result (list value) :=
  let! ve := read e "ValidationErrors" in
  if nullish ve then ok []
  else
    match ve with
    | VArr vs => traverse (fun v => read v "Message") vs
    | _ => throw (TypeError (NotAFunction "map"))
    end.

Definition validation_errors (elements : value) : result (list value) :=
  match elements with
  | VArr es =>
      let! kept := keep es in
      let! found := traverse messages_of kept in
      ok (concat found)
  | _ =>
      if nullish elements
      then throw (TypeError (ReadOfNullish elements "filter"))
      else throw (TypeError (NotAFunction "filter"))
  end.

Definition default_message (r : Response) : value :=
  VStr ("Xero API error: " ++ decimal (status r)).

(** The body of the [try] block, once the text has parsed: what
    [message] is left at, or the failure that the [catch] swallows. *)
Definition message_from (r : Response) (errorJson : value) : result value :=
  let! m := read errorJson "Message" in
  if truthy m then ok m
  else
    let! elements := read errorJson "Elements" in
    if truthy elements then
      let! validationErrors := validation_errors elements in
      match validationErrors with
      | [] => ok (default_message r)
      | _ => ok (VStr (join env "; " validationErrors))
      end
    else ok (default_message r).

Definition api_error_message (r : Response) : value :=
  match JSON_parse env (text r) with
  | None => default_message r
  | Some errorJson =>
      match message_from r errorJson with
      | inr m => m
      | inl _ => default_message r
      end
  end.

(** [response.ok] *)
Definition response_ok (r : Response) : bool :=
  ((200 <=? status r) && (status r <=? 299))%Z.

(** What [request] does with the response of [fetch]. *)
Definition settle (r : Response) : result value :=
  if (status r =? 429)%Z then
    throw (RateLimitError "Rate limit exceeded" (retry_after_seconds r))
  else if (status r =? 401)%Z then
    throw (AuthenticationError "Invalid or expired access token")
  else if (status r =? 403)%Z then
    throw (AuthenticationError
      "Access forbidden. Check tenant ID and permissions.")
  else if negb (response_ok r) then
    throw (CrmApiError (api_error_message r) (status r))
  else if (status r =? 204)%Z then ok VUndef
  else
    match JSON_parse env (text r) with
    | Some v => ok v
    | None => throw (SyntaxError (text r))
    end.

(** [request]: the headers are built, and a missing credential thrown,
    while the argument of [fetch] is evaluated. *)
Definition request (endpoint : string) (options : RequestInit) : M value :=
  fun log =>
    match getAuthHeaders with
    | inl e => (inl e, log)
    | inr auth =>
        let req := {| url := clientBaseUrl ++ endpoint;
                      init := options;
                      headers := auth |} in
        match fetch env log req with
        | Rejected m => (inl (FetchError m), log ++ [req])%list
        | Responded r => (settle r, log ++ [req])%list
        end
    end.

(** *** Shapes shared by the methods *)

(** [data.Key.map(f)] *)
Definition mapped (data : value) (k : string) (f : value -> result value)
  : result (list value) :=
  let! a := read data k in
  match a with
  | VArr l => traverse f l
  | _ =>
      if nullish a then throw (TypeError (ReadOfNullish a "map"))
      else throw (TypeError (NotAFunction "map"))
  end.

(** [f(data.Key[0])] *)
Definition first_of (data : value) (k : string) (f : value -> result value)
  : result value :=
  let! a := read data k in
  let! x := read0 a in
  f x.

(** [{ items, count: items.length, hasMore: items.length >= 100,
       page: params?.page || 1 }] *)
Definition page_of (items : list value) (params : value) : value :=
  literal
    [ ("items", VArr items);
      ("count", VNum (of_nat (length items)));
      ("hasMore", VBool (100 <=? length items)%nat);
      ("page", or_else (opt_member params "page") (VNum (of_Z 1))) ].

(** [if (params?.name) queryParams.set(key, String(params.name))] *)
Definition set_from (params : value) (name key : string) (q : query)
  : query :=
  let v := opt_member params name in
  if truthy v then query_set key (to_string env v) q else q.

(** [{ Key: [x] }] *)
Definition wrap (k : string) (x : value) : value := literal [(k, VArr [x])].

(** [x.k = v] on the object a [map...ToXero] method returned *)
Definition with_property (x : value) (k : string) (v : value) : value :=
  match x with
  | VObj o => VObj (assign k v o)
  | _ => x
  end.

(** The three parameters every paginated list reads first. *)
Definition paging (params : value) : query :=
  set_from params "order" "order"
    (set_from params "where" "where"
       (set_from params "page" "page" [])).

(** *** Connection *)

(** Every failure of the model is an [Error] object, so the handler
    always takes [error.message]. *)
Definition testConnection : M value :=
  try_catch
    (data <- request "/Organisation" GET ;;
     lift (let! organisations := read data "Organisations" in
           let! org := read0 organisations in
           ok (literal
                 [ ("connected", VBool true);
                   ("message",
                    VStr ("Connected to " ++
                          to_string env
                            (or_else (opt_member org "name") (VStr "Xero"))))
                 ])))
    (fun error =>
       pure (literal [ ("connected", VBool false);
                       ("message", VStr (message_of env error)) ])).

(** *** Organisation *)

Definition getOrganisation : M value :=
  data <- request "/Organisation" GET ;;
  lift (first_of data "Organisations" mapOrganisation).

(** *** Contacts *)

Definition listContacts (params : value) : M value :=
  let queryParams := paging params in
  let queryParams :=
    if truthy (opt_member params "includeArchived")
    then query_set "includeArchived" "true" queryParams
    else queryParams in
  let queryString := query_toString queryParams in
  data <- request ("/Contacts" ++ query_suffix queryString) GET ;;
  lift (let! contacts := mapped data "Contacts" mapContact in
        ok (page_of contacts params)).

Definition getContact (contactId : string) : M value :=
  data <- request ("/Contacts/" ++ contactId) GET ;;
  lift (first_of data "Contacts" mapContact).

Definition createContact (contact : value) : M value :=
  xero <- lift (mapContactToXero contact) ;;
  data <- request "/Contacts" (POST (wrap "Contacts" xero)) ;;
  lift (first_of data "Contacts" mapContact).

Definition updateContact (contactId : string) (contact : value) : M value :=
  xero <- lift (mapContactToXero contact) ;;
  data <- request ("/Contacts/" ++ contactId) (POST (wrap "Contacts" xero)) ;;
  lift (first_of data "Contacts" mapContact).

Definition archiveContact (contactId : string) : M value :=
  updateContact contactId (literal [("contactStatus", VStr "ARCHIVED")]).

(** *** Contact groups *)

Definition listContactGroups : M value :=
  data <- request "/ContactGroups" GET ;;
  lift (let! groups := mapped data "ContactGroups" (mapContactGroup false) in
        ok (VArr groups)).

Definition getContactGroup (contactGroupId : string) : M value :=
  data <- request ("/ContactGroups/" ++ contactGroupId) GET ;;
  lift (first_of data "ContactGroups" (mapContactGroup true)).

Definition createContactGroup (name : string) : M value :=
  data <- request "/ContactGroups"
            (PUT (wrap "ContactGroups" (literal [("Name", VStr name)]))) ;;
  lift (first_of data "ContactGroups" (mapContactGroup true)).

Definition updateContactGroup (contactGroupId name : string) : M value :=
  data <- request ("/ContactGroups/" ++ contactGroupId)
            (POST (wrap "ContactGroups" (literal [("Name", VStr name)]))) ;;
  lift (first_of data "ContactGroups" (mapContactGroup true)).

Definition deleteContactGroup (contactGroupId : string) : M value :=
  _ <- request ("/ContactGroups/" ++ contactGroupId)
         (POST (wrap "ContactGroups" (literal [("Status", VStr "DELETED")]))) ;;
  pure VUndef.

Definition addContactsToGroup (contactGroupId : string)
  (contactIds : list string) : M value :=
  data <- request ("/ContactGroups/" ++ contactGroupId ++ "/Contacts")
            (PUT (literal
                    [("Contacts",
                      VArr (map (fun id => literal [("ContactID", VStr id)])
                                contactIds))])) ;;
  lift (first_of data "ContactGroups" (mapContactGroup true)).

Definition removeContactsFromGroup (contactGroupId contactId : string)
  : M value :=
  _ <- request ("/ContactGroups/" ++ contactGroupId ++ "/Contacts/" ++ contactId)
         DELETE ;;
  pure VUndef.

(** *** Accounts *)

(** The [queryParams] of [listAccounts] after its two [set] calls. *)
Definition accounts_query (params : value) : query :=
  let queryParams := set_from params "where" "where" [] in
  let classType := opt_member params "classType" in
  if truthy classType
  then query_set "where"
         ("Class==" ++ dquote ++ to_string env classType ++ dquote)
         queryParams
  else queryParams.

Definition listAccounts (params : value) : M value :=
  let queryString := query_toString (accounts_query params) in
  data <- request ("/Accounts" ++ query_suffix queryString) GET ;;
  lift (let! accounts := mapped data "Accounts" mapAccount in
        ok (VArr accounts)).

Definition getAccount (accountId : string) : M value :=
  data <- request ("/Accounts/" ++ accountId) GET ;;
  lift (first_of data "Accounts" mapAccount).

Definition createAccount (account : value) : M value :=
  xero <- lift (mapAccountToXero account) ;;
  data <- request "/Accounts" (PUT xero) ;;
  lift (first_of data "Accounts" mapAccount).

Definition updateAccount (accountId : string) (account : value) : M value :=
  xero <- lift (mapAccountToXero account) ;;
  data <- request ("/Accounts/" ++ accountId) (POST xero) ;;
  lift (first_of data "Accounts" mapAccount).

Definition archiveAccount (accountId : string) : M value :=
  updateAccount accountId (literal [("status", VStr "ARCHIVED")]).

Definition deleteAccount (accountId : string) : M value :=
  _ <- request ("/Accounts/" ++ accountId) DELETE ;;
  pure VUndef.

(** *** Invoices *)

(** [params.statuses.join(',')] *)
Definition joined_statuses (statuses : value) : result string :=
  match statuses with
  | VArr l => ok (join env "," l)
  | _ => throw (TypeError (NotAFunction "join"))
  end.

Definition listInvoices (params : value) : M value :=
  let queryParams := paging params in
  queryParams <-
    lift (let statuses := opt_member params "statuses" in
          if truthy statuses
          then let! s := joined_statuses statuses in
               ok (query_set "Statuses" s queryParams)
          else ok queryParams) ;;
  let queryString := query_toString queryParams in
  data <- request ("/Invoices" ++ query_suffix queryString) GET ;;
  lift (let! invoices := mapped data "Invoices" (mapInvoice false) in
        ok (page_of invoices params)).

Definition getInvoice (invoiceId : string) : M value :=
  data <- request ("/Invoices/" ++ invoiceId) GET ;;
  lift (first_of data "Invoices" (mapInvoice true)).

Definition createInvoice (invoice : value) : M value :=
  xero <- lift (mapInvoiceToXero invoice) ;;
  data <- request "/Invoices" (POST (wrap "Invoices" xero)) ;;
  lift (first_of data "Invoices" (mapInvoice true)).

Definition updateInvoice (invoiceId : string) (invoice : value) : M value :=
  xeroInvoice <- lift (mapInvoiceToXero invoice) ;;
  let xeroInvoice := with_property xeroInvoice "InvoiceID" (VStr invoiceId) in
  data <- request ("/Invoices/" ++ invoiceId)
            (POST (wrap "Invoices" xeroInvoice)) ;;
  lift (first_of data "Invoices" (mapInvoice true)).

Definition voidInvoice (invoiceId : string) : M value :=
  data <- request ("/Invoices/" ++ invoiceId)
            (POST (wrap "Invoices"
                     (literal [ ("InvoiceID", VStr invoiceId);
                                ("Status", VStr "VOIDED") ]))) ;;
  lift (first_of data "Invoices" (mapInvoice true)).

Definition deleteInvoice (invoiceId : string) : M value :=
  _ <- request ("/Invoices/" ++ invoiceId)
         (POST (wrap "Invoices"
                  (literal [ ("InvoiceID", VStr invoiceId);
                             ("Status", VStr "DELETED") ]))) ;;
  pure VUndef.

(** *** Credit notes *)

Definition listCreditNotes (params : value) : M value :=
  let queryString := query_toString (paging params) in
  data <- request ("/CreditNotes" ++ query_suffix queryString) GET ;;
  lift (let! creditNotes := mapped data "CreditNotes" (mapCreditNote true) in
        ok (page_of creditNotes params)).

Definition getCreditNote (creditNoteId : string) : M value :=
  data <- request ("/CreditNotes/" ++ creditNoteId) GET ;;
  lift (first_of data "CreditNotes" (mapCreditNote true)).

Definition createCreditNote (creditNote : value) : M value :=
  xero <- lift (mapCreditNoteToXero creditNote) ;;
  data <- request "/CreditNotes" (POST (wrap "CreditNotes" xero)) ;;
  lift (first_of data "CreditNotes" (mapCreditNote true)).

Definition updateCreditNote (creditNoteId : string) (creditNote : value)
  : M value :=
  xero <- lift (mapCreditNoteToXero creditNote) ;;
  data <- request ("/CreditNotes/" ++ creditNoteId)
            (POST (wrap "CreditNotes" xero)) ;;
  lift (first_of data "CreditNotes" (mapCreditNote true)).

(** [{ Invoice: { InvoiceID: invoiceId }, Amount: amount }], with
    [Date] when a date is given *)
Definition allocation (invoiceId : string) (amount : number) (date : value)
  : value :=
  let a := [ ("Invoice", literal [("InvoiceID", VStr invoiceId)]);
             ("Amount", VNum amount) ] in
  VObj (if truthy date then assign "Date" date a else a).

Definition allocateCreditNote (creditNoteId invoiceId : string)
  (amount : number) (date : value) : M value :=
  data <- request ("/CreditNotes/" ++ creditNoteId ++ "/Allocations")
            (PUT (wrap "Allocations" (allocation invoiceId amount date))) ;;
  lift (first_of data "CreditNotes" (mapCreditNote true)).

Definition voidCreditNote (creditNoteId : string) : M value :=
  data <- request ("/CreditNotes/" ++ creditNoteId)
            (POST (wrap "CreditNotes" (literal [("Status", VStr "VOIDED")]))) ;;
  lift (first_of data "CreditNotes" (mapCreditNote true)).

(** *** Payments *)

Definition listPayments (params : value) : M value :=
  let queryString := query_toString (paging params) in
  data <- request ("/Payments" ++ query_suffix queryString) GET ;;
  lift (let! payments := mapped data "Payments" mapPayment in
        ok (page_of payments params)).

Definition getPayment (paymentId : string) : M value :=
  data <- request ("/Payments/" ++ paymentId) GET ;;
  lift (first_of data "Payments" mapPayment).

Definition createPayment (payment : value) : M value :=
  xero <- lift (mapPaymentToXero payment) ;;
  data <- request "/Payments" (PUT (wrap "Payments" xero)) ;;
  lift (first_of data "Payments" mapPayment).

Definition deletePayment (paymentId : string) : M value :=
  _ <- request ("/Payments/" ++ paymentId)
         (POST (wrap "Payments" (literal [("Status", VStr "DELETED")]))) ;;
  pure VUndef.

(** *** Bank transactions *)

Definition listBankTransactions (params : value) : M value :=
  let queryString := query_toString (paging params) in
  data <- request ("/BankTransactions" ++ query_suffix queryString) GET ;;
  lift (let! transactions :=
          mapped data "BankTransactions" (mapBankTransaction true) in
        ok (page_of transactions params)).

Definition getBankTransaction (bankTransactionId : string) : M value :=
  data <- request ("/BankTransactions/" ++ bankTransactionId) GET ;;
  lift (first_of data "BankTransactions" (mapBankTransaction true)).

Definition createBankTransaction (transaction : value) : M value :=
  xero <- lift (mapBankTransactionToXero transaction) ;;
  data <- request "/BankTransactions" (POST (wrap "BankTransactions" xero)) ;;
  lift (first_of data "BankTransactions" (mapBankTransaction true)).

Definition updateBankTransaction (bankTransactionId : string)
  (transaction : value) : M value :=
  xeroTransaction <- lift (mapBankTransactionToXero transaction) ;;
  let xeroTransaction :=
    with_property xeroTransaction "BankTransactionID" (VStr bankTransactionId) in
  data <- request ("/BankTransactions/" ++ bankTransactionId)
            (POST (wrap "BankTransactions" xeroTransaction)) ;;
  lift (first_of data "BankTransactions" (mapBankTransaction true)).

(** *** Bank transfers *)

Definition listBankTransfers (params : value) : M value :=
  let queryString := query_toString (paging params) in
  data <- request ("/BankTransfers" ++ query_suffix queryString) GET ;;
  lift (let! transfers := mapped data "BankTransfers" mapBankTransfer in
        ok (page_of transfers params)).

Definition getBankTransfer (bankTransferId : string) : M value :=
  data <- request ("/BankTransfers/" ++ bankTransferId) GET ;;
  lift (first_of data "BankTransfers" mapBankTransfer).

Definition createBankTransfer (transfer : value) : M value :=
  item <- lift (let! fromAccount := read transfer "fromBankAccount" in
                let! toAccount := read transfer "toBankAccount" in
                let! amount := read transfer "amount" in
                let! date := read transfer "date" in
                ok (literal
                      [ ("FromBankAccount",
                         literal [("AccountID", opt_member fromAccount "accountId")]);
                        ("ToBankAccount",
                         literal [("AccountID", opt_member toAccount "accountId")]);
                        ("Amount", amount);
                        ("Date", date) ])) ;;
  data <- request "/BankTransfers" (PUT (wrap "BankTransfers" item)) ;;
  lift (first_of data "BankTransfers" mapBankTransfer).

(** *** Items *)

Definition listItems (params : value) : M value :=
  let queryString := query_toString (set_from params "where" "where" []) in
  data <- request ("/Items" ++ query_suffix queryString) GET ;;
  lift (let! items := mapped data "Items" mapItem in ok (VArr items)).

Definition getItem (itemId : string) : M value :=
  data <- request ("/Items/" ++ itemId) GET ;;
  lift (first_of data "Items" mapItem).

Definition createItem (item : value) : M value :=
  xero <- lift (mapItemToXero item) ;;
  data <- request "/Items" (POST (wrap "Items" xero)) ;;
  lift (first_of data "Items" mapItem).

Definition updateItem (itemId : string) (item : value) : M value :=
  xero <- lift (mapItemToXero item) ;;
  data <- request ("/Items/" ++ itemId) (POST (wrap "Items" xero)) ;;
  lift (first_of data "Items" mapItem).

Definition deleteItem (itemId : string) : M value :=
  _ <- request ("/Items/" ++ itemId) DELETE ;;
  pure VUndef.

(** *** Purchase orders *)

Definition listPurchaseOrders (params : value) : M value :=
  let queryParams := set_from params "status" "Status" (paging params) in
  let queryString := query_toString queryParams in
  data <- request ("/PurchaseOrders" ++ query_suffix queryString) GET ;;
  lift (let! orders := mapped data "PurchaseOrders" (mapPurchaseOrder true) in
        ok (page_of orders params)).

Definition getPurchaseOrder (purchaseOrderId : string) : M value :=
  data <- request ("/PurchaseOrders/" ++ purchaseOrderId) GET ;;
  lift (first_of data "PurchaseOrders" (mapPurchaseOrder true)).

Definition createPurchaseOrder (order : value) : M value :=
  xero <- lift (mapPurchaseOrderToXero order) ;;
  data <- request "/PurchaseOrders" (POST (wrap "PurchaseOrders" xero)) ;;
  lift (first_of data "PurchaseOrders" (mapPurchaseOrder true)).

Definition updatePurchaseOrder (purchaseOrderId : string) (order : value)
  : M value :=
  xero <- lift (mapPurchaseOrderToXero order) ;;
  data <- request ("/PurchaseOrders/" ++ purchaseOrderId)
            (POST (wrap "PurchaseOrders" xero)) ;;
  lift (first_of data "PurchaseOrders" (mapPurchaseOrder true)).

Definition deletePurchaseOrder (purchaseOrderId : string) : M value :=
  _ <- request ("/PurchaseOrders/" ++ purchaseOrderId)
         (POST (wrap "PurchaseOrders" (literal [("Status", VStr "DELETED")]))) ;;
  pure VUndef.

(** *** Quotes *)

Definition listQuotes (params : value) : M value :=
  let queryParams := set_from params "status" "Status" (paging params) in
  let queryString := query_toString queryParams in
  data <- request ("/Quotes" ++ query_suffix queryString) GET ;;
  lift (let! quotes := mapped data "Quotes" (mapQuote true) in
        ok (page_of quotes params)).

Definition getQuote (quoteId : string) : M value :=
  data <- request ("/Quotes/" ++ quoteId) GET ;;
  lift (first_of data "Quotes" (mapQuote true)).

Definition createQuote (quote : value) : M value :=
  xero <- lift (mapQuoteToXero quote) ;;
  data <- request "/Quotes" (POST (wrap "Quotes" xero)) ;;
  lift (first_of data "Quotes" (mapQuote true)).

Definition updateQuote (quoteId : string) (quote : value) : M value :=
  xero <- lift (mapQuoteToXero quote) ;;
  data <- request ("/Quotes/" ++ quoteId) (POST (wrap "Quotes" xero)) ;;
  lift (first_of data "Quotes" (mapQuote true)).

Definition deleteQuote (quoteId : string) : M value :=
  _ <- request ("/Quotes/" ++ quoteId)
         (POST (wrap "Quotes" (literal [("Status", VStr "DELETED")]))) ;;
  pure VUndef.

(** *** Prepayments *)

Definition listPrepayments (params : value) : M value :=
  let queryString := query_toString (paging params) in
  data <- request ("/Prepayments" ++ query_suffix queryString) GET ;;
  lift (let! prepayments := mapped data "Prepayments" (mapPrepayment true) in
        ok (page_of prepayments params)).

Definition getPrepayment (prepaymentId : string) : M value :=
  data <- request ("/Prepayments/" ++ prepaymentId) GET ;;
  lift (first_of data "Prepayments" (mapPrepayment true)).

Definition allocatePrepayment (prepaymentId invoiceId : string)
  (amount : number) (date : value) : M value :=
  data <- request ("/Prepayments/" ++ prepaymentId ++ "/Allocations")
            (PUT (wrap "Allocations" (allocation invoiceId amount date))) ;;
  lift (first_of data "Prepayments" (mapPrepayment true)).

(** *** Overpayments *)

Definition listOverpayments (params : value) : M value :=
  let queryString := query_toString (paging params) in
  data <- request ("/Overpayments" ++ query_suffix queryString) GET ;;
  lift (let! overpayments := mapped data "Overpayments" (mapOverpayment true) in
        ok (page_of overpayments params)).

Definition getOverpayment (overpaymentId : string) : M value :=
  data <- request ("/Overpayments/" ++ overpaymentId) GET ;;
  lift (first_of data "Overpayments" (mapOverpayment true)).

Definition allocateOverpayment (overpaymentId invoiceId : string)
  (amount : number) (date : value) : M value :=
  data <- request ("/Overpayments/" ++ overpaymentId ++ "/Allocations")
            (PUT (wrap "Allocations" (allocation invoiceId amount date))) ;;
  lift (first_of data "Overpayments" (mapOverpayment true)).

(** *** Journals (read-only) *)

Definition listJournals (params : value) : M value :=
  let queryParams :=
    set_from params "order" "order"
      (set_from params "where" "where"
         (set_from params "offset" "offset" [])) in
  let queryString := query_toString queryParams in
  data <- request ("/Journals" ++ query_suffix queryString) GET ;;
  lift (let! journals := mapped data "Journals" mapJournal in
        ok (VArr journals)).

Definition getJournal (journalId : string) : M value :=
  data <- request ("/Journals/" ++ journalId) GET ;;
  lift (first_of data "Journals" mapJournal).

(** *** Manual journals *)

Definition listManualJournals (params : value) : M value :=
  let queryString := query_toString (paging params) in
  data <- request ("/ManualJournals" ++ query_suffix queryString) GET ;;
  lift (let! journals := mapped data "ManualJournals" mapManualJournal in
        ok (page_of journals params)).

Definition getManualJournal (manualJournalId : string) : M value :=
  data <- request ("/ManualJournals/" ++ manualJournalId) GET ;;
  lift (first_of data "ManualJournals" mapManualJournal).

Definition createManualJournal (journal : value) : M value :=
  xero <- lift (mapManualJournalToXero journal) ;;
  data <- request "/ManualJournals" (POST (wrap "ManualJournals" xero)) ;;
  lift (first_of data "ManualJournals" mapManualJournal).

Definition updateManualJournal (manualJournalId : string) (journal : value)
  : M value :=
  xero <- lift (mapManualJournalToXero journal) ;;
  data <- request ("/ManualJournals/" ++ manualJournalId)
            (POST (wrap "ManualJournals" xero)) ;;
  lift (first_of data "ManualJournals" mapManualJournal).

(** *** Batch payments *)

Definition listBatchPayments (params : value) : M value :=
  let queryString := query_toString (paging params) in
  data <- request ("/BatchPayments" ++ query_suffix queryString) GET ;;
  lift (let! batchPayments := mapped data "BatchPayments" mapBatchPayment in
        ok (page_of batchPayments params)).

Definition getBatchPayment (batchPaymentId : string) : M value :=
  data <- request ("/BatchPayments/" ++ batchPaymentId) GET ;;
  lift (first_of data "BatchPayments" mapBatchPayment).

Definition createBatchPayment (payment : value) : M value :=
  xero <- lift (mapBatchPaymentToXero payment) ;;
  data <- request "/BatchPayments" (PUT (wrap "BatchPayments" xero)) ;;
  lift (first_of data "BatchPayments" mapBatchPayment).

Definition deleteBatchPayment (batchPaymentId : string) : M value :=
  _ <- request ("/BatchPayments/" ++ batchPaymentId)
         (POST (wrap "BatchPayments" (literal [("Status", VStr "DELETED")]))) ;;
  pure VUndef.

(** *** Tax rates *)

Definition listTaxRates : M value :=
  data <- request "/TaxRates" GET ;;
  lift (let! rates := mapped data "TaxRates" mapTaxRate in ok (VArr rates)).

Definition getTaxRate (taxType : string) : M value :=
  data <- request ("/TaxRates?where=TaxType==" ++ dquote ++ taxType ++ dquote)
            GET ;;
  lift (first_of data "TaxRates" mapTaxRate).

Definition createTaxRate (taxRate : value) : M value :=
  xero <- lift (mapTaxRateToXero taxRate) ;;
  data <- request "/TaxRates" (POST (wrap "TaxRates" xero)) ;;
  lift (first_of data "TaxRates" mapTaxRate).

Definition updateTaxRate (taxRate : value) : M value :=
  xero <- lift (mapTaxRateToXero taxRate) ;;
  data <- request "/TaxRates" (POST (wrap "TaxRates" xero)) ;;
  lift (first_of data "TaxRates" mapTaxRate).

(** *** Currencies *)

Definition listCurrencies : M value :=
  data <- request "/Currencies" GET ;;
  lift (let! currencies := mapped data "Currencies" mapCurrency in
        ok (VArr currencies)).

Definition createCurrency (code : string) (description : value) : M value :=
  data <- request "/Currencies"
            (PUT (literal [("Code", VStr code); ("Description", description)])) ;;
  lift (first_of data "Currencies" mapCurrency).

(** *** Tracking categories *)

Definition listTrackingCategories : M value :=
  data <- request "/TrackingCategories" GET ;;
  lift (let! categories := mapped data "TrackingCategories" mapTrackingCategory in
        ok (VArr categories)).

Definition getTrackingCategory (trackingCategoryId : string) : M value :=
  data <- request ("/TrackingCategories/" ++ trackingCategoryId) GET ;;
  lift (first_of data "TrackingCategories" mapTrackingCategory).

Definition createTrackingCategory (name : string) : M value :=
  data <- request "/TrackingCategories" (PUT (literal [("Name", VStr name)])) ;;
  lift (first_of data "TrackingCategories" mapTrackingCategory).

Definition updateTrackingCategory (trackingCategoryId name : string)
  : M value :=
  data <- request ("/TrackingCategories/" ++ trackingCategoryId)
            (POST (literal [("Name", VStr name)])) ;;
  lift (first_of data "TrackingCategories" mapTrackingCategory).

Definition deleteTrackingCategory (trackingCategoryId : string) : M value :=
  _ <- request ("/TrackingCategories/" ++ trackingCategoryId) DELETE ;;
  pure VUndef.

Definition createTrackingOption (trackingCategoryId name : string)
  : M value :=
  data <- request ("/TrackingCategories/" ++ trackingCategoryId ++ "/Options")
            (PUT (literal [("Name", VStr name)])) ;;
  lift (first_of data "TrackingCategories" mapTrackingCategory).

Definition updateTrackingOption
  (trackingCategoryId trackingOptionId name : string) : M value :=
  data <- request ("/TrackingCategories/" ++ trackingCategoryId
                   ++ "/Options/" ++ trackingOptionId)
            (POST (literal [("Name", VStr name)])) ;;
  lift (first_of data "TrackingCategories" mapTrackingCategory).

Definition deleteTrackingOption (trackingCategoryId trackingOptionId : string)
  : M value :=
  _ <- request ("/TrackingCategories/" ++ trackingCategoryId
                ++ "/Options/" ++ trackingOptionId) DELETE ;;
  pure VUndef.

(** *** Branding themes *)

Definition listBrandingThemes : M value :=
  data <- request "/BrandingThemes" GET ;;
  lift (let! themes := mapped data "BrandingThemes" mapBrandingTheme in
        ok (VArr themes)).

Definition getBrandingTheme (brandingThemeId : string) : M value :=
  data <- request ("/BrandingThemes/" ++ brandingThemeId) GET ;;
  lift (first_of data "BrandingThemes" mapBrandingTheme).

(** *** Repeating invoices *)

Definition listRepeatingInvoices : M value :=
  data <- request "/RepeatingInvoices" GET ;;
  lift (let! invoices :=
          mapped data "RepeatingInvoices" (mapRepeatingInvoice true) in
        ok (VArr invoices)).

Definition getRepeatingInvoice (repeatingInvoiceId : string) : M value :=
  data <- request ("/RepeatingInvoices/" ++ repeatingInvoiceId) GET ;;
  lift (first_of data "RepeatingInvoices" (mapRepeatingInvoice true)).

Definition createRepeatingInvoice (invoice : value) : M value :=
  xero <- lift (mapRepeatingInvoiceToXero invoice) ;;
  data <- request "/RepeatingInvoices" (POST (wrap "RepeatingInvoices" xero)) ;;
  lift (first_of data "RepeatingInvoices" (mapRepeatingInvoice true)).

Definition updateRepeatingInvoice (repeatingInvoiceId : string)
  (invoice : value) : M value :=
  xero <- lift (mapRepeatingInvoiceToXero invoice) ;;
  data <- request ("/RepeatingInvoices/" ++ repeatingInvoiceId)
            (POST (wrap "RepeatingInvoices" xero)) ;;
  lift (first_of data "RepeatingInvoices" (mapRepeatingInvoice true)).

Definition deleteRepeatingInvoice (repeatingInvoiceId : string) : M value :=
  _ <- request ("/RepeatingInvoices/" ++ repeatingInvoiceId)
         (POST (wrap "RepeatingInvoices"
                  (literal [("Status", VStr "DELETED")]))) ;;
  pure VUndef.

(** *** Users *)

Definition listUsers : M value :=
  data <- request "/Users" GET ;;
  lift (let! users := mapped data "Users" mapUser in ok (VArr users)).

Definition getUser (userId : string) : M value :=
  data <- request ("/Users/" ++ userId) GET ;;
  lift (first_of data "Users" mapUser).

(** *** Linked transactions *)

Definition listLinkedTransactions (params : value) : M value :=
  let queryParams :=
    set_from params "contactId" "ContactID"
      (set_from params "sourceTransactionId" "SourceTransactionID"
         (set_from params "where" "where"
            (set_from params "page" "page" []))) in
  let queryString := query_toString queryParams in
  data <- request ("/LinkedTransactions" ++ query_suffix queryString) GET ;;
  lift (let! transactions :=
          mapped data "LinkedTransactions" mapLinkedTransaction in
        ok (page_of transactions params)).

Definition getLinkedTransaction (linkedTransactionId : string) : M value :=
  data <- request ("/LinkedTransactions/" ++ linkedTransactionId) GET ;;
  lift (first_of data "LinkedTransactions" mapLinkedTransaction).

(** The object literals that [createLinkedTransaction] and
    [updateLinkedTransaction] send, unwrapped. *)
Definition linked_transaction_create : list part :=
  [ Plain "SourceTransactionID" "sourceTransactionId";
    Plain "SourceLineItemID" "sourceLineItemId";
    Plain "ContactID" "contactId" ].

Definition linked_transaction_update : list part :=
  [ Plain "SourceTransactionID" "sourceTransactionId";
    Plain "SourceLineItemID" "sourceLineItemId";
    Plain "ContactID" "contactId";
    Plain "TargetTransactionID" "targetTransactionId";
    Plain "TargetLineItemID" "targetLineItemId" ].

Definition createLinkedTransaction (transaction : value) : M value :=
  link <- lift (build linked_transaction_create transaction) ;;
  data <- request "/LinkedTransactions" (POST link) ;;
  lift (first_of data "LinkedTransactions" mapLinkedTransaction).

Definition updateLinkedTransaction (linkedTransactionId : string)
  (transaction : value) : M value :=
  link <- lift (build linked_transaction_update transaction) ;;
  data <- request ("/LinkedTransactions/" ++ linkedTransactionId) (POST link) ;;
  lift (first_of data "LinkedTransactions" mapLinkedTransaction).

Definition deleteLinkedTransaction (linkedTransactionId : string) : M value :=
  _ <- request ("/LinkedTransactions/" ++ linkedTransactionId) DELETE ;;
  pure VUndef.

(** *** Reports *)

(** A [Record<string, string>]: property assignment, and the pairs
    [new URLSearchParams(record)] starts from. *)
Fixpoint record_set (k v : string) (r : query) : query :=
  match r with
  | [] => [(k, v)]
  | (k', v') :: t =>
      if k =? k' then (k, v) :: t else (k', v') :: record_set k v t
  end.

(** [if (params?.name) queryParams.key = params.name] *)
Definition record_from (params : value) (name key : string) (r : query)
  : query :=
  let v := opt_member params name in
  if truthy v then record_set key (to_string env v) r else r.

(** [if (params?.name !== undefined) queryParams.key = String(params.name)] *)
Definition record_from_defined (params : value) (name key : string)
  (r : query) : query :=
  let v := opt_member params name in
  if defined v then record_set key (to_string env v) r else r.

Definition getReport (reportName : string) (params : option query)
  : M value :=
  let queryParams := match params with Some r => r | None => [] end in
  let queryString := query_toString queryParams in
  data <- request ("/Reports/" ++ reportName ++ query_suffix queryString) GET ;;
  lift (first_of data "Reports" mapReport).

Definition getBalanceSheet (params : value) : M value :=
  let q := record_from params "date" "date" [] in
  let q := record_from params "periods" "periods" q in
  let q := record_from params "timeframe" "timeframe" q in
  let q := record_from params "trackingOptionId1" "trackingOptionID1" q in
  let q := record_from params "trackingOptionId2" "trackingOptionID2" q in
  let q := record_from_defined params "standardLayout" "standardLayout" q in
  let q := record_from_defined params "paymentsOnly" "paymentsOnly" q in
  getReport "BalanceSheet" (Some q).

Definition getProfitAndLoss (params : value) : M value :=
  let q := record_from params "fromDate" "fromDate" [] in
  let q := record_from params "toDate" "toDate" q in
  let q := record_from params "periods" "periods" q in
  let q := record_from params "timeframe" "timeframe" q in
  let q := record_from params "trackingCategoryId" "trackingCategoryID" q in
  let q := record_from params "trackingOptionId" "trackingOptionID" q in
  let q := record_from params "trackingCategoryId2" "trackingCategoryID2" q in
  let q := record_from params "trackingOptionId2" "trackingOptionID2" q in
  let q := record_from_defined params "standardLayout" "standardLayout" q in
  let q := record_from_defined params "paymentsOnly" "paymentsOnly" q in
  getReport "ProfitAndLoss" (Some q).

Definition getTrialBalance (params : value) : M value :=
  let q := record_from params "date" "date" [] in
  let q := record_from_defined params "paymentsOnly" "paymentsOnly" q in
  getReport "TrialBalance" (Some q).

Definition getBankSummary (params : value) : M value :=
  let q := record_from params "fromDate" "fromDate" [] in
  let q := record_from params "toDate" "toDate" q in
  getReport "BankSummary" (Some q).

(** [{ contactID: params.contactId }], then the optional dates *)
Definition aged_query (params : value) : result query :=
  let! contactId := read params "contactId" in
  let q := [("contactID", to_string env contactId)] in
  let q := record_from params "date" "date" q in
  let q := record_from params "fromDate" "fromDate" q in
  let q := record_from params "toDate" "toDate" q in
  ok q.

Definition getAgedReceivablesByContact (params : value) : M value :=
  q <- lift (aged_query params) ;;
  getReport "AgedReceivablesByContact" (Some q).

Definition getAgedPayablesByContact (params : value) : M value :=
  q <- lift (aged_query params) ;;
  getReport "AgedPayablesByContact" (Some q).

Definition getBudgetSummary (params : value) : M value :=
  let q := record_from params "date" "date" [] in
  let q := record_from params "periods" "periods" q in
  let q := record_from params "timeframe" "timeframe" q in
  getReport "BudgetSummary" (Some q).

Definition getExecutiveSummary (params : value) : M value :=
  let q := record_from params "date" "date" [] in
  getReport "ExecutiveSummary" (Some q).

End WithClient.

(** *** The interface [XeroClient]: one constructor per method *)

Inductive call :=
| TestConnection
| GetOrganisation
| ListContacts (params : value)
| GetContact (contactId : string)
| CreateContact (contact : value)
| UpdateContact (contactId : string) (contact : value)
| ArchiveContact (contactId : string)
| ListContactGroups
| GetContactGroup (contactGroupId : string)
| CreateContactGroup (name : string)
| UpdateContactGroup (contactGroupId name : string)
| DeleteContactGroup (contactGroupId : string)
| AddContactsToGroup (contactGroupId : string) (contactIds : list string)
| RemoveContactsFromGroup (contactGroupId contactId : string)
| ListAccounts (params : value)
| GetAccount (accountId : string)
| CreateAccount (account : value)
| UpdateAccount (accountId : string) (account : value)
| ArchiveAccount (accountId : string)
| DeleteAccount (accountId : string)
| ListInvoices (params : value)
| GetInvoice (invoiceId : string)
| CreateInvoice (invoice : value)
| UpdateInvoice (invoiceId : string) (invoice : value)
| VoidInvoice (invoiceId : string)
| DeleteInvoice (invoiceId : string)
| ListCreditNotes (params : value)
| GetCreditNote (creditNoteId : string)
| CreateCreditNote (creditNote : value)
| UpdateCreditNote (creditNoteId : string) (creditNote : value)
| AllocateCreditNote (creditNoteId invoiceId : string) (amount : number)
    (date : value)
| VoidCreditNote (creditNoteId : string)
| ListPayments (params : value)
| GetPayment (paymentId : string)
| CreatePayment (payment : value)
| DeletePayment (paymentId : string)
| ListBankTransactions (params : value)
| GetBankTransaction (bankTransactionId : string)
| CreateBankTransaction (transaction : value)
| UpdateBankTransaction (bankTransactionId : string) (transaction : value)
| ListBankTransfers (params : value)
| GetBankTransfer (bankTransferId : string)
| CreateBankTransfer (transfer : value)
| ListItems (params : value)
| GetItem (itemId : string)
| CreateItem (item : value)
| UpdateItem (itemId : string) (item : value)
| DeleteItem (itemId : string)
| ListPurchaseOrders (params : value)
| GetPurchaseOrder (purchaseOrderId : string)
| CreatePurchaseOrder (order : value)
| UpdatePurchaseOrder (purchaseOrderId : string) (order : value)
| DeletePurchaseOrder (purchaseOrderId : string)
| ListQuotes (params : value)
| GetQuote (quoteId : string)
| CreateQuote (quote : value)
| UpdateQuote (quoteId : string) (quote : value)
| DeleteQuote (quoteId : string)
| ListPrepayments (params : value)
| GetPrepayment (prepaymentId : string)
| AllocatePrepayment (prepaymentId invoiceId : string) (amount : number)
    (date : value)
| ListOverpayments (params : value)
| GetOverpayment (overpaymentId : string)
| AllocateOverpayment (overpaymentId invoiceId : string) (amount : number)
    (date : value)
| ListJournals (params : value)
| GetJournal (journalId : string)
| ListManualJournals (params : value)
| GetManualJournal (manualJournalId : string)
| CreateManualJournal (journal : value)
| UpdateManualJournal (manualJournalId : string) (journal : value)
| ListBatchPayments (params : value)
| GetBatchPayment (batchPaymentId : string)
| CreateBatchPayment (payment : value)
| DeleteBatchPayment (batchPaymentId : string)
| ListTaxRates
| GetTaxRate (taxType : string)
| CreateTaxRate (taxRate : value)
| UpdateTaxRate (taxRate : value)
| ListCurrencies
| CreateCurrency (code : string) (description : value)
| ListTrackingCategories
| GetTrackingCategory (trackingCategoryId : string)
| CreateTrackingCategory (name : string)
| UpdateTrackingCategory (trackingCategoryId name : string)
| DeleteTrackingCategory (trackingCategoryId : string)
| CreateTrackingOption (trackingCategoryId name : string)
| UpdateTrackingOption (trackingCategoryId trackingOptionId name : string)
| DeleteTrackingOption (trackingCategoryId trackingOptionId : string)
| ListBrandingThemes
| GetBrandingTheme (brandingThemeId : string)
| ListRepeatingInvoices
| GetRepeatingInvoice (repeatingInvoiceId : string)
| CreateRepeatingInvoice (invoice : value)
| UpdateRepeatingInvoice (repeatingInvoiceId : string) (invoice : value)
| DeleteRepeatingInvoice (repeatingInvoiceId : string)
| ListUsers
| GetUser (userId : string)
| ListLinkedTransactions (params : value)
| GetLinkedTransaction (linkedTransactionId : string)
| CreateLinkedTransaction (transaction : value)
| UpdateLinkedTransaction (linkedTransactionId : string) (transaction : value)
| DeleteLinkedTransaction (linkedTransactionId : string)
| GetReport (reportName : string) (params : option query)
| GetBalanceSheet (params : value)
| GetProfitAndLoss (params : value)
| GetTrialBalance (params : value)
| GetBankSummary (params : value)
| GetAgedReceivablesByContact (params : value)
| GetAgedPayablesByContact (params : value)
| GetBudgetSummary (params : value)
| GetExecutiveSummary (params : value).

(** [createXeroClient(credentials)] followed by one method call. *)
Definition run (env : Runtime) (credentials : TenantCredentials) (c : call)
  : M value :=
  match c with
  | TestConnection => testConnection env credentials
  | GetOrganisation => getOrganisation env credentials
  | ListContacts p => listContacts env credentials p
  | GetContact i => getContact env credentials i
  | CreateContact x => createContact env credentials x
  | UpdateContact i x => updateContact env credentials i x
  | ArchiveContact i => archiveContact env credentials i
  | ListContactGroups => listContactGroups env credentials
  | GetContactGroup i => getContactGroup env credentials i
  | CreateContactGroup n => createContactGroup env credentials n
  | UpdateContactGroup i n => updateContactGroup env credentials i n
  | DeleteContactGroup i => deleteContactGroup env credentials i
  | AddContactsToGroup i l => addContactsToGroup env credentials i l
  | RemoveContactsFromGroup i j => removeContactsFromGroup env credentials i j
  | ListAccounts p => listAccounts env credentials p
  | GetAccount i => getAccount env credentials i
  | CreateAccount x => createAccount env credentials x
  | UpdateAccount i x => updateAccount env credentials i x
  | ArchiveAccount i => archiveAccount env credentials i
  | DeleteAccount i => deleteAccount env credentials i
  | ListInvoices p => listInvoices env credentials p
  | GetInvoice i => getInvoice env credentials i
  | CreateInvoice x => createInvoice env credentials x
  | UpdateInvoice i x => updateInvoice env credentials i x
  | VoidInvoice i => voidInvoice env credentials i
  | DeleteInvoice i => deleteInvoice env credentials i
  | ListCreditNotes p => listCreditNotes env credentials p
  | GetCreditNote i => getCreditNote env credentials i
  | CreateCreditNote x => createCreditNote env credentials x
  | UpdateCreditNote i x => updateCreditNote env credentials i x
  | AllocateCreditNote i j a d => allocateCreditNote env credentials i j a d
  | VoidCreditNote i => voidCreditNote env credentials i
  | ListPayments p => listPayments env credentials p
  | GetPayment i => getPayment env credentials i
  | CreatePayment x => createPayment env credentials x
  | DeletePayment i => deletePayment env credentials i
  | ListBankTransactions p => listBankTransactions env credentials p
  | GetBankTransaction i => getBankTransaction env credentials i
  | CreateBankTransaction x => createBankTransaction env credentials x
  | UpdateBankTransaction i x => updateBankTransaction env credentials i x
  | ListBankTransfers p => listBankTransfers env credentials p
  | GetBankTransfer i => getBankTransfer env credentials i
  | CreateBankTransfer x => createBankTransfer env credentials x
  | ListItems p => listItems env credentials p
  | GetItem i => getItem env credentials i
  | CreateItem x => createItem env credentials x
  | UpdateItem i x => updateItem env credentials i x
  | DeleteItem i => deleteItem env credentials i
  | ListPurchaseOrders p => listPurchaseOrders env credentials p
  | GetPurchaseOrder i => getPurchaseOrder env credentials i
  | CreatePurchaseOrder x => createPurchaseOrder env credentials x
  | UpdatePurchaseOrder i x => updatePurchaseOrder env credentials i x
  | DeletePurchaseOrder i => deletePurchaseOrder env credentials i
  | ListQuotes p => listQuotes env credentials p
  | GetQuote i => getQuote env credentials i
  | CreateQuote x => createQuote env credentials x
  | UpdateQuote i x => updateQuote env credentials i x
  | DeleteQuote i => deleteQuote env credentials i
  | ListPrepayments p => listPrepayments env credentials p
  | GetPrepayment i => getPrepayment env credentials i
  | AllocatePrepayment i j a d => allocatePrepayment env credentials i j a d
  | ListOverpayments p => listOverpayments env credentials p
  | GetOverpayment i => getOverpayment env credentials i
  | AllocateOverpayment i j a d => allocateOverpayment env credentials i j a d
  | ListJournals p => listJournals env credentials p
  | GetJournal i => getJournal env credentials i
  | ListManualJournals p => listManualJournals env credentials p
  | GetManualJournal i => getManualJournal env credentials i
  | CreateManualJournal x => createManualJournal env credentials x
  | UpdateManualJournal i x => updateManualJournal env credentials i x
  | ListBatchPayments p => listBatchPayments env credentials p
  | GetBatchPayment i => getBatchPayment env credentials i
  | CreateBatchPayment x => createBatchPayment env credentials x
  | DeleteBatchPayment i => deleteBatchPayment env credentials i
  | ListTaxRates => listTaxRates env credentials
  | GetTaxRate t => getTaxRate env credentials t
  | CreateTaxRate x => createTaxRate env credentials x
  | UpdateTaxRate x => updateTaxRate env credentials x
  | ListCurrencies => listCurrencies env credentials
  | CreateCurrency c d => createCurrency env credentials c d
  | ListTrackingCategories => listTrackingCategories env credentials
  | GetTrackingCategory i => getTrackingCategory env credentials i
  | CreateTrackingCategory n => createTrackingCategory env credentials n
  | UpdateTrackingCategory i n => updateTrackingCategory env credentials i n
  | DeleteTrackingCategory i => deleteTrackingCategory env credentials i
  | CreateTrackingOption i n => createTrackingOption env credentials i n
  | UpdateTrackingOption i j n => updateTrackingOption env credentials i j n
  | DeleteTrackingOption i j => deleteTrackingOption env credentials i j
  | ListBrandingThemes => listBrandingThemes env credentials
  | GetBrandingTheme i => getBrandingTheme env credentials i
  | ListRepeatingInvoices => listRepeatingInvoices env credentials
  | GetRepeatingInvoice i => getRepeatingInvoice env credentials i
  | CreateRepeatingInvoice x => createRepeatingInvoice env credentials x
  | UpdateRepeatingInvoice i x => updateRepeatingInvoice env credentials i x
  | DeleteRepeatingInvoice i => deleteRepeatingInvoice env credentials i
  | ListUsers => listUsers env credentials
  | GetUser i => getUser env credentials i
  | ListLinkedTransactions p => listLinkedTransactions env credentials p
  | GetLinkedTransaction i => getLinkedTransaction env credentials i
  | CreateLinkedTransaction x => createLinkedTransaction env credentials x
  | UpdateLinkedTransaction i x => updateLinkedTransaction env credentials i x
  | DeleteLinkedTransaction i => deleteLinkedTransaction env credentials i
  | GetReport n p => getReport env credentials n p
  | GetBalanceSheet p => getBalanceSheet env credentials p
  | GetProfitAndLoss p => getProfitAndLoss env credentials p
  | GetTrialBalance p => getTrialBalance env credentials p
  | GetBankSummary p => getBankSummary env credentials p
  | GetAgedReceivablesByContact p => getAgedReceivablesByContact env credentials p
  | GetAgedPayablesByContact p => getAgedPayablesByContact env credentials p
  | GetBudgetSummary p => getBudgetSummary env credentials p
  | GetExecutiveSummary p => getExecutiveSummary env credentials p
  end.

End Client.

(* ===================================================================== *)
(** ** How the properties are read on the client *)
(* ===================================================================== *)

Module Reading.
Import Js Mapper Entities Text Platform Env Client.

(** The arguments of a call let it reach the network: under some engine
    and credentials it issues a request. (A call whose arguments are
    ill-shaped, a [lineItems] that is no array for instance, throws while
    its request is being built.) *)
Definition accepts (c : call) : Prop :=
  exists env creds log, snd (run env creds c log) <> log.

(** A method that issues one request and then decodes the answer. *)
Definition single_request (env : Runtime) (creds : TenantCredentials)
  (m : M value) : Prop :=
  exists endpoint options post,
    forall log,
      m log = bind (request env creds endpoint options)
                   (fun data => lift (post data)) log.

(** A call that throws while its request is being built. *)
Definition rejected (c : call) : Prop :=
  exists e, forall env creds log, run env creds c log = (inl e, log).

(** A credential set whose access token or tenant identifier is empty or
    absent, and the message of the failure it causes. *)
Definition missing (creds : TenantCredentials) : Prop :=
  blank (accessToken creds) = true \/ blank (tenantId creds) = true.

Definition missing_message (creds : TenantCredentials) : string :=
  if blank (accessToken creds)
  then "No access token provided. Include X-Xero-Access-Token header."
  else "No tenant ID provided. Include X-Xero-Tenant-Id header.".

(** The request helper fails with [e], or answers [data], whatever it is
    asked. *)
Definition transport_fails (env : Runtime) (creds : TenantCredentials)
  (e : error) : Prop :=
  forall endpoint options log,
    fst (request env creds endpoint options log) = inl e.


(** What [testConnection] reports. *)
Definition connected (env : Runtime) (org : value) : value :=
  literal
    [ ("connected", VBool true);
      ("message",
       VStr ("Connected to " ++
             to_string env (or_else (opt_member org "name") (VStr "Xero")))) ].

Definition not_connected (env : Runtime) (e : error) : value :=
  literal [ ("connected", VBool false); ("message", VStr (message_of env e)) ].

(** The singular "get" methods, each with the key of the response
    envelope it reads and the mapper it applies. *)
Definition singular (c : call) : option (string * (value -> result value)) :=
  match c with
  | GetOrganisation => Some ("Organisations", mapOrganisation)
  | GetContact _ => Some ("Contacts", mapContact)
  | GetContactGroup _ => Some ("ContactGroups", mapContactGroup true)
  | GetAccount _ => Some ("Accounts", mapAccount)
  | GetInvoice _ => Some ("Invoices", mapInvoice true)
  | GetCreditNote _ => Some ("CreditNotes", mapCreditNote true)
  | GetPayment _ => Some ("Payments", mapPayment)
  | GetBankTransaction _ => Some ("BankTransactions", mapBankTransaction true)
  | GetBankTransfer _ => Some ("BankTransfers", mapBankTransfer)
  | GetItem _ => Some ("Items", mapItem)
  | GetPurchaseOrder _ => Some ("PurchaseOrders", mapPurchaseOrder true)
  | GetQuote _ => Some ("Quotes", mapQuote true)
  | GetPrepayment _ => Some ("Prepayments", mapPrepayment true)
  | GetOverpayment _ => Some ("Overpayments", mapOverpayment true)
  | GetJournal _ => Some ("Journals", mapJournal)
  | GetManualJournal _ => Some ("ManualJournals", mapManualJournal)
  | GetBatchPayment _ => Some ("BatchPayments", mapBatchPayment)
  | GetTaxRate _ => Some ("TaxRates", mapTaxRate)
  | GetTrackingCategory _ => Some ("TrackingCategories", mapTrackingCategory)
  | GetBrandingTheme _ => Some ("BrandingThemes", mapBrandingTheme)
  | GetRepeatingInvoice _ =>
      Some ("RepeatingInvoices", mapRepeatingInvoice true)
  | GetUser _ => Some ("Users", mapUser)
  | GetLinkedTransaction _ => Some ("LinkedTransactions", mapLinkedTransaction)
  | GetReport _ _ | GetBalanceSheet _ | GetProfitAndLoss _ | GetTrialBalance _
  | GetBankSummary _ | GetAgedReceivablesByContact _
  | GetAgedPayablesByContact _ | GetBudgetSummary _ | GetExecutiveSummary _ =>
      Some ("Reports", mapReport)
  | _ => None
  end.

(** The paginated list methods (those returning a [PaginatedResponse]),
    each with its [params]. *)
Definition paginated (c : call) : option value :=
  match c with
  | ListContacts p | ListInvoices p | ListCreditNotes p | ListPayments p
  | ListBankTransactions p | ListBankTransfers p | ListPurchaseOrders p
  | ListQuotes p | ListPrepayments p | ListOverpayments p
  | ListManualJournals p | ListBatchPayments p | ListLinkedTransactions p =>
      Some p
  | _ => None
  end.

(** The update methods that take a partial entity: the entity, the table
    that turns it into a wire record, the identity property the method
    adds from its own identifier argument, and the envelope key the
    record is sent under. *)
Record update := {
  entity : value;
  table : list rule + list part;
  identity : option string;
  envelope : option string;
}.

Definition updating (c : call) : option update :=
  match c with
  | UpdateContact _ x =>
      Some {| entity := x; table := inl contact_rules;
              identity := None; envelope := Some "Contacts" |}
  | UpdateAccount _ x =>
      Some {| entity := x; table := inl account_rules;
              identity := None; envelope := None |}
  | UpdateInvoice _ x =>
      Some {| entity := x; table := inl invoice_rules;
              identity := Some "InvoiceID"; envelope := Some "Invoices" |}
  | UpdateCreditNote _ x =>
      Some {| entity := x; table := inl credit_note_rules;
              identity := None; envelope := Some "CreditNotes" |}
  | UpdateBankTransaction _ x =>
      Some {| entity := x; table := inl bank_transaction_rules;
              identity := Some "BankTransactionID";
              envelope := Some "BankTransactions" |}
  | UpdateItem _ x =>
      Some {| entity := x; table := inl item_rules;
              identity := None; envelope := Some "Items" |}
  | UpdatePurchaseOrder _ x =>
      Some {| entity := x; table := inl purchase_order_rules;
              identity := None; envelope := Some "PurchaseOrders" |}
  | UpdateQuote _ x =>
      Some {| entity := x; table := inl quote_rules;
              identity := None; envelope := Some "Quotes" |}
  | UpdateManualJournal _ x =>
      Some {| entity := x; table := inl manual_journal_rules;
              identity := None; envelope := Some "ManualJournals" |}
  | UpdateTaxRate x =>
      Some {| entity := x; table := inl tax_rate_rules;
              identity := None; envelope := Some "TaxRates" |}
  | UpdateRepeatingInvoice _ x =>
      Some {| entity := x; table := inl repeating_invoice_rules;
              identity := None; envelope := Some "RepeatingInvoices" |}
  | UpdateLinkedTransaction _ x =>
      Some {| entity := x; table := inr linked_transaction_update;
              identity := None; envelope := None |}
  | _ => None
  end.

(** What one statement of a [map...ToXero] method adds to [result]:
    nothing, or its one property. *)
Definition emitted (src : value) (r : rule) : result props :=
  and_then (read src (field r)) (fun v =>
    if passes (when r) v
    then and_then (payload_value r v) (fun w => ok [(key r, w)])
    else ok []).

(** What one statement adds for the value [v] of its field. *)
Definition emits (r : rule) (v : value) : result props :=
  if passes (when r) v
  then and_then (payload_value r v) (fun w => ok [(key r, w)])
  else ok [].

(** Wire key and domain field of each row of a table. *)
Definition provenance (t : list rule + list part) : list (string * string) :=
  match t with
  | inl rules => map (fun r => (key r, field r)) rules
  | inr parts => map (fun p => (part_name p, part_source p)) parts
  end.

(** The wire record inside a transmitted document. *)
Definition record_in (envelope : option string) (doc : value) : option props :=
  match envelope, doc with
  | None, VObj o => Some o
  | Some k, VObj [(k', VArr [VObj o])] => if k =? k' then Some o else None
  | _, _ => None
  end.

(** A nested object of the payload holds only properties whose source
    the caller supplied. *)
Definition supplied_only (parts : list part) (x y : value) : Prop :=
  exists o, y = VObj o /\
    forall k, In k (keys o) ->
      exists p, In p parts /\ part_name p = k /\
                defined (member x (part_source p)) = true.

(** What [JSON.stringify] writes of the properties of an object. *)
Definition written (o : props) : props :=
  flat_map (fun kv => match snd kv with
                      | VUndef => []
                      | x => [(fst kv, stringify x)]
                      end) o.

(** What a rule may leave under its key in the payload, for a field
    whose value is [v]: the value itself, or nested objects that hold
    only what the caller supplied. *)
Definition faithful (r : rule) (v y : value) : Prop :=
  match what r with
  | Copy => y = stringify v
  | Ref idKey idField => supplied_only [Plain idKey idField] v y
  | Obj parts => supplied_only parts v y
  | Each parts =>
      exists xs ys,
        v = VArr xs /\ y = VArr ys /\ Forall2 (supplied_only parts) xs ys
  end.

(** The requests a call issues. *)
Definition sent (env : Runtime) (creds : TenantCredentials) (c : call)
  (log : list Request) : list Request :=
  skipn (length log) (snd (run env creds c log)).

(** *** Error bodies *)



(** *** Round trips *)

Definition find_reader (f : string) (rs : list reader) : option reader :=
  find (fun r => reader_field r =? f) rs.

Fixpoint distinct (l : list string) : bool :=
  match l with
  | [] => true
  | x :: r => negb (existsb (String.eqb x) r) && distinct r
  end.

Definition plain (p : part) : bool :=
  match p with
  | Plain _ _ => true
  | Linked _ _ _ _ => false
  end.

(** Every property [K: x.f] of a literal is read back by a pair
    [(f, K)]. *)
Definition read_back (parts : list part) (back : list (string * string))
  : bool :=
  forallb plain parts &&
  distinct (map part_name parts) &&
  distinct (map fst back) &&
  forallb (fun p =>
             existsb (fun b => (fst b =? part_source p)
                               && (snd b =? part_name p)) back) parts.

(** A rule of [toWire] and the reader of [fromWire] for the same field
    agree: same wire key, and a shape the reader reads back. *)
Definition agrees (rs : list reader) (r : rule) : bool :=
  match find_reader (field r) rs with
  | None => true
  | Some (Get _ k) =>
      (k =? key r) && match what r with Copy => true | _ => false end
  | Some (Expand _ k back) | Some (ExpandIf _ k back) =>
      (k =? key r)
      && match when r with IfTruthy => true | IfDefined => false end
      && match what r with
         | Ref idKey idField =>
             distinct (map fst back)
             && existsb (fun b => (fst b =? idField) && (snd b =? idKey)) back
         | Obj parts => read_back parts back
         | _ => false
         end
  | Some (Items _ k _ back) =>
      (k =? key r)
      && match when r with IfTruthy => true | IfDefined => false end
      && match what r with
         | Each parts => read_back parts back
         | _ => false
         end
  end.

(** A field guarded by [!== undefined] is copied as it is. *)
Definition copied_when_defined (r : rule) : bool :=
  match when r, what r with
  | IfDefined, Copy => true
  | IfDefined, _ => false
  | IfTruthy, _ => true
  end.

Definition compatible (k : kind) : bool :=
  distinct (map reader_field (readers k))
  && distinct (map reader_key (readers k))
  && distinct (map key (rules k))
  && forallb copied_when_defined (rules k)
  && forallb (agrees (readers k)) (rules k)
  && forallb (fun owned => negb (existsb (String.eqb owned)
                                         (map key (rules k))))
             (remote_owned k).

Definition keys_of (x : value) : list string :=
  match x with
  | VObj o => keys o
  | _ => []
  end.

Definition props_of (x : value) : props :=
  match x with
  | VObj o => o
  | _ => []
  end.

(** The properties of the literal a rule builds for a nested record. *)
Definition nested_keys (r : rule) : list string :=
  match what r with
  | Copy => []
  | Ref idKey _ => [idKey]
  | Obj parts | Each parts => map part_name parts
  end.

(** The records nested under a key of the payload: the object itself, or
    the elements of an array of objects. *)
Fixpoint records_of (ys : list value) : option (list props) :=
  match ys with
  | [] => Some []
  | VObj o :: rest =>
      match records_of rest with
      | Some os => Some (o :: os)
      | None => None
      end
  | _ :: _ => None
  end.

Definition nested_records (y : value) : option (list props) :=
  match y with
  | VObj o => Some [o]
  | VArr ys => records_of ys
  | _ => None
  end.

(** Each key under which the remote side owns nested properties is
    written, if at all, by a rule that builds the nested records from a
    literal, and no property of that literal is one of the owned ones. *)
Definition withheld (k : kind) : bool :=
  forallb (fun kw =>
             forallb (fun r =>
                        negb (key r =? fst kw)
                        || (match what r with Copy => false | _ => true end
                            && forallb (fun n =>
                                          negb (existsb (String.eqb n)
                                                        (nested_keys r)))
                                       (snd kw)))
                     (rules k))
          (owned_within k).

(** The literal [({ K1: y.f1, ..., Kn: y.fn })] of plain properties. *)
Definition image (parts : list part) (y : value) : value :=
  VObj (map (fun p => (part_name p, member y (part_source p))) parts).

End Reading.

(* ===================================================================== *)
(** ** Sample documents, engines and credentials *)
(* ===================================================================== *)

Module Samples.
Import Js Mapper Entities Text Platform Env Client.

(** The text of a JSON document whose strings need no escape and whose
    numbers are integers. *)
Fixpoint render (v : value) : string :=
  match v with
  | VUndef => "undefined"
  | VNull => "null"
  | VBool true => "true"
  | VBool false => "false"
  | VNum NaN => "null"
  | VNum (Fin q) => decimal (Qnum q)
  | VStr s => dquote ++ s ++ dquote
  | VArr l => "[" ++ String.concat "," (map render l) ++ "]"
  | VObj o =>
      "{" ++ String.concat ","
               (map (fun kv => dquote ++ fst kv ++ dquote ++ ":"
                               ++ render (snd kv)) o) ++ "}"
  end.

Definition wire_contact : value :=
  VObj [ ("ContactID", VStr "c1"); ("Name", VStr "Acme");
         ("EmailAddress", VStr ""); ("IsSupplier", VBool false) ].

Definition no_contacts : value := VObj [("Contacts", VArr [])].
Definition one_contact : value := VObj [("Contacts", VArr [wire_contact])].
Definition no_accounts : value := VObj [("Accounts", VArr [])].
Definition one_invoice : value :=
  VObj [("Invoices", VArr [VObj [("InvoiceID", VStr "i1")]])].
Definition one_organisation : value :=
  VObj [("Organisations", VArr [VObj [("Name", VStr "Demo")]])].
Definition empty_message : value := VObj [("Message", VStr "")].
Definition validation_failure : value :=
  VObj [ ("Elements",
          VArr [ VObj [("ValidationErrors",
                        VArr [ VObj [("Message", VStr "Amount exceeds credit")];
                               VObj [("Message", VStr "Date is required")] ])];
                 VObj [] ]) ].

Definition documents : list value :=
  [ no_contacts; one_contact; no_accounts; one_invoice; one_organisation;
    empty_message; validation_failure ].

(** An engine whose parser knows the sample documents, and whose network
    answers every request with the same response. *)
Definition engine (answer : Settled) : Runtime :=
  {| Number_toString := fun _ => "0.5";
     JSON_parse := fun s => find (fun v => render v =? s) documents;
     TypeError_message := fun _ => "Cannot read properties of undefined";
     SyntaxError_message := fun _ => "Unexpected end of JSON input";
     fetch := fun _ _ => answer |}.

Definition answering (code : Z) (hs : list (string * string)) (doc : value)
  : Runtime :=
  engine (Responded {| status := code; response_headers := hs;
                       text := render doc |}).

Definition tenant : TenantCredentials :=
  {| accessToken := Some "token"; tenantId := Some "tenant"; baseUrl := None |}.

Definition no_tenant : TenantCredentials :=
  {| accessToken := Some "token"; tenantId := Some ""; baseUrl := None |}.

Definition http_date : string := "Wed, 21 Oct 2015 07:28:00 GMT".

End Samples.

(* ===================================================================== *)
(** ** The methods of the client by what they do with the answer *)
(* ===================================================================== *)

Module Operations.
Import Js Mapper Entities Text Platform Env Client Reading.

(** The list methods, each with the key of the response envelope whose
    array it maps, the callback it passes to [map] and, when it returns a
    [PaginatedResponse], its [params]. *)
Definition listing (c : call)
  : option (string * (value -> result value) * option value) :=
  match c with
  | ListContacts p => Some ("Contacts", mapContact, Some p)
  | ListContactGroups => Some ("ContactGroups", mapContactGroup false, None)
  | ListAccounts _ => Some ("Accounts", mapAccount, None)
  | ListInvoices p => Some ("Invoices", mapInvoice false, Some p)
  | ListCreditNotes p => Some ("CreditNotes", mapCreditNote true, Some p)
  | ListPayments p => Some ("Payments", mapPayment, Some p)
  | ListBankTransactions p =>
      Some ("BankTransactions", mapBankTransaction true, Some p)
  | ListBankTransfers p => Some ("BankTransfers", mapBankTransfer, Some p)
  | ListItems _ => Some ("Items", mapItem, None)
  | ListPurchaseOrders p =>
      Some ("PurchaseOrders", mapPurchaseOrder true, Some p)
  | ListQuotes p => Some ("Quotes", mapQuote true, Some p)
  | ListPrepayments p => Some ("Prepayments", mapPrepayment true, Some p)
  | ListOverpayments p => Some ("Overpayments", mapOverpayment true, Some p)
  | ListJournals _ => Some ("Journals", mapJournal, None)
  | ListManualJournals p => Some ("ManualJournals", mapManualJournal, Some p)
  | ListBatchPayments p => Some ("BatchPayments", mapBatchPayment, Some p)
  | ListTaxRates => Some ("TaxRates", mapTaxRate, None)
  | ListCurrencies => Some ("Currencies", mapCurrency, None)
  | ListTrackingCategories =>
      Some ("TrackingCategories", mapTrackingCategory, None)
  | ListBrandingThemes => Some ("BrandingThemes", mapBrandingTheme, None)
  | ListRepeatingInvoices =>
      Some ("RepeatingInvoices", mapRepeatingInvoice true, None)
  | ListUsers => Some ("Users", mapUser, None)
  | ListLinkedTransactions p =>
      Some ("LinkedTransactions", mapLinkedTransaction, Some p)
  | _ => None
  end.


(** The methods declared [Promise<void>]: they await the request and
    return nothing. *)
Definition discarding (c : call) : bool :=
  match c with
  | DeleteContactGroup _ | RemoveContactsFromGroup _ _ | DeleteAccount _
  | DeleteInvoice _ | DeletePayment _ | DeleteItem _ | DeletePurchaseOrder _
  | DeleteQuote _ | DeleteBatchPayment _ | DeleteTrackingCategory _
  | DeleteTrackingOption _ _ | DeleteRepeatingInvoice _
  | DeleteLinkedTransaction _ => true
  | _ => false
  end.

(** The methods that only read: the connection test, the list and get
    methods and the reports. *)
Definition reading (c : call) : bool :=
  match c with
  | TestConnection => true
  | _ =>
      match listing c, singular c with
      | None, None => false
      | _, _ => true
      end
  end.


(** The create methods that take a partial entity, each with the
    entity. *)
Definition partial_create (c : call) : option value :=
  match c with
  | CreateContact x | CreateAccount x | CreateInvoice x | CreateCreditNote x
  | CreatePayment x | CreateBankTransaction x | CreateBankTransfer x
  | CreateItem x | CreatePurchaseOrder x | CreateQuote x
  | CreateManualJournal x | CreateBatchPayment x | CreateTaxRate x
  | CreateRepeatingInvoice x | CreateLinkedTransaction x => Some x
  | _ => None
  end.

(** Those of them that write each property of the wire record under a
    guard, through a [map...ToXero] method or a literal of guarded
    properties, with the table that turns the entity into the record and
    the envelope key it is sent under. [createBankTransfer] is the one
    left out: the literal it sends is not guarded. *)
Definition creating (c : call) : option update :=
  match c with
  | CreateContact x =>
      Some {| entity := x; table := inl contact_rules;
              identity := None; envelope := Some "Contacts" |}
  | CreateAccount x =>
      Some {| entity := x; table := inl account_rules;
              identity := None; envelope := None |}
  | CreateInvoice x =>
      Some {| entity := x; table := inl invoice_rules;
              identity := None; envelope := Some "Invoices" |}
  | CreateCreditNote x =>
      Some {| entity := x; table := inl credit_note_rules;
              identity := None; envelope := Some "CreditNotes" |}
  | CreatePayment x =>
      Some {| entity := x; table := inl payment_rules;
              identity := None; envelope := Some "Payments" |}
  | CreateBankTransaction x =>
      Some {| entity := x; table := inl bank_transaction_rules;
              identity := None; envelope := Some "BankTransactions" |}
  | CreateItem x =>
      Some {| entity := x; table := inl item_rules;
              identity := None; envelope := Some "Items" |}
  | CreatePurchaseOrder x =>
      Some {| entity := x; table := inl purchase_order_rules;
              identity := None; envelope := Some "PurchaseOrders" |}
  | CreateQuote x =>
      Some {| entity := x; table := inl quote_rules;
              identity := None; envelope := Some "Quotes" |}
  | CreateManualJournal x =>
      Some {| entity := x; table := inl manual_journal_rules;
              identity := None; envelope := Some "ManualJournals" |}
  | CreateBatchPayment x =>
      Some {| entity := x; table := inl batch_payment_rules;
              identity := None; envelope := Some "BatchPayments" |}
  | CreateTaxRate x =>
      Some {| entity := x; table := inl tax_rate_rules;
              identity := None; envelope := Some "TaxRates" |}
  | CreateRepeatingInvoice x =>
      Some {| entity := x; table := inl repeating_invoice_rules;
              identity := None; envelope := Some "RepeatingInvoices" |}
  | CreateLinkedTransaction x =>
      Some {| entity := x; table := inr linked_transaction_create;
              identity := None; envelope := None |}
  | _ => None
  end.

(** The two update methods that write their identifier argument into
    the record as well as into the path: the path before the identifier,
    the property and the identifier. *)
Definition addressed (c : call) : option (string * string * string) :=
  match c with
  | UpdateInvoice i _ => Some ("/Invoices/", "InvoiceID", i)
  | UpdateBankTransaction i _ =>
      Some ("/BankTransactions/", "BankTransactionID", i)
  | _ => None
  end.



End Operations.

(* ===================================================================== *)
(** ** The records a mapper accepts *)
(* ===================================================================== *)

Module Shapes.
Import Js Mapper Entities.

(** A value that [a?.map(x => ({ f1: x.K1, ... }))] maps without
    throwing: [undefined], [null], or an array none of whose elements is
    [undefined] or [null] (any array when the literal reads nothing). *)
Definition mappable (elem : list (string * string)) (a : value) : bool :=
  nullish a ||
  match a with
  | VArr xs =>
      match elem with
      | [] => true
      | _ => forallb (fun x => negb (nullish x)) xs
      end
  | _ => false
  end.

(** A wire record that is neither [undefined] nor [null] and whose nested
    arrays can be mapped. *)
Definition well_shaped (readers : list reader) (w : value) : bool :=
  negb (nullish w) &&
  forallb (fun rd =>
             match rd with
             | Items _ k _ elem => mappable elem (member w k)
             | _ => true
             end) readers.

(** A domain entity that is neither [undefined] nor [null] and whose
    fields mapped element by element (the line items, the journal lines,
    the payments of a batch) are falsy or arrays without an [undefined] or
    [null] element. *)
Definition sendable (rules : list rule) (src : value) : bool :=
  negb (nullish src) &&
  forallb (fun r =>
             match what r with
             | Each _ =>
                 negb (truthy (member src (field r))) ||
                 match member src (field r) with
                 | VArr xs => forallb (fun x => negb (nullish x)) xs
                 | _ => false
                 end
             | _ => true
             end) rules.

(** Every statement of a table can throw only through its [map]: a
    field guarded by [!== undefined] is copied, and a literal built for
    each element reads at least one property. *)
Definition guarded (rules : list rule) : bool :=
  match rules with [] => false | _ => true end &&
  forallb (fun r =>
             match when r, what r with
             | IfDefined, Copy => true
             | IfDefined, _ => false
             | IfTruthy, Each [] => false
             | IfTruthy, _ => true
             end) rules.

End Shapes.

(* ===================================================================== *)
(** ** More sample documents and engines *)
(* ===================================================================== *)

Module Fixtures.
Import Js Mapper Entities Text Platform Env Client Samples.

(** An engine whose network answers every request with status 200 and
    the text of [doc], and whose parser knows that text. *)
Definition serving (doc : value) : Runtime :=
  {| Number_toString := fun _ => "0.5";
     JSON_parse := fun s => if s =? render doc then Some doc else None;
     TypeError_message := fun _ => "Cannot read properties of undefined";
     SyntaxError_message := fun _ => "Unexpected end of JSON input";
     fetch := fun _ _ =>
       Responded {| status := 200; response_headers := [];
                    text := render doc |} |}.



(** A full page: one hundred contacts. *)
Definition full_page : value :=
  VObj [("Contacts", VArr (repeat wire_contact 100))].

End Fixtures.

(* ===================================================================== *)
(** ** Credentials from headers and numeric settings ([types/env.ts]) *)
(* ===================================================================== *)

Module Settings.
Import Js Text Env.

(** What the Worker reads of the request it is handed: the path of its
    URL, its method and its headers. *)
Record Incoming := {
  pathname : string;
  http_method : string;
  incoming_headers : list (string * string);
}.

(** [headers.get(name) || ''] *)
Definition header_or_empty (name : string) (hs : list (string * string))
  : string :=
  match headers_get name hs with
  | Some v => v
  | None => ""
  end.

(** [parseTenantCredentials] *)
Definition parseTenantCredentials (request : Incoming) : TenantCredentials :=
  let headers := incoming_headers request in
  {| accessToken := Some (header_or_empty "X-Xero-Access-Token" headers);
     tenantId := Some (header_or_empty "X-Xero-Tenant-Id" headers);
     baseUrl := match headers_get "X-Xero-Base-URL" headers with
                | Some v => if v =? "" then None else Some v
                | None => None
                end |}.

(** [Number.isNaN] *)
Definition isNaN (n : number) : bool :=
  match n with
  | NaN => true
  | Fin _ => false
  end.

(** [getEnvNumber]: [env] is the bindings object of the Worker, given by
    its own properties (a binding that is not a variable is an object). *)
Definition getEnvNumber (env : props) (key : string) (defaultValue : number)
  : number :=
  match lookup key env with
  | Some (VStr value) =>
      let parsed := parseInt value in
      if isNaN parsed then defaultValue else parsed
  | _ => defaultValue
  end.

Definition getCharacterLimit (env : props) : number :=
  getEnvNumber env "CHARACTER_LIMIT" (of_Z 50000).

Definition getDefaultPageSize (env : props) : number :=
  getEnvNumber env "DEFAULT_PAGE_SIZE" (of_Z 20).

Definition getMaxPageSize (env : props) : number :=
  getEnvNumber env "MAX_PAGE_SIZE" (of_Z 100).

End Settings.

(* ===================================================================== *)
(** ** The Worker entry point ([index.ts]) *)
(* ===================================================================== *)

Module Index.
Import Js Text Platform Env Settings.

Definition SERVER_NAME : string := "xero-mcp-server".
Definition SERVER_VERSION : string := "1.0.0".

(** What the Worker answers: a JSON document (the argument of
    [JSON.stringify], sent with the JSON content type), a text, or
    whatever the MCP handler of the server created for the credentials
    answers, which is outside this file. *)
Inductive Reply :=
| Document (status : Z) (content : value)
| Notice (status : Z) (content : string)
| Served (credentials : TenantCredentials).

Definition description : value :=
  literal
    [ ("name", VStr SERVER_NAME);
      ("version", VStr SERVER_VERSION);
      ("description", VStr "Multi-tenant Xero Accounting MCP Server");
      ("endpoints",
       literal
         [ ("mcp", VStr "/mcp (POST) - Streamable HTTP MCP endpoint");
           ("health", VStr "/health - Health check") ]);
      ("authentication",
       literal
         [ ("description", VStr "Pass tenant credentials via request headers");
           ("required_headers",
            literal
              [ ("X-Xero-Access-Token",
                 VStr "OAuth 2.0 access token for Xero authentication");
                ("X-Xero-Tenant-Id",
                 VStr "Xero tenant ID (organization identifier)") ]);
           ("optional_headers",
            literal
              [ ("X-Xero-Base-URL",
                 VStr "Override the default Xero API base URL (default: https://api.xero.com/api.xro/2.0)") ]) ]) ].

(** The [fetch] handler of the Worker, on the engine it runs on. *)
Definition fetch (engine : Runtime) (request : Incoming) : Reply :=
  if pathname request =? "/health" then
    Document 200 (literal [("status", VStr "ok"); ("server", VStr SERVER_NAME)])
  else if (pathname request =? "/mcp") && (http_method request =? "POST") then
    let credentials := parseTenantCredentials request in
    match validateCredentials credentials with
    | inl error =>
        Document 401
          (literal
             [ ("error", VStr "Unauthorized");
               ("message", VStr (message_of engine error));
               ("required_headers",
                VArr [VStr "X-Xero-Access-Token"; VStr "X-Xero-Tenant-Id"]) ])
    | inr _ => Served credentials
    end
  else if pathname request =? "/sse" then
    Notice 501 "SSE endpoint requires Durable Objects. Enable in wrangler.jsonc."
  else Document 200 description.

End Index.

(* ===================================================================== *)
(** ** Pagination helpers ([utils/formatters.ts]) *)
(* ===================================================================== *)

Module Pagination.
Import Js Text Platform.

(** What the engine supplies of arithmetic: the sum of two numbers. *)
Record Arithmetic := {
  Number_add : number -> number -> number;
}.

(** [a ?? b] *)
Definition nullish_or (a b : value) : value := if nullish a then b else a.

(** [normalizePaginationParams] *)
Definition normalizePaginationParams (params : value) : value :=
  literal
    [ ("page", or_else (opt_member params "page") (VNum (of_Z 1)));
      ("where", opt_member params "where");
      ("order", opt_member params "order") ].

(** [emptyPaginatedResponse] *)
Definition emptyPaginatedResponse : value :=
  literal
    [ ("items", VArr []); ("count", VNum (of_Z 0)); ("hasMore", VBool false) ].

(** [createPaginatedResponse(items, options = {})]: the default applies
    to an [options] that is [undefined]. *)
Definition createPaginatedResponse (items options : value) : result value :=
  let options := if defined options then options else literal [] in
  and_then (read items "length") (fun count =>
  and_then (read options "page") (fun page =>
  and_then (read options "hasMore") (fun hasMore =>
    ok (literal
          [ ("items", items);
            ("count", count);
            ("page", page);
            ("hasMore", nullish_or hasMore (VBool false)) ])))).

Section WithArithmetic.
Variable arithmetic : Arithmetic.
Variable env : Runtime.

(** [n + 1] on a number: exact when [n] and [n + 1] are integers of
    magnitude at most 2^53, the sum of the engine otherwise. *)
Definition successor (n : number) : number :=
  match n with
  | NaN => NaN
  | Fin q =>
      if (Zpos (Qden q) =? 1)%Z && (- 2 ^ 53 <=? Qnum q)%Z
         && (Qnum q <? 2 ^ 53)%Z
      then of_Z (Qnum q + 1)
      else Number_add arithmetic n (of_Z 1)
  end.

(** [v + 1]: a number is added to, a string or an object is
    concatenated with ["1"], the other primitives are converted to a
    number first. *)
Definition plus_one (v : value) : value :=
  match v with
  | VNum n => VNum (successor n)
  | VStr s => VStr (s ++ "1")
  | VBool true => VNum (of_Z 2)
  | VBool false => VNum (of_Z 1)
  | VNull => VNum (of_Z 1)
  | VUndef => VNum NaN
  | VArr _ | VObj _ => VStr (to_string env v ++ "1")
  end.

(** [getNextPage] *)
Definition getNextPage (currentPage hasMore : value) : value :=
  if truthy hasMore then plus_one currentPage else VUndef.

End WithArithmetic.

End Pagination.

(* ===================================================================== *)
(** ** The paths and the query parameters of the reading methods *)
(* ===================================================================== *)

Module Routes.
Import Js Text Platform Env Client.

(** The reading methods that build their query with [URLSearchParams]
    (or send none), each with the path it asks for, the names of the query
    parameters it can set, and its [params] when it takes some. Left out
    are [getReport], whose parameters are whatever record the caller
    passes, and [getTaxRate], which writes its filter into the endpoint
    itself. *)
Definition resource (c : call)
  : option (string * list string * option value) :=
  match c with
  | TestConnection | GetOrganisation => Some ("/Organisation", [], None)
  | ListContacts p =>
      Some ("/Contacts", ["page"; "where"; "order"; "includeArchived"], Some p)
  | GetContact i => Some ("/Contacts/" ++ i, [], None)
  | ListContactGroups => Some ("/ContactGroups", [], None)
  | GetContactGroup i => Some ("/ContactGroups/" ++ i, [], None)
  | ListAccounts p => Some ("/Accounts", ["where"], Some p)
  | GetAccount i => Some ("/Accounts/" ++ i, [], None)
  | ListInvoices p => Some ("/Invoices", ["page"; "where"; "order"; "Statuses"], Some p)
  | GetInvoice i => Some ("/Invoices/" ++ i, [], None)
  | ListCreditNotes p => Some ("/CreditNotes", ["page"; "where"; "order"], Some p)
  | GetCreditNote i => Some ("/CreditNotes/" ++ i, [], None)
  | ListPayments p => Some ("/Payments", ["page"; "where"; "order"], Some p)
  | GetPayment i => Some ("/Payments/" ++ i, [], None)
  | ListBankTransactions p => Some ("/BankTransactions", ["page"; "where"; "order"], Some p)
  | GetBankTransaction i => Some ("/BankTransactions/" ++ i, [], None)
  | ListBankTransfers p => Some ("/BankTransfers", ["page"; "where"; "order"], Some p)
  | GetBankTransfer i => Some ("/BankTransfers/" ++ i, [], None)
  | ListItems p => Some ("/Items", ["where"], Some p)
  | GetItem i => Some ("/Items/" ++ i, [], None)
  | ListPurchaseOrders p =>
      Some ("/PurchaseOrders", ["page"; "where"; "order"; "Status"], Some p)
  | GetPurchaseOrder i => Some ("/PurchaseOrders/" ++ i, [], None)
  | ListQuotes p => Some ("/Quotes", ["page"; "where"; "order"; "Status"], Some p)
  | GetQuote i => Some ("/Quotes/" ++ i, [], None)
  | ListPrepayments p => Some ("/Prepayments", ["page"; "where"; "order"], Some p)
  | GetPrepayment i => Some ("/Prepayments/" ++ i, [], None)
  | ListOverpayments p => Some ("/Overpayments", ["page"; "where"; "order"], Some p)
  | GetOverpayment i => Some ("/Overpayments/" ++ i, [], None)
  | ListJournals p => Some ("/Journals", ["offset"; "where"; "order"], Some p)
  | GetJournal i => Some ("/Journals/" ++ i, [], None)
  | ListManualJournals p => Some ("/ManualJournals", ["page"; "where"; "order"], Some p)
  | GetManualJournal i => Some ("/ManualJournals/" ++ i, [], None)
  | ListBatchPayments p => Some ("/BatchPayments", ["page"; "where"; "order"], Some p)
  | GetBatchPayment i => Some ("/BatchPayments/" ++ i, [], None)
  | ListTaxRates => Some ("/TaxRates", [], None)
  | ListCurrencies => Some ("/Currencies", [], None)
  | ListTrackingCategories => Some ("/TrackingCategories", [], None)
  | GetTrackingCategory i => Some ("/TrackingCategories/" ++ i, [], None)
  | ListBrandingThemes => Some ("/BrandingThemes", [], None)
  | GetBrandingTheme i => Some ("/BrandingThemes/" ++ i, [], None)
  | ListRepeatingInvoices => Some ("/RepeatingInvoices", [], None)
  | GetRepeatingInvoice i => Some ("/RepeatingInvoices/" ++ i, [], None)
  | ListUsers => Some ("/Users", [], None)
  | GetUser i => Some ("/Users/" ++ i, [], None)
  | ListLinkedTransactions p =>
      Some ("/LinkedTransactions",
            ["page"; "where"; "SourceTransactionID"; "ContactID"], Some p)
  | GetLinkedTransaction i => Some ("/LinkedTransactions/" ++ i, [], None)
  | GetBalanceSheet p =>
      Some ("/Reports/BalanceSheet",
            ["date"; "periods"; "timeframe"; "trackingOptionID1";
             "trackingOptionID2"; "standardLayout"; "paymentsOnly"], Some p)
  | GetProfitAndLoss p =>
      Some ("/Reports/ProfitAndLoss",
            ["fromDate"; "toDate"; "periods"; "timeframe";
             "trackingCategoryID"; "trackingOptionID"; "trackingCategoryID2";
             "trackingOptionID2"; "standardLayout"; "paymentsOnly"], Some p)
  | GetTrialBalance p =>
      Some ("/Reports/TrialBalance", ["date"; "paymentsOnly"], Some p)
  | GetBankSummary p =>
      Some ("/Reports/BankSummary", ["fromDate"; "toDate"], Some p)
  | GetAgedReceivablesByContact p =>
      Some ("/Reports/AgedReceivablesByContact",
            ["contactID"; "date"; "fromDate"; "toDate"], Some p)
  | GetAgedPayablesByContact p =>
      Some ("/Reports/AgedPayablesByContact",
            ["contactID"; "date"; "fromDate"; "toDate"], Some p)
  | GetBudgetSummary p =>
      Some ("/Reports/BudgetSummary", ["date"; "periods"; "timeframe"], Some p)
  | GetExecutiveSummary p => Some ("/Reports/ExecutiveSummary", ["date"], Some p)
  | _ => None
  end.

(** A query whose names are pairwise different and all among [names]. *)
Definition within (names : list string) (q : query) : Prop :=
  NoDup (map fst q) /\ incl (map fst q) names.

End Routes.

(* ===================================================================== *)
(** ** Facts about objects and about [toWire] *)
(* ===================================================================== *)

Module MapperFacts.
Import Js Mapper Entities Reading.

Lemma eqb_false_of_neq (a b : string) : a <> b -> (a =? b) = false.
Proof. intros H. destruct (String.eqb_spec a b); [contradiction|reflexivity]. Qed.

Lemma existsb_eqb_In (x : string) (l : list string) :
  existsb (String.eqb x) l = true <-> In x l.
Proof.
  rewrite existsb_exists. split.
  - intros (y & Hy & E). apply String.eqb_eq in E. subst. exact Hy.
  - intros H. exists x. split; [exact H|apply String.eqb_refl].
Qed.

Lemma distinct_NoDup (l : list string) : distinct l = true -> NoDup l.
Proof.
  induction l as [|x l IH]; cbn [distinct]; intros H; [constructor|].
  apply andb_true_iff in H as [Hx Hl]. constructor; [|exact (IH Hl)].
  intros Hin. apply existsb_eqb_In in Hin. rewrite Hin in Hx. discriminate.
Qed.

Lemma lookup_None_iff (k : string) (o : props) :
  lookup k o = None <-> ~ In k (keys o).
Proof.
  induction o as [|[k' v] o IH]; cbn [lookup keys map fst In].
  - tauto.
  - destruct (String.eqb_spec k k') as [->|Hne].
    + split; [discriminate|]. intros H. exfalso. apply H. left. reflexivity.
    + unfold keys in IH. rewrite IH. split.
      * intros H [E|Hin]; [apply Hne; symmetry; exact E|exact (H Hin)].
      * intros H Hin. apply H. right. exact Hin.
Qed.

Lemma lookup_Some_In (k : string) (v : value) (o : props) :
  lookup k o = Some v -> In (k, v) o.
Proof.
  induction o as [|[k' v'] o IH]; cbn [lookup]; [discriminate|].
  destruct (String.eqb_spec k k') as [->|Hne].
  - intros H. injection H as ->. left. reflexivity.
  - intros H. right. exact (IH H).
Qed.

Lemma lookup_app (k : string) (a b : props) :
  lookup k (a ++ b)%list
  = match lookup k a with
    | Some v => Some v
    | None => lookup k b
    end.
Proof.
  induction a as [|[k' v] a IH]; cbn [lookup app]; [reflexivity|].
  destruct (k =? k'); [reflexivity|exact IH].
Qed.

Lemma keys_app (a b : props) : keys (a ++ b)%list = (keys a ++ keys b)%list.
Proof. unfold keys. apply map_app. Qed.

Lemma assign_fresh (k : string) (v : value) (o : props) :
  ~ In k (keys o) -> assign k v o = (o ++ [(k, v)])%list.
Proof.
  induction o as [|[k' v'] o IH]; cbn [assign keys map fst In app];
    intros H; [reflexivity|].
  rewrite eqb_false_of_neq.
  - f_equal. apply IH. intros Hin. apply H. right. exact Hin.
  - intros E. apply H. left. symmetry. exact E.
Qed.

Lemma read_present (v : value) (k : string) :
  nullish v = false -> read v k = inr (member v k).
Proof. intros H. unfold read. rewrite H. reflexivity. Qed.

Lemma read_inr (v : value) (k : string) (x : value) :
  read v k = inr x -> nullish v = false /\ x = member v k.
Proof.
  unfold read. destruct (nullish v); [discriminate|].
  intros H. injection H as <-. split; reflexivity.
Qed.

Lemma traverse_inr_cons {A B} (f : A -> result B) (x : A) (l : list A)
  (ys : list B) :
  traverse f (x :: l) = inr ys ->
  exists y ys', f x = inr y /\ traverse f l = inr ys' /\ ys = y :: ys'.
Proof.
  cbn [traverse]. destruct (f x) as [e|y]; [discriminate|]. cbn [and_then].
  destruct (traverse f l) as [e|ys']; [discriminate|]. cbn [and_then].
  intros H. injection H as <-. exists y, ys'. repeat split.
Qed.

Lemma traverse_Forall2 {A B} (f : A -> result B) (l : list A) (ys : list B) :
  traverse f l = inr ys <-> Forall2 (fun x y => f x = inr y) l ys.
Proof.
  revert ys. induction l as [|x l IH]; intros ys.
  - cbn [traverse]. split.
    + intros H. injection H as <-. constructor.
    + intros H. inversion H. reflexivity.
  - split.
    + intros H. destruct (traverse_inr_cons f x l ys H) as (y & ys' & Hy & Hl & ->).
      constructor; [exact Hy|]. apply IH. exact Hl.
    + intros H. inversion H as [|? y ? ys' Hy Hl]; subst.
      apply IH in Hl. cbn [traverse]. rewrite Hy, Hl. reflexivity.
Qed.

(** *** The statements of [toWire], one rule at a time *)

Lemma fold_statement_inl (src : value) (rules : list rule) (e : error) :
  fold_left (statement src) rules (inl e) = inl e.
Proof. induction rules as [|r rules IH]; [reflexivity|exact IH]. Qed.

Lemma fold_statement (src : value) (rules : list rule) (acc : props) :
  NoDup (map key rules) ->
  (forall r, In r rules -> ~ In (key r) (keys acc)) ->
  fold_left (statement src) rules (inr acc)
  = and_then (traverse (emitted src) rules)
             (fun parts => ok (acc ++ concat parts)%list).
Proof.
  revert acc. induction rules as [|r rules IH]; intros acc Hnd Hfresh.
  - cbn. rewrite app_nil_r. reflexivity.
  - cbn [fold_left traverse map] in *. inversion Hnd as [|? ? Hr Hnd']; subst.
    unfold statement at 2, emitted at 1. cbn [and_then].
    destruct (read src (field r)) as [e|v]; cbn [and_then].
    { apply fold_statement_inl. }
    destruct (passes (when r) v).
    + destruct (payload_value r v) as [e|w]; cbn [and_then].
      { apply fold_statement_inl. }
      unfold ok. rewrite (assign_fresh (key r) w acc).
      2:{ apply Hfresh. left. reflexivity. }
      rewrite (IH _ Hnd').
      * destruct (traverse (emitted src) rules) as [e|parts]; [reflexivity|].
        cbn [and_then concat]. unfold ok. rewrite <- app_assoc. reflexivity.
      * intros r' Hr' Hin. rewrite keys_app in Hin. apply in_app_or in Hin.
        destruct Hin as [Hin|Hin].
        -- exact (Hfresh r' (or_intror Hr') Hin).
        -- cbn in Hin. destruct Hin as [E|[]]. apply Hr. rewrite E.
           apply in_map. exact Hr'.
    + unfold ok. rewrite (IH _ Hnd').
      * destruct (traverse (emitted src) rules) as [e|parts]; reflexivity.
      * intros r' Hr'. apply Hfresh. right. exact Hr'.
Qed.

(** [toWire] returns the properties of its statements, in order. *)
Lemma toWire_flat (rules : list rule) (src : value) :
  NoDup (map key rules) ->
  toWire rules src
  = and_then (traverse (emitted src) rules)
             (fun parts => ok (VObj (concat parts))).
Proof.
  intros Hnd. unfold toWire.
  change (fold_left (statement src) rules (ok []))
    with (fold_left (statement src) rules (@inr error props [])).
  rewrite (fold_statement src rules [] Hnd).
  - destruct (traverse (emitted src) rules); reflexivity.
  - intros r _ [].
Qed.

Lemma toWire_inr (rules : list rule) (src x : value) :
  NoDup (map key rules) ->
  toWire rules src = inr x ->
  exists parts,
    traverse (emitted src) rules = inr parts /\ x = VObj (concat parts).
Proof.
  intros Hnd H. rewrite (toWire_flat rules src Hnd) in H.
  destruct (traverse (emitted src) rules) as [e|parts]; [discriminate|].
  injection H as <-. exists parts. split; reflexivity.
Qed.

Lemma emitted_inr (src : value) (r : rule) (p : props) :
  emitted src r = inr p ->
  nullish src = false
  /\ if passes (when r) (member src (field r))
     then exists w, payload_value r (member src (field r)) = inr w
                    /\ p = [(key r, w)]
     else p = [].
Proof.
  unfold emitted. intros H.
  destruct (read src (field r)) as [e|v] eqn:Hr; [discriminate|].
  apply read_inr in Hr as [Hn ->]. cbn [and_then] in H. split; [exact Hn|].
  destruct (passes (when r) (member src (field r))).
  - destruct (payload_value r (member src (field r))) as [e|w]; [discriminate|].
    cbn [and_then] in H. injection H as <-. exists w. split; reflexivity.
  - injection H as <-. reflexivity.
Qed.

(** The keys emitted are those of the rules whose guard passes. *)
Lemma emitted_keys (src : value) (rules : list rule) (parts : list props) :
  traverse (emitted src) rules = inr parts ->
  keys (concat parts)
  = map key (filter (fun r => passes (when r) (member src (field r))) rules).
Proof.
  revert parts. induction rules as [|r rules IH]; intros parts H.
  - injection H as <-. reflexivity.
  - destruct (traverse_inr_cons _ _ _ _ H) as (p & ps & Hp & Hps & ->).
    cbn [concat filter]. rewrite keys_app, (IH ps Hps).
    apply emitted_inr in Hp as [_ Hp].
    destruct (passes (when r) (member src (field r))).
    + destruct Hp as (w & _ & ->). reflexivity.
    + subst p. reflexivity.
Qed.

(** What is found under the key of a rule. *)
Lemma emitted_lookup (src : value) (rules : list rule) (parts : list props)
  (r : rule) :
  NoDup (map key rules) ->
  traverse (emitted src) rules = inr parts ->
  In r rules ->
  if passes (when r) (member src (field r))
  then exists w, payload_value r (member src (field r)) = inr w
                 /\ lookup (key r) (concat parts) = Some w
  else lookup (key r) (concat parts) = None.
Proof.
  revert parts. induction rules as [|r0 rules IH]; intros parts Hnd H Hin;
    [destruct Hin|].
  destruct (traverse_inr_cons _ _ _ _ H) as (p & ps & Hp & Hps & ->).
  cbn [map] in Hnd. inversion Hnd as [|? ? Hr0 Hnd']; subst.
  cbn [concat]. rewrite lookup_app.
  pose proof (emitted_keys src rules ps Hps) as Hkeys.
  apply emitted_inr in Hp as [_ Hp].
  destruct Hin as [->|Hin].
  - assert (Hnone : lookup (key r) (concat ps) = None).
    { apply lookup_None_iff. rewrite Hkeys. intros Hk. apply Hr0.
      apply in_map_iff in Hk as (r' & E & Hr'). apply filter_In in Hr' as [Hr' _].
      rewrite <- E. apply in_map. exact Hr'. }
    destruct (passes (when r) (member src (field r))).
    + destruct Hp as (w & Hw & ->). exists w. split; [exact Hw|].
      cbn [lookup]. rewrite String.eqb_refl. reflexivity.
    + subst p. exact Hnone.
  - assert (Hne : key r <> key r0).
    { intros E. apply Hr0. rewrite <- E. apply in_map. exact Hin. }
    assert (Hp0 : lookup (key r) p = None).
    { destruct (passes (when r0) (member src (field r0))).
      - destruct Hp as (w & _ & ->). cbn [lookup].
        rewrite (eqb_false_of_neq _ _ Hne). reflexivity.
      - subst p. reflexivity. }
    rewrite Hp0. exact (IH ps Hnd' Hps Hin).
Qed.

Lemma kinds_compatible : forallb compatible kinds = true.
Proof. vm_compute. reflexivity. Qed.

Lemma kind_compatible (k : kind) : In k kinds -> compatible k = true.
Proof.
  intros H. pose proof kinds_compatible as Hall.
  rewrite forallb_forall in Hall. exact (Hall k H).
Qed.

Lemma kind_keys_NoDup (k : kind) : In k kinds -> NoDup (map key (rules k)).
Proof.
  intros H. apply kind_compatible in H. unfold compatible in H.
  repeat (apply andb_true_iff in H as [H ?]).
  apply distinct_NoDup. assumption.
Qed.

End MapperFacts.

(* ===================================================================== *)
(** ** Facts about the client monad and the shape of its methods *)
(* ===================================================================== *)

Module ClientFacts.
Import Js Mapper Entities Text Platform Env Client Reading.

Create HintDb methods.
#[export] Hint Unfold testConnection getOrganisation listContacts getContact createContact updateContact archiveContact listContactGroups getContactGroup createContactGroup updateContactGroup deleteContactGroup addContactsToGroup removeContactsFromGroup listAccounts getAccount createAccount updateAccount archiveAccount deleteAccount listInvoices getInvoice createInvoice updateInvoice voidInvoice deleteInvoice listCreditNotes getCreditNote createCreditNote updateCreditNote allocateCreditNote voidCreditNote listPayments getPayment createPayment deletePayment listBankTransactions getBankTransaction createBankTransaction updateBankTransaction listBankTransfers getBankTransfer createBankTransfer listItems getItem createItem updateItem deleteItem listPurchaseOrders getPurchaseOrder createPurchaseOrder updatePurchaseOrder deletePurchaseOrder listQuotes getQuote createQuote updateQuote deleteQuote listPrepayments getPrepayment allocatePrepayment listOverpayments getOverpayment allocateOverpayment listJournals getJournal listManualJournals getManualJournal createManualJournal updateManualJournal listBatchPayments getBatchPayment createBatchPayment deleteBatchPayment listTaxRates getTaxRate createTaxRate updateTaxRate listCurrencies createCurrency listTrackingCategories getTrackingCategory createTrackingCategory updateTrackingCategory deleteTrackingCategory createTrackingOption updateTrackingOption deleteTrackingOption listBrandingThemes getBrandingTheme listRepeatingInvoices getRepeatingInvoice createRepeatingInvoice updateRepeatingInvoice deleteRepeatingInvoice listUsers getUser listLinkedTransactions getLinkedTransaction createLinkedTransaction updateLinkedTransaction deleteLinkedTransaction getReport getBalanceSheet getProfitAndLoss getTrialBalance getBankSummary getAgedReceivablesByContact getAgedPayablesByContact getBudgetSummary getExecutiveSummary pure : methods.

Lemma bind_lift_inr {A B} (r : result A) (x : A) (k : A -> M B) log :
  r = inr x -> bind (lift r) k log = k x log.
Proof. intros ->. reflexivity. Qed.

Lemma bind_lift_inl {A B} (r : result A) e (k : A -> M B) log :
  r = inl e -> bind (lift r) k log = (inl e, log).
Proof. intros ->. reflexivity. Qed.

Ltac direct :=
  right; intros env creds; do 3 eexists; intros log; reflexivity.

Ltac after_payload R :=
  let E := fresh "E" in
  destruct R as [e|x] eqn:E;
  [ left; exists e; intros env creds log; apply bind_lift_inl; reflexivity
  | right; intros env creds; do 3 eexists; intros log;
    rewrite (bind_lift_inr _ x _ log eq_refl); cbv beta; reflexivity ].

Lemma aged_query_shape (params : value) :
  (exists e, forall env, aged_query env params = inl e)
  \/ (forall env, exists q, aged_query env params = inr q).
Proof.
  unfold aged_query, read. destruct (nullish params).
  - left. eexists. intros env. reflexivity.
  - right. intros env. eexists. reflexivity.
Qed.

Lemma statuses_shape (params : value) (q : value -> Runtime -> query) :
  (exists e, forall env,
      (if truthy (opt_member params "statuses")
       then and_then (joined_statuses env (opt_member params "statuses"))
              (fun s => ok (query_set "Statuses" s (q params env)))
       else ok (q params env)) = inl e)
  \/ (forall env, exists r,
      (if truthy (opt_member params "statuses")
       then and_then (joined_statuses env (opt_member params "statuses"))
              (fun s => ok (query_set "Statuses" s (q params env)))
       else ok (q params env)) = inr r).
Proof.
  destruct (truthy (opt_member params "statuses")).
  - destruct (opt_member params "statuses");
      try (left; eexists; intros env; reflexivity).
    right. intros env. eexists. reflexivity.
  - right. intros env. eexists. reflexivity.
Qed.

(** Every method but [testConnection] either throws before it calls
    [request] or is one call of [request] followed by decoding. *)
Lemma run_shape (c : call) :
  c <> TestConnection ->
  rejected c \/ forall env creds, single_request env creds (run env creds c).
Proof.
  intros Hc. unfold rejected, single_request.
  destruct c; try congruence; clear Hc; cbn [run]; autounfold with methods;
    try direct;
    try match goal with
        | |- context [lift (?f ?x)] => after_payload (f x)
        end.
  - destruct (statuses_shape params (fun p env => paging env p)) as [[e H]|H].
    + left. exists e. intros env creds log. apply bind_lift_inl. apply H.
    + right. intros env creds. destruct (H env) as [r Hr].
      do 3 eexists. intros log.
      rewrite (bind_lift_inr _ r _ log Hr). cbv beta. reflexivity.
  - destruct (aged_query_shape params) as [[e H]|H].
    + left. exists e. intros env creds log. apply bind_lift_inl. apply H.
    + right. intros env creds. destruct (H env) as [r Hr].
      do 3 eexists. intros log.
      rewrite (bind_lift_inr _ r _ log Hr). cbv beta. reflexivity.
  - destruct (aged_query_shape params) as [[e H]|H].
    + left. exists e. intros env creds log. apply bind_lift_inl. apply H.
    + right. intros env creds. destruct (H env) as [r Hr].
      do 3 eexists. intros log.
      rewrite (bind_lift_inr _ r _ log Hr). cbv beta. reflexivity.
Qed.

Lemma accepts_not_rejected (c : call) : accepts c -> ~ rejected c.
Proof.
  intros (env & creds & log & H) (e & He). apply H. rewrite He. reflexivity.
Qed.

Lemma accepted_shape (c : call) :
  c <> TestConnection -> accepts c ->
  forall env creds, single_request env creds (run env creds c).
Proof.
  intros Hc Ha. destruct (run_shape c Hc) as [Hr|Hs]; [|exact Hs].
  exfalso. exact (accepts_not_rejected c Ha Hr).
Qed.

(** With a credential missing, [request] throws and [fetch] is not
    called. *)
Lemma getAuthHeaders_missing (creds : TenantCredentials) :
  missing creds ->
  getAuthHeaders creds = inl (AuthenticationError (missing_message creds)).
Proof.
  unfold missing, getAuthHeaders, missing_message.
  intros [H|H]; rewrite H; [reflexivity|].
  destruct (blank (accessToken creds)); reflexivity.
Qed.

Lemma request_missing (env : Runtime) (creds : TenantCredentials)
  endpoint options log :
  missing creds ->
  request env creds endpoint options log
  = (inl (AuthenticationError (missing_message creds)), log).
Proof.
  intros H. unfold request. rewrite (getAuthHeaders_missing creds H).
  reflexivity.
Qed.

(** [request] only ever adds to the requests issued. *)
Lemma request_log (env : Runtime) (creds : TenantCredentials)
  endpoint options log :
  snd (request env creds endpoint options log) = log
  \/ exists auth,
       getAuthHeaders creds = inr auth /\
       snd (request env creds endpoint options log)
       = (log ++ [{| url := clientBaseUrl creds ++ endpoint;
                     init := options; headers := auth |}])%list.
Proof.
  unfold request. destruct (getAuthHeaders creds) as [e|auth]; [left; reflexivity|].
  right. exists auth. split; [reflexivity|].
  destruct (fetch env log _); reflexivity.
Qed.

Lemma single_request_fst (env : Runtime) (creds : TenantCredentials)
  (m : M value) :
  single_request env creds m ->
  exists endpoint options post,
    forall log,
      fst (m log)
      = match fst (request env creds endpoint options log) with
        | inl e => inl e
        | inr data => post data
        end
      /\ snd (m log) = snd (request env creds endpoint options log).
Proof.
  intros (ep & opts & post & H). exists ep, opts, post. intros log.
  rewrite H. unfold bind, lift.
  destruct (request env creds ep opts log) as [[e|data] log']; split; reflexivity.
Qed.

End ClientFacts.

(* ===================================================================== *)
(** ** Credential gating and error propagation *)
(* ===================================================================== *)

Module Gate.
Import Js Mapper Entities Text Platform Env Client Reading Samples ClientFacts.

Lemma test_or_not (c : call) : c = TestConnection \/ c <> TestConnection.
Proof. destruct c; (left; reflexivity) || (right; discriminate). Qed.

Lemma validateCredentials_missing (creds : TenantCredentials) :
  missing creds -> exists m, validateCredentials creds = inl (PlainError m).
Proof.
  unfold missing, validateCredentials. intros [H|H]; rewrite H.
  - eexists. reflexivity.
  - destruct (blank (accessToken creds)); eexists; reflexivity.
Qed.

(** What [testConnection] returns, by the outcome of its one request. *)
Lemma testConnection_outcome (env : Runtime) (creds : TenantCredentials) log :
  fst (testConnection env creds log)
  = inr match fst (request env creds "/Organisation" GET log) with
        | inl e => not_connected env e
        | inr data =>
            match and_then (read data "Organisations") read0 with
            | inl e => not_connected env e
            | inr org => connected env org
            end
        end
  /\ snd (testConnection env creds log)
     = snd (request env creds "/Organisation" GET log).
Proof.
  unfold testConnection, try_catch, bind, lift, pure.
  destruct (request env creds "/Organisation" GET log) as [[e|data] log'];
    [split; reflexivity|].
  cbn [fst snd]. unfold and_then at 2.
  destruct (read data "Organisations") as [e|orgs]; [split; reflexivity|].
  cbn [and_then]. destruct (read0 orgs) as [e|org]; split; reflexivity.
Qed.

(** A transport failure reaches the caller of every method but
    [testConnection] unchanged. *)
Lemma failure_propagates (env : Runtime) (creds : TenantCredentials)
  (c : call) (e : error) log :
  c <> TestConnection -> accepts c -> transport_fails env creds e ->
  fst (run env creds c log) = inl e.
Proof.
  intros Hc Ha Hf.
  destruct (single_request_fst env creds _ (accepted_shape c Hc Ha env creds))
    as (ep & opts & post & H).
  destruct (H log) as [H1 _]. rewrite H1, (Hf ep opts log). reflexivity.
Qed.

Lemma missing_transport_fails (env : Runtime) (creds : TenantCredentials) :
  missing creds ->
  transport_fails env creds (AuthenticationError (missing_message creds)).
Proof.
  intros H ep opts log. rewrite (request_missing env creds ep opts log H).
  reflexivity.
Qed.

Lemma no_request_when_missing (env : Runtime) (creds : TenantCredentials)
  (c : call) log :
  missing creds -> snd (run env creds c log) = log.
Proof.
  intros H. destruct (test_or_not c) as [->|Hc].
  - cbn [run]. destruct (testConnection_outcome env creds log) as [_ ->].
    rewrite (request_missing env creds _ _ log H). reflexivity.
  - destruct (run_shape c Hc) as [[e He]|Hs].
    + rewrite He. reflexivity.
    + destruct (single_request_fst env creds _ (Hs env creds))
        as (ep & opts & post & Hr).
      destruct (Hr log) as [_ ->].
      rewrite (request_missing env creds ep opts log H). reflexivity.
Qed.

(** A method that is one call of [request] reaches the network when the
    credentials are complete. *)
Lemma single_request_accepts (c : call) :
  (forall env creds, single_request env creds (run env creds c)) ->
  accepts c.
Proof.
  intros H. exists (engine (Rejected "")), tenant, [].
  destruct (H (engine (Rejected "")) tenant) as (ep & opts & post & E).
  rewrite E. cbv. discriminate.
Qed.

(** The arguments of a method either let it reach [request] or make it
    throw before, whatever the engine and the credentials. *)
Lemma accepts_or_rejected (c : call) :
  c <> TestConnection -> accepts c \/ rejected c.
Proof.
  intros Hc. destruct (run_shape c Hc) as [Hr|Hs]; [right; exact Hr|].
  left. exact (single_request_accepts c Hs).
Qed.

(** C5, as amended. With an empty or absent access token or tenant
    identifier no method issues a request. Every method but
    [testConnection] whose arguments let it build its request fails with
    the missing-credential error, which the code raises as its
    [AuthenticationError] with the message that names the missing header;
    a method whose arguments make it throw while the request is built
    fails with that error instead, the same with and without credentials;
    [testConnection] returns the report [{connected: false, message}];
    and [validateCredentials] rejects the same credentials. *)
Theorem credential_gate (env : Runtime) (creds : TenantCredentials)
  (c : call) (log : list Request) :
  missing creds ->
  snd (run env creds c log) = log
  /\ (exists m, validateCredentials creds = inl (PlainError m))
  /\ (c = TestConnection ->
      fst (run env creds c log)
      = inr (not_connected env
               (AuthenticationError (missing_message creds))))
  /\ (c <> TestConnection -> accepts c ->
      fst (run env creds c log)
      = inl (AuthenticationError (missing_message creds)))
  /\ (c <> TestConnection -> ~ accepts c ->
      exists e, forall env' creds' log',
        run env' creds' c log' = (inl e, log')).
Proof.
  intros H. split; [exact (no_request_when_missing env creds c log H)|].
  split; [exact (validateCredentials_missing creds H)|]. split; [|split].
  - intros ->. cbn [run].
    destruct (testConnection_outcome env creds log) as [-> _].
    rewrite (request_missing env creds _ _ log H). reflexivity.
  - intros Hc Ha.
    exact (failure_propagates env creds c _ log Hc Ha
             (missing_transport_fails env creds H)).
  - intros Hc Hn. destruct (accepts_or_rejected c Hc) as [Ha|Hr];
      [destruct (Hn Ha)|exact Hr].
Qed.

Lemma getContact_accepted : accepts (GetContact "c1").
Proof.
  exists (answering 200 [] one_contact), tenant, [].
  vm_compute. discriminate.
Qed.

Lemma credential_gate_witness :
  missing no_tenant
  /\ accepts (GetContact "c1")
  /\ snd (run (answering 200 [] one_contact) no_tenant (GetContact "c1") []) = []
  /\ fst (run (answering 200 [] one_contact) no_tenant (GetContact "c1") [])
     = inl (AuthenticationError
              "No tenant ID provided. Include X-Xero-Tenant-Id header.").
Proof.
  assert (Hm : missing no_tenant) by (right; reflexivity).
  split; [exact Hm|]. split; [exact getContact_accepted|].
  destruct (credential_gate (answering 200 [] one_contact) no_tenant
              (GetContact "c1") [] Hm) as (H1 & _ & _ & H4 & _).
  split; [exact H1|].
  apply H4; [discriminate|exact getContact_accepted].
Defined.

(** C5 as stated fails on [testConnection]: with an empty tenant
    identifier the call does not fail, it returns a report. It fails as
    well on a method whose argument cannot be mapped: with the same
    credentials [createContact(undefined)] fails with the [TypeError] of
    its mapper, not with the error of the credentials. *)
Lemma testConnection_returns_without_tenant :
  run (answering 200 [] one_organisation) no_tenant TestConnection []
  = (inr (VObj [ ("connected", VBool false);
                 ("message",
                  VStr "No tenant ID provided. Include X-Xero-Tenant-Id header.") ]),
     [])
  /\ run (answering 200 [] one_contact) no_tenant (CreateContact VUndef) []
     = (inl (TypeError (ReadOfNullish VUndef "name")), []).
Proof. split; reflexivity. Qed.




End Gate.

(* ===================================================================== *)
(** ** The facade: singular gets, paginated lists, the account filter *)
(* ===================================================================== *)

Module Facade.
Import Js Mapper Entities Text Platform Env Client Reading Samples.
Import Operations Fixtures.
Import MapperFacts ClientFacts.









(** *** Pagination *)

(** A page is made of the records of the answer, each mapped by the
    callback. *)
Lemma page_result (env : Runtime) (creds : TenantCredentials)
  endpoint options key (f : value -> result value) (params : value)
  log v log' :
  bind (request env creds endpoint options)
       (fun data => lift (and_then (mapped data key f)
                            (fun xs => ok (page_of xs params)))) log
  = (inr v, log') ->
  exists data records items,
    fst (request env creds endpoint options log) = inr data
    /\ read data key = inr (VArr records)
    /\ Forall2 (fun w d => f w = inr d) records items
    /\ v = page_of items params.
Proof.
  unfold bind, lift.
  destruct (request env creds endpoint options log) as [[e|data] l];
    [discriminate|].
  destruct (mapped data key f) as [e|xs] eqn:Hm; cbn [and_then];
    [discriminate|].
  intros H. injection H as <- _. unfold mapped in Hm.
  destruct (read data key) as [e|a] eqn:Hread; [discriminate|].
  cbn [and_then] in Hm.
  destruct a as [| | | | |records|];
    try (destruct (nullish _) in Hm; discriminate Hm).
  exists data, records, xs. split; [reflexivity|]. split; [exact Hread|].
  split; [apply traverse_Forall2; exact Hm|reflexivity].
Qed.

Lemma Forall2_same_length {A B} (P : A -> B -> Prop) (l : list A)
  (l' : list B) :
  Forall2 P l l' -> length l' = length l.
Proof. induction 1; cbn; congruence. Qed.

Lemma hasMoreItems_default (n : nat) :
  Formatters.hasMoreItems (Z.of_nat n) None = (100 <=? n)%nat.
Proof.
  unfold Formatters.hasMoreItems.
  destruct (Nat.leb_spec 100 n); [apply Z.leb_le|apply Z.leb_gt]; lia.
Qed.

(** C7. Whenever a paginated list method returns, its items are the
    records that the answer of its request holds under the envelope key,
    each mapped by the callback of the method, its count is their number,
    and its [hasMore] is true exactly when that number is at least 100 and
    false exactly when it is below 100; the helper [hasMoreItems] computes
    the same flag. *)
Theorem hasMore_iff_full_page (c : call) (params : value) (env : Runtime)
  (creds : TenantCredentials) (log log' : list Request) (v : value) :
  paginated c = Some params ->
  run env creds c log = (inr v, log') ->
  exists key f endpoint data records items,
    listing c = Some (key, f, Some params)
    /\ fst (request env creds endpoint GET log) = inr data
    /\ read data key = inr (VArr records)
    /\ Forall2 (fun w d => f w = inr d) records items
    /\ member v "items" = VArr items
    /\ member v "count" = VNum (of_nat (length records))
    /\ (member v "hasMore" = VBool true <-> 100 <= length records)
    /\ (member v "hasMore" = VBool false <-> length records < 100)
    /\ member v "hasMore"
       = VBool (Formatters.hasMoreItems (Z.of_nat (length records)) None).
Proof.
  intros Hp Hr.
  assert (H : exists key f endpoint data records items,
             listing c = Some (key, f, Some params)
             /\ fst (request env creds endpoint GET log) = inr data
             /\ read data key = inr (VArr records)
             /\ Forall2 (fun w d => f w = inr d) records items
             /\ v = page_of items params).
  { destruct c; cbn [paginated] in Hp; try discriminate;
      injection Hp as <-; cbn [run] in Hr; autounfold with methods in Hr;
      cbn [listing];
      try (destruct (page_result _ _ _ _ _ _ _ _ _ _ Hr)
             as (data & records & items & H1 & H2 & H3 & H4);
           do 3 eexists; exists data, records, items;
           split; [reflexivity|];
           repeat (split; [eassumption|]); exact H4).
    unfold bind at 1 in Hr. unfold lift at 1 in Hr.
    match type of Hr with
    | (match ?r with inl _ => _ | inr _ => _ end) = _ => destruct r as [e|q]
    end; [discriminate|].
    destruct (page_result _ _ _ _ _ _ _ _ _ _ Hr)
      as (data & records & items & H1 & H2 & H3 & H4).
    do 3 eexists. exists data, records, items.
    split; [reflexivity|]. repeat (split; [eassumption|]). exact H4. }
  destruct H as (key & f & ep & data & records & items & Hl & Hd & Hk & Hf & ->).
  exists key, f, ep, data, records, items.
  repeat (split; [assumption|]).
  rewrite hasMoreItems_default.
  pose proof (Forall2_same_length _ _ _ Hf) as Hlen.
  assert (Hh : member (page_of items params) "hasMore"
               = VBool (100 <=? length records)%nat).
  { rewrite <- Hlen. reflexivity. }
  assert (Hc : member (page_of items params) "count"
               = VNum (of_nat (length records))).
  { rewrite <- Hlen. reflexivity. }
  rewrite Hh. split; [reflexivity|]. split; [exact Hc|].
  destruct (Nat.leb_spec 100 (length records)); repeat split;
    try reflexivity; intros; try lia; try discriminate.
Qed.

(** The two sample pages: the number of records the engine answers
    with, and that the call returns. *)
Lemma full_page_count (endpoint : string) (data : value)
  (records : list value) :
  fst (request (serving full_page) tenant endpoint GET []) = inr data ->
  read data "Contacts" = inr (VArr records) ->
  length records = 100.
Proof.
  intros Hd Hk.
  assert (E : fst (request (serving full_page) tenant endpoint GET [])
              = inr full_page) by (vm_compute; reflexivity).
  rewrite E in Hd. injection Hd as <-.
  assert (E' : read full_page "Contacts"
               = inr (VArr (repeat wire_contact 100))) by reflexivity.
  rewrite E' in Hk. assert (Hr : repeat wire_contact 100 = records)
    by congruence.
  rewrite <- Hr. apply repeat_length.
Qed.

Lemma full_page_returns :
  exists v log',
    run (serving full_page) tenant (ListContacts VUndef) [] = (inr v, log').
Proof. eexists. eexists. vm_compute. reflexivity. Qed.

Lemma short_page_count (endpoint : string) (data : value)
  (records : list value) :
  fst (request (answering 200 [] one_contact) tenant endpoint GET [])
  = inr data ->
  read data "Contacts" = inr (VArr records) ->
  length records = 1.
Proof.
  intros Hd Hk.
  assert (E : fst (request (answering 200 [] one_contact) tenant endpoint
                     GET [])
              = inr one_contact) by (vm_compute; reflexivity).
  rewrite E in Hd. injection Hd as <-.
  assert (E' : read one_contact "Contacts" = inr (VArr [wire_contact]))
    by reflexivity.
  rewrite E' in Hk. assert (Hr : [wire_contact] = records) by congruence.
  rewrite <- Hr. reflexivity.
Qed.

Lemma short_page_returns :
  exists v log',
    run (answering 200 [] one_contact) tenant
      (ListContacts (VObj [("page", VNum (of_Z 2))])) [] = (inr v, log').
Proof. eexists. eexists. vm_compute. reflexivity. Qed.

Lemma hasMore_iff_full_page_witness :
  member match fst (run (serving full_page) tenant (ListContacts VUndef) [])
         with
         | inr v => v
         | inl _ => VUndef
         end "hasMore" = VBool true
  /\ member match fst (run (answering 200 [] one_contact) tenant
                         (ListContacts (VObj [("page", VNum (of_Z 2))])) [])
            with
            | inr v => v
            | inl _ => VUndef
            end "hasMore" = VBool false.
Proof.
  split.
  - destruct full_page_returns as (v & log' & Hrun).
    destruct (hasMore_iff_full_page (ListContacts VUndef) VUndef
                (serving full_page) tenant [] log' v eq_refl Hrun)
      as (key & f & ep & data & records & items & Hl & Hd & Hk & _ & _ & _
          & Ht & _).
    rewrite Hrun. cbn [fst].
    apply Ht. injection Hl as <- _.
    rewrite (full_page_count ep data records Hd Hk). apply le_n.
  - destruct short_page_returns as (v & log' & Hrun).
    destruct (hasMore_iff_full_page
                (ListContacts (VObj [("page", VNum (of_Z 2))]))
                (VObj [("page", VNum (of_Z 2))])
                (answering 200 [] one_contact) tenant [] log' v eq_refl Hrun)
      as (key & f & ep & data & records & items & Hl & Hd & Hk & _ & _ & _
          & _ & Hf & _).
    rewrite Hrun. cbn [fst].
    apply Hf. injection Hl as <- _.
    rewrite (short_page_count ep data records Hd Hk). lia.
Defined.

(** *** The account filter *)

Lemma query_suffix_where (v : string) :
  query_suffix (query_toString [("where", v)])
  = "?where=" ++ urlencode v.
Proof. reflexivity. Qed.

(** C9. When [listAccounts] is given a class type, its query holds the
    single parameter [where] with the expression built from the class
    type, whatever [where] filter came with it, and that is the query of
    the request it issues. *)
Theorem listAccounts_class_filter_wins (env : Runtime)
  (creds : TenantCredentials) (params : value) (classType : string)
  (log : list Request) :
  opt_member params "classType" = VStr classType ->
  classType <> "" ->
  accounts_query env params
  = [("where", "Class==" ++ dquote ++ classType ++ dquote)]
  /\ forall auth,
       getAuthHeaders creds = inr auth ->
       snd (run env creds (ListAccounts params) log)
       = (log ++ [ {| url := clientBaseUrl creds ++ "/Accounts?where="
                             ++ urlencode ("Class==" ++ dquote ++ classType
                                           ++ dquote);
                      init := GET;
                      headers := auth |} ])%list.
Proof.
  intros Hc Hne.
  assert (Hq : accounts_query env params
               = [("where", "Class==" ++ dquote ++ classType ++ dquote)]).
  { unfold accounts_query. rewrite Hc. cbn [truthy to_string].
    destruct (String.eqb_spec classType ""); [contradiction|]. cbn [negb].
    unfold set_from. destruct (truthy (opt_member params "where"));
      reflexivity. }
  split; [exact Hq|]. intros auth Ha.
  cbn [run]. unfold listAccounts. rewrite Hq, query_suffix_where.
  unfold bind, lift, request. rewrite Ha.
  destruct (fetch env log _) as [m|r]; [reflexivity|].
  cbn [snd]. destruct (settle env r); reflexivity.
Qed.

Lemma listAccounts_class_filter_wins_witness :
  snd (run (answering 200 [] no_accounts) tenant
         (ListAccounts (VObj [ ("where", VStr "Type==BANK");
                               ("classType", VStr "ASSET") ])) [])
  = [ {| url := "https://api.xero.com/api.xro/2.0/Accounts?where=Class%3D%3D%22ASSET%22";
         init := GET;
         headers := [ ("Authorization", "Bearer token");
                      ("Xero-Tenant-Id", "tenant");
                      ("Content-Type", "application/json");
                      ("Accept", "application/json") ] |} ].
Proof.
  refine (proj2 (listAccounts_class_filter_wins
                   (answering 200 [] no_accounts) tenant
                   (VObj [ ("where", VStr "Type==BANK");
                           ("classType", VStr "ASSET") ])
                   "ASSET" [] eq_refl _) _ eq_refl).
  discriminate.
Defined.

End Facade.

(* ===================================================================== *)
(** ** The transport layer: classification of responses *)
(* ===================================================================== *)

Module Transport.
Import Js Mapper Entities Text Platform Env Client Reading Samples.
Import MapperFacts.


Lemma retry_after_absent (r : Response) :
  headers_get "Retry-After" (response_headers r) = None ->
  retry_after_seconds r = of_Z 60.
Proof. intros H. unfold retry_after_seconds. rewrite H. reflexivity. Qed.

(** A header value that starts with anything but white space, a sign or
    a digit does not parse. *)
Lemma parseInt_no_digit (c : ascii) (rest : string) :
  is_space c = false -> digit_of c = None ->
  c <> "-"%char -> c <> "+"%char ->
  parseInt (String c rest) = NaN.
Proof.
  intros Hs Hd Hm Hp. unfold parseInt. cbn [skip_spaces]. rewrite Hs.
  assert (H : match String c rest with
              | String "-" r => (true, r)
              | String "+" r => (false, r)
              | _ => (false, String c rest)
              end = (false, String c rest)).
  { destruct c as [[] [] [] [] [] [] [] []]; try reflexivity;
      exfalso; (apply Hm; reflexivity) || (apply Hp; reflexivity). }
  rewrite H. cbn [fst snd digits]. rewrite Hd. reflexivity.
Qed.

(** C3, on the code. A 429 response makes [request] fail with the
    rate-limit error; [Retry-After: 30] gives 30 seconds and no header
    gives 60, but a header that does not parse, an HTTP date for
    instance, gives [NaN] and not 60. *)
Theorem rate_limit_retry_after (env : Runtime) (body : string) :
  settle env {| status := 429; response_headers := [("Retry-After", "30")];
                text := body |}
  = inl (RateLimitError "Rate limit exceeded" (of_Z 30))
  /\ settle env {| status := 429; response_headers := []; text := body |}
     = inl (RateLimitError "Rate limit exceeded" (of_Z 60))
  /\ settle env {| status := 429;
                   response_headers := [("Retry-After", http_date)];
                   text := body |}
     = inl (RateLimitError "Rate limit exceeded" NaN).
Proof. repeat split. Qed.

(** *** Error bodies *)










End Transport.

(* ===================================================================== *)
(** ** Sparse output of the [map...ToXero] methods *)
(* ===================================================================== *)

Module Sparse.
Import Js Mapper Entities Reading Samples MapperFacts.





End Sparse.

(* ===================================================================== *)
(** ** The payload of the update methods *)
(* ===================================================================== *)

Module Payload.
Import Js Mapper Entities Text Platform Env Client Reading Samples.
Import ClientFacts MapperFacts.

Lemma stringify_VObj (o : props) : stringify (VObj o) = VObj (written o).
Proof.
  cbn [stringify]. f_equal. induction o as [|[k x] o IH]; [reflexivity|].
  cbn [written flat_map fst snd] in *. rewrite IH.
  destruct x; reflexivity.
Qed.

Lemma stringify_VArr (l : list value) :
  Forall (fun y => defined y = true) l ->
  stringify (VArr l) = VArr (map stringify l).
Proof.
  intros H. cbn [stringify]. f_equal. apply map_ext_in. intros y Hy.
  rewrite Forall_forall in H. specialize (H y Hy).
  destruct y; try reflexivity. discriminate.
Qed.

Lemma stringify_defined (v : value) :
  defined v = true -> defined (stringify v) = true.
Proof. destruct v as [| | |[]| | |]; intros H; try reflexivity; discriminate. Qed.

Lemma stringify_is_json (v : value) :
  defined v = true -> is_json (stringify v) = true.
Proof.
  induction v as [| | b | n | s | l IH | o IH] using value_deep_ind;
    intros H; try reflexivity; try discriminate.
  - destruct n; reflexivity.
  - cbn [stringify is_json]. rewrite forallb_forall. intros y Hy.
    apply in_map_iff in Hy as (x & <- & Hx).
    rewrite Forall_forall in IH. specialize (IH x Hx).
    destruct x; try reflexivity; try (apply IH; reflexivity).
  - rewrite stringify_VObj. cbn [is_json]. rewrite forallb_forall.
    intros [k y] Hy. unfold written in Hy.
    apply in_flat_map in Hy as ([k' x] & Hx & Hy). cbn [fst snd] in *.
    rewrite Forall_forall in IH. specialize (IH (k', x) Hx). cbn [snd] in IH.
    destruct x; cbn [In] in Hy; try contradiction;
      destruct Hy as [[= <- <-]|[]]; apply IH; reflexivity.
Qed.

Lemma written_In (k : string) (y : value) (o : props) :
  In (k, y) (written o) ->
  exists x, In (k, x) o /\ defined x = true /\ y = stringify x.
Proof.
  unfold written. intros H. apply in_flat_map in H as ([k' x] & Hx & Hy).
  cbn [fst snd] in Hy.
  destruct x; cbn [In] in Hy; try contradiction;
    destruct Hy as [[= <- <-]|[]]; eexists; (split; [exact Hx|]);
    split; reflexivity.
Qed.

Lemma written_keys (k : string) (o : props) :
  In k (keys (written o)) ->
  exists x, In (k, x) o /\ defined x = true.
Proof.
  intros H. apply in_map_iff in H as ([k' y] & E & Hy). cbn [fst] in E. subst k'.
  destruct (written_In k y o Hy) as (x & Hx & Hd & _). exists x. tauto.
Qed.

(** *** Object literals *)

Lemma build_inr (parts : list part) (x w : value) :
  build parts x = inr w ->
  exists o, w = VObj o
    /\ Forall2 (fun p kv => part_value x p = inr kv) parts o.
Proof.
  unfold build. destruct (traverse (part_value x) parts) as [e|o] eqn:H;
    [discriminate|].
  intros [= <-]. exists o. split; [reflexivity|].
  apply traverse_Forall2. exact H.
Qed.

Lemma part_value_supplied (x : value) (p : part) (k : string) (y : value) :
  part_value x p = inr (k, y) -> defined y = true ->
  part_name p = k /\ defined (member x (part_source p)) = true.
Proof.
  destruct p as [t f|t f idKey idField]; cbn [part_value part_name part_source];
    unfold read; destruct (nullish x); try discriminate; cbn [and_then ok].
  - intros [= <- <-] H. split; [reflexivity|exact H].
  - intros [= <- <-] H. split; [reflexivity|].
    destruct (member x f); try reflexivity. discriminate.
Qed.

Lemma build_supplied_only (parts : list part) (x w : value) :
  build parts x = inr w -> supplied_only parts x (stringify w).
Proof.
  intros H. destruct (build_inr parts x w H) as (o & -> & Ho).
  rewrite stringify_VObj. exists (written o). split; [reflexivity|].
  intros k Hk. destruct (written_keys k o Hk) as (y & Hy & Hd).
  clear Hk H. induction Ho as [|p kv parts o Hp Ho IH]; [destruct Hy|].
  destruct Hy as [->|Hy].
  - destruct (part_value_supplied x p k y Hp Hd) as [Hn Hs].
    exists p. split; [left; reflexivity|]. split; assumption.
  - destruct (IH Hy) as (p' & Hp' & Hn & Hs). exists p'.
    split; [right; exact Hp'|]. split; assumption.
Qed.

Lemma build_defined (parts : list part) (x w : value) :
  build parts x = inr w -> defined w = true.
Proof.
  intros H. destruct (build_inr parts x w H) as (o & -> & _). reflexivity.
Qed.

(** *** What a rule leaves in the payload *)

Lemma payload_faithful (r : rule) (v w : value) :
  payload_value r v = inr w -> defined w = true ->
  faithful r v (stringify w).
Proof.
  unfold payload_value, faithful. destruct (what r) as [|idKey idField|parts|parts].
  - intros [= <-] _. reflexivity.
  - intros H _. change (supplied_only [Plain idKey idField] v (stringify w)).
    apply build_supplied_only. unfold build. cbn [traverse part_value].
    destruct (read v idField) as [e|i]; [discriminate|].
    cbn [and_then] in *. injection H as <-. reflexivity.
  - intros H _. exact (build_supplied_only parts v w H).
  - intros H _. unfold array_map in H.
    destruct v as [| | | | |xs|]; try discriminate.
    destruct (traverse (build parts) xs) as [e|ys] eqn:Hys; [discriminate|].
    cbn [and_then] in H. injection H as <-.
    apply traverse_Forall2 in Hys.
    exists xs, (map stringify ys). split; [reflexivity|]. split.
    + apply stringify_VArr. clear - Hys.
      induction Hys as [|x y xs ys Hy _ IH]; constructor;
        [exact (build_defined parts x y Hy)|exact IH].
    + clear - Hys. induction Hys as [|x y xs ys Hy _ IH]; cbn [map];
        constructor; [exact (build_supplied_only parts x y Hy)|exact IH].
Qed.

Lemma emitted_In (src : value) (rules : list rule) (parts : list props)
  (k : string) (w : value) :
  traverse (emitted src) rules = inr parts ->
  In (k, w) (concat parts) ->
  exists r, In r rules /\ key r = k
            /\ passes (when r) (member src (field r)) = true
            /\ payload_value r (member src (field r)) = inr w.
Proof.
  revert parts. induction rules as [|r rules IH]; intros parts H Hin.
  - injection H as <-. destruct Hin.
  - destruct (traverse_inr_cons _ _ _ _ H) as (p & ps & Hp & Hps & ->).
    cbn [concat] in Hin. apply in_app_or in Hin as [Hin|Hin].
    + apply emitted_inr in Hp as [_ Hp].
      destruct (passes (when r) (member src (field r))) eqn:Hpass.
      * destruct Hp as (w' & Hw & ->). destruct Hin as [[= <- <-]|[]].
        exists r. repeat split; try assumption. left. reflexivity.
      * subst p. destruct Hin.
    + destruct (IH ps Hps Hin) as (r' & Hr' & Hrest). exists r'.
      split; [right; exact Hr'|exact Hrest].
Qed.

Lemma passes_defined (g : guard) (v : value) :
  passes g v = true -> defined v = true.
Proof. destruct g, v; intros H; try reflexivity; discriminate. Qed.

Lemma lookup_assign_other (k k' : string) (v : value) (o : props) :
  k <> k' -> lookup k (assign k' v o) = lookup k o.
Proof.
  intros Hne. induction o as [|[k0 v0] o IH]; cbn [assign lookup].
  - rewrite (eqb_false_of_neq _ _ Hne). reflexivity.
  - destruct (String.eqb_spec k' k0) as [->|Hne'].
    + cbn [lookup]. rewrite (eqb_false_of_neq _ _ Hne). reflexivity.
    + cbn [lookup]. rewrite IH. reflexivity.
Qed.

Lemma assign_In (k k' : string) (v x : value) (o : props) :
  In (k, x) (assign k' v o) -> k = k' \/ In (k, x) o.
Proof.
  induction o as [|[k0 v0] o IH]; cbn [assign In].
  - intros [[= <- <-]|[]]. left. reflexivity.
  - destruct (k' =? k0) eqn:E.
    + intros [[= <- <-]|H]; [left; reflexivity|]. right. right. exact H.
    + intros [H|H]; [right; left; exact H|].
      destruct (IH H) as [->|H']; [left; reflexivity|right; right; exact H'].
Qed.

Lemma assign_keys_NoDup (k : string) (v : value) (o : props) :
  NoDup (keys o) -> NoDup (keys (assign k v o)).
Proof.
  intros H. destruct (in_dec string_dec k (keys o)) as [Hin|Hout].
  - assert (E : keys (assign k v o) = keys o).
    { clear H. induction o as [|[k0 v0] o IH]; [destruct Hin|].
      cbn [assign]. destruct (String.eqb_spec k k0) as [->|Hne]; [reflexivity|].
      cbn [keys map fst]. f_equal. apply IH.
      destruct Hin as [E|Hin]; [exfalso; apply Hne; symmetry; exact E|exact Hin]. }
    rewrite E. exact H.
  - rewrite (assign_fresh k v o Hout), keys_app.
    apply NoDup_app; [exact H|repeat constructor; intros []|].
    intros a Ha [<-|[]]. exact (Hout Ha).
Qed.

(** A record built by a table and written by [JSON.stringify], with the
    identity property a method may add. *)
Lemma written_record (rules : list rule) (x xero : value)
  (idk : option string) (idv : string) :
  NoDup (map key rules) ->
  (forall r, In r rules -> idk <> Some (key r)) ->
  toWire rules x = inr xero ->
  exists o,
    stringify match idk with
              | Some k => with_property xero k (VStr idv)
              | None => xero
              end = VObj o
    /\ (forall k, In k (keys o) ->
          idk = Some k
          \/ exists r, In r rules /\ key r = k
                       /\ defined (member x (field r)) = true)
    /\ (forall r y, In r rules -> lookup (key r) o = Some y ->
          faithful r (member x (field r)) y).
Proof.
  intros Hnd Hid Hx.
  destruct (toWire_inr rules x xero Hnd Hx) as (parts & Hp & ->).
  pose proof (emitted_keys x rules parts Hp) as Hkeys.
  assert (Hnd0 : NoDup (keys (concat parts))).
  { rewrite Hkeys. clear - Hnd. induction rules as [|r rules IH]; [constructor|].
    cbn [map] in Hnd. inversion Hnd as [|? ? Hr Hnd']; subst. cbn [filter].
    destruct (passes (when r) (member x (field r))); [|exact (IH Hnd')].
    cbn [map]. constructor; [|exact (IH Hnd')].
    intros Hin. apply Hr. apply in_map_iff in Hin as (r' & E & Hr').
    apply filter_In in Hr' as [Hr' _]. rewrite <- E. apply in_map. exact Hr'. }
  set (o := match idk with
            | Some k => assign k (VStr idv) (concat parts)
            | None => concat parts
            end).
  assert (Ho : match idk with
               | Some k => with_property (VObj (concat parts)) k (VStr idv)
               | None => VObj (concat parts)
               end = VObj o) by (destruct idk; reflexivity).
  rewrite Ho, stringify_VObj. exists (written o). split; [reflexivity|].
  assert (Hsrc : forall k w, In (k, w) o ->
                 idk = Some k \/ In (k, w) (concat parts)).
  { intros k w Hin. subst o. destruct idk as [k'|]; [|right; exact Hin].
    destruct (assign_In k k' _ w _ Hin) as [->|H]; [left; reflexivity|right; exact H]. }
  assert (Hndo : NoDup (keys o)).
  { subst o. destruct idk; [apply assign_keys_NoDup|]; exact Hnd0. }
  split.
  - intros k Hk. destruct (written_keys k o Hk) as (w & Hw & Hd).
    destruct (Hsrc k w Hw) as [E|Hin]; [left; exact E|right].
    destruct (emitted_In x rules parts k w Hp Hin) as (r & Hr & Hk' & Hpass & _).
    exists r. split; [exact Hr|]. split; [exact Hk'|].
    exact (passes_defined _ _ Hpass).
  - intros r y Hr Hy. apply lookup_Some_In in Hy.
    destruct (written_In _ y o Hy) as (w & Hw & Hd & ->).
    destruct (Hsrc _ w Hw) as [E|Hin]; [exfalso; exact (Hid r Hr E)|].
    destruct (emitted_In x rules parts _ w Hp Hin) as (r' & Hr' & Hk' & _ & Hpay).
    assert (r' = r).
    { clear - Hnd Hr Hr' Hk'. induction rules as [|r0 rules IH]; [destruct Hr|].
      cbn [map] in Hnd. inversion Hnd as [|? ? Hr0 Hnd']; subst.
      destruct Hr as [->|Hr], Hr' as [->|Hr'].
      - reflexivity.
      - exfalso. apply Hr0. rewrite <- Hk'. apply in_map. exact Hr'.
      - exfalso. apply Hr0. rewrite Hk'. apply in_map. exact Hr.
      - exact (IH Hnd' Hr Hr'). }
    subst r'. exact (payload_faithful r _ w Hpay Hd).
Qed.

(** *** The request of an update *)

Lemma skipn_own {A} (l : list A) (x : A) : skipn (length l) (l ++ [x]) = [x].
Proof. induction l as [|a l IH]; [reflexivity|exact IH]. Qed.

Lemma skipn_all_of {A} (l : list A) : skipn (length l) l = [].
Proof. induction l as [|a l IH]; [reflexivity|exact IH]. Qed.

Lemma sent_by_update (env : Runtime) (creds : TenantCredentials)
  (pre : result value) (endpoint : string) (payload : value -> RequestInit)
  (post : value -> result value) (log : list Request) (req : Request) :
  In req (skipn (length log)
            (snd (bind (lift pre)
                       (fun xero =>
                          bind (request env creds endpoint (payload xero))
                               (fun data => lift (post data))) log))) ->
  exists xero, pre = inr xero /\ init req = payload xero.
Proof.
  unfold bind at 1. unfold lift at 1. destruct pre as [e|xero].
  - cbn [snd]. rewrite skipn_all_of. intros [].
  - intros H. exists xero. split; [reflexivity|].
    unfold bind, lift, request in H.
    destruct (getAuthHeaders creds) as [e|auth].
    + cbn [snd] in H. rewrite skipn_all_of in H. destruct H.
    + destruct (fetch env log _) as [m|r]; [|destruct (settle env r)];
        cbn [snd] in H; rewrite skipn_own in H;
        destruct H as [<-|[]]; reflexivity.
Qed.

Lemma wrapped_record (k : string) (x : value) (o : props) :
  stringify x = VObj o ->
  stringify (wrap k x) = VObj [(k, VArr [VObj o])]
  /\ record_in (Some k) (stringify (wrap k x)) = Some o.
Proof.
  intros H. assert (E : stringify (wrap k x) = VObj [(k, VArr [VObj o])]).
  { unfold wrap, literal. rewrite stringify_VObj.
    cbn [written flat_map fst snd app]. cbn [stringify map].
    destruct x; try (rewrite <- H; reflexivity).
    cbn in H. discriminate. }
  split; [exact E|]. rewrite E. cbn [record_in]. rewrite String.eqb_refl.
  reflexivity.
Qed.

Lemma not_a_key (idk : string) (rules : list rule) :
  forallb (fun r => negb (key r =? idk)) rules = true ->
  forall r, In r rules -> Some idk <> Some (key r).
Proof.
  intros H r Hr [= E]. rewrite forallb_forall in H. specialize (H r Hr).
  rewrite E, String.eqb_refl in H. discriminate.
Qed.

(** The document an update method sends for a record built by a table. *)
Lemma update_payload (rules : list rule) (x xero : value)
  (idk : option string) (idv : string) (env : option string) :
  NoDup (map key rules) ->
  (forall r, In r rules -> idk <> Some (key r)) ->
  toWire rules x = inr xero ->
  let record := match idk with
                | Some k => with_property xero k (VStr idv)
                | None => xero
                end in
  let doc := stringify match env with
                       | Some k => wrap k record
                       | None => record
                       end in
  exists o,
    is_json doc = true
    /\ record_in env doc = Some o
    /\ (forall k, In k (keys o) ->
          idk = Some k
          \/ exists f, In (k, f) (provenance (inl rules))
                       /\ defined (member x f) = true)
    /\ (forall rules' r y,
          @inl (list rule) (list part) rules = inl rules' -> In r rules' ->
          lookup (key r) o = Some y ->
          faithful r (member x (field r)) y).
Proof.
  intros Hnd Hid Hx record doc.
  destruct (written_record rules x xero idk idv Hnd Hid Hx)
    as (o & Ho & Hkeys & Hfaith).
  fold record in Ho. exists o.
  assert (Hdoc : is_json doc = true /\ record_in env doc = Some o).
  { subst doc. destruct env as [k|].
    - destruct (wrapped_record k record o Ho) as [E Hr]. split; [|exact Hr].
      apply stringify_is_json. reflexivity.
    - rewrite Ho. split; [|reflexivity]. rewrite <- Ho.
      apply stringify_is_json. subst record.
      destruct (toWire_inr rules x xero Hnd Hx) as (parts & _ & ->).
      destruct idk; reflexivity. }
  destruct Hdoc as [Hj Hr]. split; [exact Hj|]. split; [exact Hr|]. split.
  - intros k Hk. destruct (Hkeys k Hk) as [E|(r & Hr' & Hkr & Hd)];
      [left; exact E|right].
    exists (field r). split; [|exact Hd]. cbn [provenance].
    apply in_map_iff. exists r. split; [rewrite Hkr; reflexivity|exact Hr'].
  - intros rules' r y [= <-] Hr' Hy. exact (Hfaith r y Hr' Hy).
Qed.

Ltac by_table K E :=
  match goal with
  | Hx : _ ?x = inr ?xero |- _ =>
      apply (update_payload (rules K) x xero None "" E);
      [ apply (kind_keys_NoDup K); cbn; tauto
      | intros ? ? ?; discriminate
      | exact Hx ]
  end.

Ltac by_table_with K I E :=
  match goal with
  | Hx : _ ?x = inr ?xero |- context [with_property _ _ (VStr ?i)] =>
      apply (update_payload (rules K) x xero (Some I) i E);
      [ apply (kind_keys_NoDup K); cbn; tauto
      | apply not_a_key; vm_compute; reflexivity
      | exact Hx ]
  end.

(** C8. Whatever an update method sends, the wire record in its body
    holds only properties the caller supplied: each key is the identity
    the method adds from its own identifier argument or the wire key of an
    entity field that is not undefined, the nested objects (references,
    sub-objects, line items) hold only keys whose source field is not
    undefined, and the document holds no [undefined] anywhere. *)
Theorem update_sends_only_supplied (c : call) (u : update) (env : Runtime)
  (creds : TenantCredentials) (log : list Request) (req : Request) :
  updating c = Some u ->
  In req (sent env creds c log) ->
  exists doc o,
    body (init req) = Some doc
    /\ is_json doc = true
    /\ record_in (envelope u) doc = Some o
    /\ (forall k, In k (keys o) ->
          identity u = Some k
          \/ exists f, In (k, f) (provenance (table u))
                       /\ defined (member (entity u) f) = true)
    /\ (forall rules r y,
          table u = inl rules -> In r rules ->
          lookup (key r) o = Some y ->
          faithful r (member (entity u) (field r)) y).
Proof.
  intros Hu Hin. unfold sent in Hin.
  destruct c; cbn [updating] in Hu; try discriminate; injection Hu as <-;
    cbn [run] in Hin; autounfold with methods in Hin;
    destruct (sent_by_update _ _ _ _ _ _ _ _ Hin) as (xero & Hx & ->);
    cbn [body POST entity table identity envelope];
    match goal with
    | |- exists doc o, Some ?d = Some doc /\ @?P doc o =>
        let H := fresh "H" in
        assert (H : exists o, P d o);
        [ cbv beta
        | destruct H as [o H]; exists d, o; split; [reflexivity|exact H] ]
    end.
  - by_table contact_kind (Some "Contacts").
  - by_table account_kind (@None string).
  - by_table_with invoice_kind "InvoiceID" (Some "Invoices").
  - by_table credit_note_kind (Some "CreditNotes").
  - by_table_with bank_transaction_kind "BankTransactionID"
      (Some "BankTransactions").
  - by_table item_kind (Some "Items").
  - by_table purchase_order_kind (Some "PurchaseOrders").
  - by_table quote_kind (Some "Quotes").
  - by_table manual_journal_kind (Some "ManualJournals").
  - by_table tax_rate_kind (Some "TaxRates").
  - by_table repeating_invoice_kind (Some "RepeatingInvoices").
  - destruct (build_supplied_only _ _ _ Hx) as (o & Ho & Hk).
    exists o. split.
    { apply stringify_is_json. exact (build_defined _ _ _ Hx). }
    split; [rewrite Ho; reflexivity|]. split.
    + intros k Hin'. right. destruct (Hk k Hin') as (p & Hp & Hn & Hd).
      exists (part_source p). split; [|exact Hd]. cbn [provenance].
      apply in_map_iff. exists p. split; [rewrite Hn; reflexivity|exact Hp].
    + intros rules r y [=].
Qed.

Lemma update_sends_only_supplied_witness :
  exists doc o,
    body (init {| url := "https://api.xero.com/api.xro/2.0/Invoices/i1";
                  init := POST (wrap "Invoices"
                                  (VObj [ ("Reference", VStr "PO-7");
                                          ("InvoiceID", VStr "i1") ]));
                  headers := [ ("Authorization", "Bearer token");
                               ("Xero-Tenant-Id", "tenant");
                               ("Content-Type", "application/json");
                               ("Accept", "application/json") ] |})
    = Some doc
    /\ is_json doc = true
    /\ record_in (Some "Invoices") doc = Some o
    /\ keys o = ["Reference"; "InvoiceID"].
Proof.
  destruct (update_sends_only_supplied
              (UpdateInvoice "i1"
                 (VObj [ ("reference", VStr "PO-7"); ("dueDate", VUndef);
                         ("status", VStr "") ]))
              _ (answering 200 [] one_invoice) tenant []
              _ eq_refl (or_introl eq_refl))
    as (doc & o & Hb & Hj & Hr & _).
  exists doc, o. split; [exact Hb|]. split; [exact Hj|].
  cbn [envelope] in Hr. split; [exact Hr|].
  vm_compute in Hb. injection Hb as <-. vm_compute in Hr.
  injection Hr as <-. reflexivity.
Defined.

End Payload.

(* ===================================================================== *)
(** ** Round trips between the wire and the domain *)
(* ===================================================================== *)

Module RoundTrip.
Import Js Mapper Entities Reading Samples MapperFacts Payload.

(** *** Lookups in mapped lists *)

Lemma lookup_map {A} (g : A -> string) (h : A -> value) (k : string)
  (l : list A) :
  lookup k (map (fun a => (g a, h a)) l)
  = option_map h (find (fun a => k =? g a) l).
Proof.
  induction l as [|a l IH]; cbn [map lookup find]; [reflexivity|].
  destruct (k =? g a); [reflexivity|exact IH].
Qed.

Lemma find_distinct {A} (g : A -> string) (l : list A) (a : A) :
  distinct (map g l) = true -> In a l ->
  find (fun a' => g a =? g a') l = Some a.
Proof.
  induction l as [|b l IH]; cbn [map distinct find]; intros Hd Hin;
    [destruct Hin|].
  apply andb_true_iff in Hd as [Hb Hd]. destruct Hin as [->|Hin].
  - rewrite String.eqb_refl. reflexivity.
  - destruct (String.eqb_spec (g a) (g b)) as [E|_]; [|exact (IH Hd Hin)].
    exfalso. apply negb_true_iff in Hb.
    assert (Hex : existsb (String.eqb (g b)) (map g l) = true).
    { apply existsb_eqb_In. rewrite <- E. apply in_map. exact Hin. }
    rewrite Hex in Hb. discriminate.
Qed.

Lemma find_by_key {A} (g : A -> string) (l : list A) (a : A) (k : string) :
  distinct (map g l) = true -> In a l -> g a = k ->
  find (fun a' => k =? g a') l = Some a.
Proof. intros Hd Hin <-. exact (find_distinct g l a Hd Hin). Qed.

(** *** Object literals of plain properties *)

Lemma build_plain (parts : list part) (y : value) :
  forallb plain parts = true -> nullish y = false ->
  build parts y = inr (image parts y).
Proof.
  intros Hp Hy. unfold build, image.
  assert (H : traverse (part_value y) parts
              = inr (map (fun p => (part_name p, member y (part_source p))) parts)).
  { induction parts as [|p parts IH]; [reflexivity|].
    cbn [forallb] in Hp. apply andb_true_iff in Hp as [Hp Hps].
    cbn [traverse map]. rewrite (IH Hps).
    destruct p as [t f|]; [|discriminate]. cbn [part_value part_name part_source].
    rewrite (read_present y f Hy). reflexivity. }
  rewrite H. reflexivity.
Qed.

Lemma copies_plain (elem : list (string * string)) :
  forallb plain (copies elem) = true.
Proof. induction elem as [|b elem IH]; [reflexivity|exact IH]. Qed.

Lemma pick_present (y : value) (back : list (string * string)) :
  nullish y = false ->
  pick y back = VObj (map (fun b => (fst b, member y (snd b))) back).
Proof.
  intros Hy. unfold pick. f_equal. apply map_ext. intros b.
  unfold opt_member. rewrite Hy. reflexivity.
Qed.

Lemma read_back_inv (parts : list part) (back : list (string * string)) :
  read_back parts back = true ->
  forallb plain parts = true
  /\ distinct (map part_name parts) = true
  /\ distinct (map fst back) = true
  /\ forall p, In p parts ->
       exists b, In b back /\ fst b = part_source p /\ snd b = part_name p.
Proof.
  unfold read_back. intros H.
  apply andb_true_iff in H as [H Hall].
  apply andb_true_iff in H as [H Hdb].
  apply andb_true_iff in H as [Hpl Hdp].
  repeat split; try assumption.
  intros p Hp. rewrite forallb_forall in Hall. specialize (Hall p Hp).
  apply existsb_exists in Hall as (b & Hb & Hall).
  apply andb_true_iff in Hall as [E1 E2].
  apply String.eqb_eq in E1, E2. exists b. repeat split; assumption.
Qed.

(** Reading an image back through [back] and building it again gives
    the same image. *)
Lemma member_pick_image (parts : list part) (back : list (string * string))
  (y : value) (p : part) :
  read_back parts back = true -> In p parts ->
  member (pick (image parts y) back) (part_source p)
  = member y (part_source p).
Proof.
  intros H Hp. destruct (read_back_inv parts back H) as (_ & Hdp & Hdb & Hall).
  destruct (Hall p Hp) as (b & Hb & Hf & Hs).
  rewrite (pick_present (image parts y) back eq_refl). cbn [member].
  rewrite (lookup_map fst (fun b => member (image parts y) (snd b))).
  rewrite (find_by_key fst back b (part_source p) Hdb Hb Hf).
  cbn [option_map]. rewrite Hs. unfold image. cbn [member].
  rewrite (lookup_map part_name (fun p => member y (part_source p))).
  rewrite (find_by_key part_name parts p (part_name p) Hdp Hp eq_refl).
  reflexivity.
Qed.

Lemma rebuild (parts : list part) (back : list (string * string)) (y : value) :
  read_back parts back = true ->
  build parts (pick (image parts y) back) = inr (image parts y).
Proof.
  intros H. destruct (read_back_inv parts back H) as (Hpl & _).
  rewrite (build_plain parts (pick (image parts y) back) Hpl eq_refl). f_equal. unfold image.
  f_equal. apply map_ext_in. intros p Hp. f_equal.
  exact (member_pick_image parts back y p H Hp).
Qed.

Lemma image_copies (elem : list (string * string)) (y : value) :
  nullish y = false -> image (copies elem) y = pick y elem.
Proof.
  intros Hy. rewrite (pick_present y elem Hy). unfold image, copies.
  rewrite map_map. reflexivity.
Qed.

Lemma build_image (parts : list part) (y z : value) :
  forallb plain parts = true -> build parts y = inr z -> z = image parts y.
Proof.
  intros Hp. unfold build, image.
  destruct (traverse (part_value y) parts) as [e|l] eqn:E; [discriminate|].
  intros H. injection H as <-. f_equal.
  revert l E. induction parts as [|p parts IH]; intros l E.
  - injection E as <-. reflexivity.
  - cbn [forallb] in Hp. apply andb_true_iff in Hp as [Hp Hps].
    destruct (traverse_inr_cons _ _ _ _ E) as (kv & l' & Hkv & Hl & ->).
    cbn [map]. rewrite (IH Hps l' Hl). f_equal.
    destruct p as [t f|]; [|discriminate]. cbn [part_value] in Hkv.
    destruct (read y f) as [e|v] eqn:Er; [discriminate|].
    apply read_inr in Er as [_ ->]. injection Hkv as <-. reflexivity.
Qed.

(** *** Traversals *)

Lemma traverse_map {A B} (f : A -> result B) (g : A -> B) (l : list A) :
  (forall a, In a l -> f a = inr (g a)) -> traverse f l = inr (map g l).
Proof.
  induction l as [|a l IH]; intros H; [reflexivity|].
  cbn [traverse map]. rewrite (H a (or_introl eq_refl)).
  rewrite IH; [reflexivity|]. intros b Hb. apply H. right. exact Hb.
Qed.

Lemma traverse_ext {A B} (f g : A -> result B) (l : list A) :
  (forall a, In a l -> f a = g a) -> traverse f l = traverse g l.
Proof.
  induction l as [|a l IH]; intros H; [reflexivity|].
  cbn [traverse]. rewrite (H a (or_introl eq_refl)).
  rewrite IH; [reflexivity|]. intros b Hb. apply H. right. exact Hb.
Qed.

Lemma traverse_all {A B} (f : A -> result B) (l : list A) :
  (forall a, In a l -> exists b, f a = inr b) ->
  exists bs, traverse f l = inr bs.
Proof.
  induction l as [|a l IH]; intros H; [exists []; reflexivity|].
  destruct (H a (or_introl eq_refl)) as (b & Hb).
  destruct IH as (bs & Hbs); [intros c Hc; apply H; right; exact Hc|].
  exists (b :: bs). cbn [traverse]. rewrite Hb, Hbs. reflexivity.
Qed.

Lemma traverse_build (parts : list part) (l ys : list value) :
  forallb plain parts = true ->
  traverse (build parts) l = inr ys -> ys = map (image parts) l.
Proof.
  intros Hp. revert ys. induction l as [|y l IH]; intros ys H.
  - injection H as <-. reflexivity.
  - destruct (traverse_inr_cons _ _ _ _ H) as (z & zs & Hz & Hzs & ->).
    cbn [map]. rewrite (IH zs Hzs), (build_image parts y z Hp Hz).
    reflexivity.
Qed.

Lemma traverse_images (parts inner : list part) (l : list value) :
  forallb plain parts = true ->
  traverse (build parts) (map (image inner) l)
  = inr (map (image parts) (map (image inner) l)).
Proof.
  intros Hp. apply traverse_map. intros a Ha.
  apply in_map_iff in Ha as (y & <- & _).
  exact (build_plain parts (image inner y) Hp eq_refl).
Qed.

Lemma traverse_rebuild (parts : list part) (elem : list (string * string))
  (ys : list value) :
  read_back parts elem = true ->
  traverse (build parts)
           (map (image (copies elem)) (map (image parts) ys))
  = inr (map (image parts) ys).
Proof.
  intros H. induction ys as [|y ys IH]; [reflexivity|].
  cbn [map traverse]. rewrite IH.
  rewrite (image_copies elem (image parts y) eq_refl).
  rewrite (rebuild parts elem y H). reflexivity.
Qed.

(** *** What a [map...] method reads *)

Lemma emitted_emits (od : props) (r : rule) :
  emitted (VObj od) r = emits r (member (VObj od) (field r)).
Proof. reflexivity. Qed.

Lemma passes_undefined (g : guard) : passes g VUndef = false.
Proof. destruct g; reflexivity. Qed.

Lemma reader_value_field (b : bool) (w : value) (rd : reader) (f : string)
  (v : value) :
  reader_value b w rd = inr (f, v) -> f = reader_field rd.
Proof.
  destruct rd as [g k|g k back|g k back|g k via elem];
    cbn [reader_value reader_field].
  - intros H. injection H as <- _. reflexivity.
  - intros H. injection H as <- _. reflexivity.
  - intros H. injection H as <- _. reflexivity.
  - destruct (nullish (member w k)).
    + intros H. injection H as <- _. reflexivity.
    + destruct via as [m|]; [destruct b; [|discriminate]|];
        (destruct (array_map k (build (copies elem)) (member w k));
         [discriminate|]); intros H; injection H as <- _; reflexivity.
Qed.

Lemma read_fields (b : bool) (w : value) (readers : list reader)
  (od : props) (f : string) :
  traverse (reader_value b w) readers = inr od ->
  match find_reader f readers with
  | Some rd => exists v, reader_value b w rd = inr (f, v)
                         /\ lookup f od = Some v
  | None => lookup f od = None
  end.
Proof.
  revert od. induction readers as [|rd readers IH]; intros od H.
  - injection H as <-. reflexivity.
  - destruct (traverse_inr_cons _ _ _ _ H) as ([f' v] & od' & Hrd & Hrest & ->).
    pose proof (reader_value_field _ _ _ _ _ Hrd) as ->.
    unfold find_reader. cbn [find lookup]. rewrite (String.eqb_sym f).
    destruct (String.eqb_spec (reader_field rd) f) as [E|_].
    + subst f. exists v. split; [exact Hrd|reflexivity].
    + exact (IH od' Hrest).
Qed.

Lemma fromWire_inr (first : string) (readers : list reader) (b : bool)
  (w d : value) :
  fromWire first readers b w = inr d ->
  nullish w = false
  /\ exists od, traverse (reader_value b w) readers = inr od /\ d = VObj od.
Proof.
  unfold fromWire. destruct (nullish w); [discriminate|].
  destruct (traverse (reader_value b w) readers) as [e|od]; [discriminate|].
  intros H. injection H as <-. split; [reflexivity|].
  exists od. split; reflexivity.
Qed.

Lemma reader_value_absent (b : bool) (x : value) (rd : reader) :
  member x (reader_key rd) = VUndef ->
  exists v, reader_value b x rd = inr (reader_field rd, v).
Proof.
  destruct rd as [g k|g k back|g k back|g k via elem];
    cbn [reader_value reader_field reader_key]; intros ->; cbn;
    eexists; reflexivity.
Qed.

Lemma items_read (f k : string) (via : option string)
  (elem : list (string * string)) (w v : value) (g : string) :
  reader_value true w (Items f k via elem) = inr (g, v) ->
  (nullish (member w k) = true /\ v = VUndef)
  \/ exists xs, member w k = VArr xs
                /\ v = VArr (map (image (copies elem)) xs).
Proof.
  cbn [reader_value]. destruct (nullish (member w k)) eqn:En.
  - intros H. injection H as _ <-. left. split; reflexivity.
  - intros H. right.
    assert (Ha : exists l, array_map k (build (copies elem)) (member w k)
                           = inr l /\ v = l).
    { destruct via as [m|];
        (destruct (array_map k (build (copies elem)) (member w k)) as [e|l];
         [discriminate|]); injection H as _ <-; exists l; split; reflexivity. }
    destruct Ha as (l & Hl & ->).
    destruct (member w k) as [| | | | |xs|]; try discriminate Hl.
    cbn [array_map] in Hl.
    destruct (traverse (build (copies elem)) xs) as [e|ys] eqn:Et;
      [discriminate|].
    injection Hl as <-. exists xs. split; [reflexivity|].
    f_equal. exact (traverse_build _ _ _ (copies_plain elem) Et).
Qed.

Lemma items_of_images (f k : string) (via : option string)
  (elem : list (string * string)) (x : value) (inner : list part)
  (l : list value) :
  member x k = VArr (map (image inner) l) ->
  reader_value true x (Items f k via elem)
  = inr (f, VArr (map (image (copies elem)) (map (image inner) l))).
Proof.
  intros H. cbn [reader_value]. rewrite H. cbn [nullish array_map].
  rewrite (traverse_images (copies elem) inner l (copies_plain elem)).
  destruct via; reflexivity.
Qed.

(** *** One statement and the reader of its field *)

Lemma nested_payload (r : rule) (back : list (string * string)) :
  match what r with
  | Ref idKey idField =>
      distinct (map fst back)
      && existsb (fun b => (fst b =? idField) && (snd b =? idKey)) back
  | Obj parts => read_back parts back
  | _ => false
  end = true ->
  exists parts, read_back parts back = true
                /\ forall v, payload_value r v = build parts v.
Proof.
  unfold payload_value. destruct (what r) as [|idKey idField|parts|parts];
    try discriminate; intros H.
  - exists [Plain idKey idField]. split.
    + apply andb_true_iff in H as [Hd He]. unfold read_back.
      cbn. rewrite Hd, He. reflexivity.
    + intros v. unfold build. cbn. destruct (read v idField); reflexivity.
  - exists parts. split; [exact H|reflexivity].
Qed.

Lemma expand_round (r : rule) (back : list (string * string)) (c x : value) :
  when r = IfTruthy ->
  match what r with
  | Ref idKey idField =>
      distinct (map fst back)
      && existsb (fun b => (fst b =? idField) && (snd b =? idKey)) back
  | Obj parts => read_back parts back
  | _ => false
  end = true ->
  exists p, emits r (pick c back) = inr p
    /\ (member x (key r) = member (VObj p) (key r) ->
        truthy (member x (key r)) = true
        /\ emits r (pick (member x (key r)) back) = inr p)
    /\ what r <> Copy.
Proof.
  intros Hw Hn.
  assert (Hc : what r <> Copy) by (intros E; rewrite E in Hn; discriminate).
  destruct (nested_payload r back Hn) as (parts & Hrb & Hpay).
  destruct (read_back_inv parts back Hrb) as (Hpl & _).
  exists [(key r, image parts (pick c back))].
  assert (He : forall y, emits r (pick (image parts y) back)
                         = inr [(key r, image parts y)]).
  { intros y. unfold emits. rewrite Hw. cbn [passes pick truthy].
    rewrite Hpay. fold (pick (image parts y) back).
    rewrite (rebuild parts back y Hrb). reflexivity. }
  split; [|split; [|exact Hc]].
  - unfold emits. rewrite Hw. cbn [passes pick truthy]. rewrite Hpay.
    fold (pick c back).
    rewrite (build_plain parts (pick c back) Hpl eq_refl). reflexivity.
  - cbn [member lookup]. rewrite String.eqb_refl. intros ->.
    split; [reflexivity|apply He].
Qed.

Lemma agrees_key (readers : list reader) (r : rule) (rd : reader) :
  find_reader (field r) readers = Some rd -> agrees readers r = true ->
  reader_key rd = key r.
Proof.
  intros Hf Hag. unfold agrees in Hag. rewrite Hf in Hag.
  destruct rd; cbn [reader_key];
    repeat (apply andb_true_iff in Hag as [Hag ?]);
    apply String.eqb_eq; assumption.
Qed.

Lemma rule_round (readers : list reader) (r : rule) (rd : reader)
  (w v : value) :
  find_reader (field r) readers = Some rd ->
  agrees readers r = true ->
  reader_value true w rd = inr (field r, v) ->
  exists p, emits r v = inr p
    /\ forall x, member x (key r) = member (VObj p) (key r) ->
       exists v', reader_value true x rd = inr (field r, v')
                  /\ emits r v' = inr p
                  /\ (what r = Copy ->
                      v' = if passes (when r) v then v else VUndef).
Proof.
  intros Hf Hag Hv. unfold agrees in Hag. rewrite Hf in Hag.
  apply find_some in Hf as [_ Hfield]. apply String.eqb_eq in Hfield.
  destruct rd as [f k|f k back|f k back|f k via elem];
    cbn [reader_field] in Hfield; subst f.
  - (* f: w.k *)
    apply andb_true_iff in Hag as [Hk Hc]. apply String.eqb_eq in Hk. subst k.
    destruct (what r) eqn:Ew; try discriminate.
    cbn [reader_value] in Hv. injection Hv as <-.
    unfold emits, payload_value. rewrite Ew.
    destruct (passes (when r) (member w (key r))) eqn:Ep.
    + eexists. split; [reflexivity|]. intros x Hx.
      cbn [member lookup] in Hx. rewrite String.eqb_refl in Hx.
      exists (member x (key r)). cbn [reader_value].
      split; [reflexivity|]. rewrite Hx, Ep. split; reflexivity.
    + eexists. split; [reflexivity|]. intros x Hx. cbn in Hx.
      exists VUndef. cbn [reader_value]. rewrite Hx, passes_undefined.
      repeat split.
  - (* f: { f1: c?.k1, ... } *)
    apply andb_true_iff in Hag as [Hag Hn].
    apply andb_true_iff in Hag as [Hk Hw]. apply String.eqb_eq in Hk. subst k.
    assert (Hg : when r = IfTruthy) by (destruct (when r); [reflexivity|discriminate]).
    cbn [reader_value] in Hv. injection Hv as <-.
    destruct (expand_round r back (member w (key r)) VUndef Hg Hn)
      as (p & Hp & _ & Hc).
    exists p. split; [exact Hp|]. intros x Hx.
    destruct (expand_round r back (member w (key r)) x Hg Hn)
      as (p' & Hp' & Hx' & _).
    rewrite Hp in Hp'. injection Hp' as <-. destruct (Hx' Hx) as [_ He].
    eexists. cbn [reader_value]. split; [reflexivity|].
    split; [exact He|]. intros E. contradiction.
  - (* f: c ? { f1: c.k1, ... } : undefined *)
    apply andb_true_iff in Hag as [Hag Hn].
    apply andb_true_iff in Hag as [Hk Hw]. apply String.eqb_eq in Hk. subst k.
    assert (Hg : when r = IfTruthy) by (destruct (when r); [reflexivity|discriminate]).
    cbn [reader_value] in Hv.
    destruct (expand_round r back (member w (key r)) VUndef Hg Hn)
      as (p & Hp & _ & Hc).
    destruct (truthy (member w (key r))) eqn:Et; injection Hv as <-.
    + exists p. split; [exact Hp|]. intros x Hx.
      destruct (expand_round r back (member w (key r)) x Hg Hn)
        as (p' & Hp' & Hx' & _).
      rewrite Hp in Hp'. injection Hp' as <-. destruct (Hx' Hx) as [Htx He].
      eexists. cbn [reader_value]. rewrite Htx. split; [reflexivity|].
      split; [exact He|]. intros E. contradiction.
    + exists []. unfold emits. rewrite passes_undefined.
      split; [reflexivity|]. intros x Hx. cbn in Hx.
      exists VUndef. cbn [reader_value]. rewrite Hx. cbn [truthy].
      rewrite passes_undefined. split; [reflexivity|].
      split; [reflexivity|]. intros E. contradiction.
  - (* f: w.k?.map(...) *)
    apply andb_true_iff in Hag as [Hag Hn].
    apply andb_true_iff in Hag as [Hk Hw]. apply String.eqb_eq in Hk. subst k.
    assert (Hg : when r = IfTruthy) by (destruct (when r); [reflexivity|discriminate]).
    destruct (what r) as [| | |parts] eqn:Ew; try discriminate.
    destruct (read_back_inv parts elem Hn) as (Hpl & _).
    destruct (items_read _ _ _ _ _ _ _ Hv) as [[_ ->]|(xs & _ & ->)].
    + exists []. unfold emits. rewrite passes_undefined.
      split; [reflexivity|]. intros x Hx. cbn in Hx.
      exists VUndef. cbn [reader_value]. rewrite Hx. cbn [nullish].
      rewrite passes_undefined. split; [reflexivity|].
      split; [reflexivity|]. intros E. discriminate.
    + exists [(key r, VArr (map (image parts) (map (image (copies elem)) xs)))].
      split.
      * unfold emits, payload_value. rewrite Hg, Ew. cbn [passes truthy array_map].
        rewrite (traverse_images parts (copies elem) xs Hpl). reflexivity.
      * intros x Hx. cbn [member lookup] in Hx. rewrite String.eqb_refl in Hx.
        rewrite (items_of_images (field r) (key r) via elem x parts _ Hx).
        eexists. split; [reflexivity|]. split; [|intros E; discriminate].
        unfold emits, payload_value. rewrite Hg, Ew.
        cbn [passes truthy array_map].
        rewrite (traverse_rebuild parts elem _ Hn). reflexivity.
Qed.

(** *** A whole table *)

Lemma map_key_inj {A} (g : A -> string) (l : list A) (a b : A) :
  distinct (map g l) = true -> In a l -> In b l -> g a = g b -> a = b.
Proof.
  intros Hd Ha Hb E.
  pose proof (find_distinct g l a Hd Ha) as Fa.
  pose proof (find_distinct g l b Hd Hb) as Fb.
  rewrite E in Fa. rewrite Fa in Fb. injection Fb as ->. reflexivity.
Qed.

Lemma lookup_emitted (src : value) (rules : list rule) (parts : list props)
  (r : rule) (p : props) :
  NoDup (map key rules) ->
  traverse (emitted src) rules = inr parts ->
  In r rules -> emitted src r = inr p ->
  member (VObj (concat parts)) (key r) = member (VObj p) (key r).
Proof.
  intros Hnd Hparts Hr Hp.
  pose proof (emitted_lookup src rules parts r Hnd Hparts Hr) as Hl.
  apply emitted_inr in Hp as [_ Hp]. cbn [member].
  destruct (passes (when r) (member src (field r))).
  - destruct Hl as (w1 & Hw1 & ->). destruct Hp as (w2 & Hw2 & ->).
    rewrite Hw1 in Hw2. injection Hw2 as <-.
    cbn [lookup]. rewrite String.eqb_refl. reflexivity.
  - rewrite Hl. subst p. reflexivity.
Qed.

Lemma round (first : string) (readers : list reader) (rules : list rule)
  (w d : value) :
  distinct (map reader_key readers) = true ->
  NoDup (map key rules) ->
  forallb (agrees readers) rules = true ->
  fromWire first readers true w = inr d ->
  exists x d',
    toWire rules d = inr x
    /\ fromWire first readers true x = inr d'
    /\ toWire rules d' = inr x
    /\ (forall r, In r rules -> what r = Copy ->
          member d' (field r)
          = if passes (when r) (member d (field r))
            then member d (field r) else VUndef)
    /\ (forall k, In k (keys_of x) -> In k (map key rules)).
Proof.
  intros Hdk Hnd Hag Hd.
  destruct (fromWire_inr _ _ _ _ _ Hd) as (Hw & od & Hod & ->).
  rewrite forallb_forall in Hag.
  assert (Hrule : forall r, In r rules ->
    exists p, emitted (VObj od) r = inr p
      /\ forall x od', member x (key r) = member (VObj p) (key r) ->
           traverse (reader_value true x) readers = inr od' ->
           emitted (VObj od') r = inr p
           /\ (what r = Copy ->
               member (VObj od') (field r)
               = if passes (when r) (member (VObj od) (field r))
                 then member (VObj od) (field r) else VUndef)).
  { intros r Hr. rewrite emitted_emits.
    pose proof (read_fields true w readers od (field r) Hod) as Hread.
    destruct (find_reader (field r) readers) as [rd|] eqn:Hf.
    - destruct Hread as (v & Hv & Hl).
      destruct (rule_round readers r rd w v Hf (Hag r Hr) Hv)
        as (p & Hp & Hback).
      assert (Hm : member (VObj od) (field r) = v)
        by (cbn [member]; rewrite Hl; reflexivity).
      rewrite Hm. exists p. split; [exact Hp|]. intros x od' Hx Hod'.
      destruct (Hback x Hx) as (v' & Hv' & He & Hc).
      pose proof (read_fields true x readers od' (field r) Hod') as Hread'.
      rewrite Hf in Hread'. destruct Hread' as (v'' & Hv'' & Hl').
      rewrite Hv' in Hv''. injection Hv'' as <-.
      rewrite emitted_emits. cbn [member]. rewrite Hl'.
      split; assumption.
    - assert (Hm : member (VObj od) (field r) = VUndef)
        by (cbn [member]; rewrite Hread; reflexivity).
      rewrite Hm. exists []. unfold emits. rewrite passes_undefined.
      split; [reflexivity|]. intros x od' _ Hod'.
      pose proof (read_fields true x readers od' (field r) Hod') as Hread'.
      rewrite Hf in Hread'. rewrite emitted_emits. cbn [member].
      rewrite Hread'. unfold emits. rewrite passes_undefined.
      split; [reflexivity|]. intros _. reflexivity. }
  destruct (traverse_all (emitted (VObj od)) rules) as (parts & Hparts).
  { intros r Hr. destruct (Hrule r Hr) as (p & Hp & _). exists p. exact Hp. }
  set (x := VObj (concat parts)).
  assert (Hto : toWire rules (VObj od) = inr x).
  { rewrite (toWire_flat _ _ Hnd), Hparts. reflexivity. }
  assert (Hfrom : exists od', traverse (reader_value true x) readers = inr od').
  { apply traverse_all. intros rd Hrd.
    destruct (lookup (reader_key rd) (concat parts)) as [w1|] eqn:Hl.
    - apply lookup_Some_In in Hl.
      destruct (emitted_In _ _ _ _ _ Hparts Hl)
        as (r & Hr & Hk & Hpass & Hpay).
      pose proof (read_fields true w readers od (field r) Hod) as Hread.
      destruct (find_reader (field r) readers) as [rd'|] eqn:Hf.
      + assert (E : rd' = rd).
        { apply (map_key_inj reader_key readers); try assumption.
          - apply find_some in Hf. tauto.
          - rewrite (agrees_key readers r rd' Hf (Hag r Hr)). exact Hk. }
        subst rd'. destruct Hread as (v & Hv & Hlv).
        destruct (rule_round readers r rd w v Hf (Hag r Hr) Hv)
          as (p & Hp & Hback).
        destruct (Hback x) as (v' & Hv' & _).
        { apply (lookup_emitted (VObj od) rules parts r p Hnd Hparts Hr).
          rewrite emitted_emits. cbn [member]. rewrite Hlv. exact Hp. }
        eexists. exact Hv'.
      + exfalso. cbn [member] in Hpass. rewrite Hread in Hpass.
        rewrite passes_undefined in Hpass. discriminate.
    - destruct (reader_value_absent true x rd) as (v & Hv).
      { unfold x. cbn [member]. rewrite Hl. reflexivity. }
      eexists. exact Hv. }
  destruct Hfrom as (od' & Hod').
  assert (Hsame : forall r, In r rules ->
    emitted (VObj od') r = emitted (VObj od) r
    /\ (what r = Copy ->
        member (VObj od') (field r)
        = if passes (when r) (member (VObj od) (field r))
          then member (VObj od) (field r) else VUndef)).
  { intros r Hr. destruct (Hrule r Hr) as (p & Hp & Hback).
    destruct (Hback x od'
                (lookup_emitted (VObj od) rules parts r p Hnd Hparts Hr Hp)
                Hod') as [He Hc].
    rewrite He, Hp. split; [reflexivity|exact Hc]. }
  exists x, (VObj od'). split; [exact Hto|].
  split. { unfold fromWire. cbn [nullish x]. rewrite Hod'. reflexivity. }
  split.
  { rewrite (toWire_flat _ _ Hnd).
    rewrite (traverse_ext (emitted (VObj od')) (emitted (VObj od)) rules),
      Hparts; [reflexivity|].
    intros r Hr. apply Hsame. exact Hr. }
  split. { intros r Hr Hc. apply (Hsame r Hr). exact Hc. }
  intros k Hk. unfold x in Hk. cbn [keys_of] in Hk.
  rewrite (emitted_keys _ _ _ Hparts) in Hk.
  apply in_map_iff in Hk as (r & <- & Hr). apply filter_In in Hr as [Hr _].
  apply in_map. exact Hr.
Qed.

(** *** What is nested in the payload *)

Lemma kinds_withheld : forallb withheld kinds = true.
Proof. vm_compute. reflexivity. Qed.

Lemma part_value_name (x : value) (p : part) (kv : string * value) :
  part_value x p = inr kv -> fst kv = part_name p.
Proof.
  destruct p as [t f|t f idKey idField]; cbn [part_value part_name];
    destruct (read x f); cbn [and_then]; try discriminate;
    intros H; injection H as <-; reflexivity.
Qed.

Lemma build_keys (parts : list part) (x y : value) :
  build parts x = inr y ->
  exists o, y = VObj o /\ keys o = map part_name parts.
Proof.
  intros H. destruct (build_inr parts x y H) as (o & -> & Hf).
  exists o. split; [reflexivity|]. unfold keys. clear H.
  induction Hf as [|p kv ps o Hp _ IH]; [reflexivity|].
  cbn [map]. rewrite (part_value_name x p kv Hp), IH. reflexivity.
Qed.

Lemma built_records (parts : list part) (l ys : list value) :
  traverse (build parts) l = inr ys ->
  exists records,
    records_of ys = Some records
    /\ forall o, In o records -> keys o = map part_name parts.
Proof.
  intros H. apply traverse_Forall2 in H.
  induction H as [|x y l ys Hxy _ IH].
  - exists []. split; [reflexivity|]. intros o [].
  - destruct IH as (records & Hr & Hk).
    destruct (build_keys parts x y Hxy) as (o & -> & Ho).
    exists (o :: records). cbn [records_of]. rewrite Hr.
    split; [reflexivity|]. intros o' [<-|Hin]; [exact Ho|exact (Hk o' Hin)].
Qed.

(** A rule that does not copy builds its nested records from its
    literal: they hold the properties of the literal and no other. *)
Lemma payload_records (r : rule) (v y : value) :
  payload_value r v = inr y ->
  what r <> Copy ->
  exists records,
    nested_records y = Some records
    /\ forall o, In o records -> keys o = nested_keys r.
Proof.
  unfold payload_value, nested_keys.
  destruct (what r) as [|idKey idField|parts|parts]; intros H Hc.
  - destruct (Hc eq_refl).
  - destruct (read v idField) as [e|i]; cbn [and_then] in H;
      [discriminate|].
    injection H as <-. eexists. split; [reflexivity|].
    intros o [<-|[]]. reflexivity.
  - destruct (build_keys parts v y H) as (o & -> & Ho).
    exists [o]. split; [reflexivity|]. intros o' [<-|[]]. exact Ho.
  - unfold array_map in H.
    destruct v as [| | | | |l|]; try (destruct (nullish _) in H; discriminate H).
    destruct (traverse (build parts) l) as [e|ys] eqn:Ht; cbn [and_then] in H;
      [discriminate|].
    injection H as <-. exact (built_records parts l ys Ht).
Qed.

(** C1, as amended. For each of the thirteen entity kinds that have both
    a [map...] and a [map...ToXero] method, and every wire record [w] that
    [map...] reads into a domain record [d]: [map...ToXero] turns [d] into
    a wire record [x], [map...] reads [x] back into a record [d'], and
    [d'] is turned into the same [x] again, so every key that was emitted
    comes back with the same content at every depth. A copied field comes
    back as it was when its guard let it through, and comes back undefined
    when the guard dropped it (an empty string, 0, null or false under a
    truthiness guard). No key owned by the remote side (identifiers,
    totals, timestamps) is in [x], and none of those it owns inside a
    nested record (the identifier and the computed amounts of a line item
    or a journal line, the next date of a schedule) is in a record nested
    in [x]: the line items, the journal lines and the schedule of [x] are
    objects that hold the properties of the literal of the mapper and no
    other. *)
Theorem round_trip_of_emitted_fields (k : kind) (w d : value) :
  In k kinds ->
  from_wire k w = inr d ->
  exists x d',
    to_wire k d = inr x
    /\ from_wire k x = inr d'
    /\ to_wire k d' = inr x
    /\ (forall r, In r (rules k) -> what r = Copy ->
          member d' (field r)
          = if passes (when r) (member d (field r))
            then member d (field r) else VUndef)
    /\ (forall owned, In owned (remote_owned k) -> ~ In owned (keys_of x))
    /\ (forall K owned y,
          In (K, owned) (owned_within k) ->
          lookup K (props_of x) = Some y ->
          exists records,
            nested_records y = Some records
            /\ forall o n, In o records -> In n owned -> ~ In n (keys o)).
Proof.
  intros Hk Hd. pose proof (kind_keys_NoDup k Hk) as Hnd.
  pose proof (kind_compatible k Hk) as Hc. unfold compatible in Hc.
  apply andb_true_iff in Hc as [Hc Hown].
  apply andb_true_iff in Hc as [Hc Hag].
  apply andb_true_iff in Hc as [Hc _].
  apply andb_true_iff in Hc as [Hc _].
  apply andb_true_iff in Hc as [_ Hdk].
  destruct (round (first_read k) (readers k) (rules k) w d Hdk Hnd Hag Hd)
    as (x & d' & H1 & H2 & H3 & H4 & H5).
  exists x, d'. repeat (split; [assumption|]). split.
  - intros owned Ho Hin. rewrite forallb_forall in Hown.
    specialize (Hown owned Ho). apply negb_true_iff in Hown.
    apply H5, existsb_eqb_In in Hin. rewrite Hin in Hown. discriminate.
  - intros K owned y Hin Hl.
    destruct (toWire_inr _ _ _ Hnd H1) as (parts & Hparts & ->).
    cbn [props_of] in Hl. apply lookup_Some_In in Hl.
    destruct (emitted_In _ _ _ _ _ Hparts Hl) as (r & Hr & Hkey & _ & Hpv).
    pose proof kinds_withheld as Hw. rewrite forallb_forall in Hw.
    specialize (Hw k Hk). unfold withheld in Hw. rewrite forallb_forall in Hw.
    specialize (Hw (K, owned) Hin). rewrite forallb_forall in Hw.
    specialize (Hw r Hr). cbn [fst snd] in Hw.
    rewrite Hkey, String.eqb_refl in Hw. cbn [negb orb] in Hw.
    apply andb_true_iff in Hw as [Hcopy Hnames].
    destruct (payload_records r _ y Hpv) as (records & Hrec & Hkeys).
    { intros E. rewrite E in Hcopy. discriminate Hcopy. }
    exists records. split; [exact Hrec|]. intros o n Ho Hn Hno.
    rewrite (Hkeys o Ho) in Hno. rewrite forallb_forall in Hnames.
    specialize (Hnames n Hn). apply negb_true_iff in Hnames.
    apply existsb_eqb_In in Hno. rewrite Hno in Hnames. discriminate.
Qed.

Lemma round_trip_of_emitted_fields_witness :
  exists d x d',
    mapContact wire_contact = inr d
    /\ mapContactToXero d = inr x
    /\ mapContact x = inr d'
    /\ mapContactToXero d' = inr x
    /\ member d' "name" = VStr "Acme"
    /\ member d' "isSupplier" = VBool false
    /\ ~ In "ContactID" (keys_of x).
Proof.
  pose (d := match mapContact wire_contact with
             | inr d => d
             | inl _ => VUndef
             end).
  assert (E : from_wire contact_kind wire_contact = inr d) by reflexivity.
  destruct (round_trip_of_emitted_fields contact_kind wire_contact d
              (or_introl eq_refl) E) as (x & d' & H1 & H2 & H3 & H4 & H5).
  exists d, x, d'. repeat (split; [assumption|]).
  split; [|split].
  - apply (H4 (when_truthy "name" "Name")); [cbn; tauto|reflexivity].
  - apply (H4 (when_defined "isSupplier" "IsSupplier"));
      [cbn; tauto|reflexivity].
  - apply H5. cbn. tauto.
Defined.

(** C1 as stated fails: [mapContactToXero] is capable of emitting
    [EmailAddress], but on a wire contact whose [EmailAddress] is the
    empty string the field is [""] after [mapContact] and undefined after
    [mapContact], [mapContactToXero] and [mapContact] again. *)
Lemma empty_field_is_not_reproduced :
  let once := mapContact wire_contact in
  let again :=
    and_then once (fun d => and_then (mapContactToXero d) mapContact) in
  In (when_truthy "emailAddress" "EmailAddress") contact_rules
  /\ and_then once (fun d => ok (member d "emailAddress")) = inr (VStr "")
  /\ and_then again (fun d => ok (member d "emailAddress")) = inr VUndef.
Proof.
  cbv zeta. split; [cbn; tauto|]. split; reflexivity.
Qed.

End RoundTrip.

(* ===================================================================== *)
(** ** What every method does with the answer of its request *)
(* ===================================================================== *)

Module Answers.
Import Js Mapper Entities Text Platform Env Client Reading Samples Operations.
Import MapperFacts ClientFacts Facade.

















(** *** Methods that return nothing *)

Lemma discarding_shape (c : call) (env : Runtime) (creds : TenantCredentials) :
  discarding c = true ->
  exists endpoint options,
    forall log,
      run env creds c log
      = bind (request env creds endpoint options)
             (fun _ => lift (ok VUndef)) log.
Proof.
  destruct c; cbn [discarding]; intros H; try discriminate;
    cbn [run]; autounfold with methods; do 2 eexists; intros log; reflexivity.
Qed.

(** X4. A method declared [Promise<void>] (the deletes and
    [removeContactsFromGroup]) issues its one request and returns
    [undefined] whatever the remote side answers; it fails exactly when
    the request helper fails, with the failure of the helper. *)
Theorem delete_returns_nothing (c : call) (env : Runtime)
  (creds : TenantCredentials) :
  discarding c = true ->
  exists endpoint options,
    forall log,
      fst (run env creds c log)
      = match fst (request env creds endpoint options log) with
        | inl e => inl e
        | inr _ => inr VUndef
        end
      /\ snd (run env creds c log)
         = snd (request env creds endpoint options log).
Proof.
  intros H. destruct (discarding_shape c env creds H) as (ep & opts & Hr).
  exists ep, opts. intros log. rewrite Hr. unfold bind, lift.
  destruct (request env creds ep opts log) as [[e|d] log']; split; reflexivity.
Qed.

Lemma delete_returns_nothing_witness :
  fst (run (answering 200 [] one_contact) tenant (DeleteAccount "a1") [])
  = inr VUndef.
Proof.
  destruct (delete_returns_nothing (DeleteAccount "a1")
              (answering 200 [] one_contact) tenant eq_refl)
    as (ep & opts & H).
  destruct (H []) as [-> _].
  assert (Hr : fst (request (answering 200 [] one_contact) tenant ep opts [])
               = inr one_contact) by reflexivity.
  rewrite Hr. reflexivity.
Defined.

End Answers.

(* ===================================================================== *)
(** ** The requests the methods issue *)
(* ===================================================================== *)

Module Requests.
Import Js Mapper Entities Text Platform Env Client Reading Samples Operations.
Import MapperFacts ClientFacts Gate Payload.

Lemma getAuthHeaders_inr (creds : TenantCredentials)
  (auth : list (string * string)) :
  getAuthHeaders creds = inr auth ->
  exists token tenant,
    accessToken creds = Some token /\ token <> ""
    /\ tenantId creds = Some tenant /\ tenant <> ""
    /\ auth = [ ("Authorization", "Bearer " ++ token);
                ("Xero-Tenant-Id", tenant);
                ("Content-Type", "application/json");
                ("Accept", "application/json") ].
Proof.
  unfold getAuthHeaders.
  destruct (accessToken creds) as [token|]; cbn [blank]; [|discriminate].
  destruct (String.eqb_spec token ""); [discriminate|].
  destruct (tenantId creds) as [tenant|]; cbn [blank]; [|discriminate].
  destruct (String.eqb_spec tenant ""); [discriminate|].
  intros H. injection H as <-. exists token, tenant. repeat split; assumption.
Qed.

(** The requests of a run are those of one call of the helper, or none. *)
Lemma run_requests (c : call) (env : Runtime) (creds : TenantCredentials)
  (log : list Request) :
  snd (run env creds c log) = log
  \/ exists endpoint options,
       snd (run env creds c log)
       = snd (request env creds endpoint options log).
Proof.
  destruct (test_or_not c) as [->|Hc].
  - right. exists "/Organisation", GET. cbn [run].
    exact (proj2 (testConnection_outcome env creds log)).
  - destruct (run_shape c Hc) as [[e He]|Hs].
    + left. rewrite He. reflexivity.
    + right. destruct (single_request_fst env creds _ (Hs env creds))
        as (ep & opts & post & H).
      exists ep, opts. exact (proj2 (H log)).
Qed.

Lemma app_own {A} (l : list A) (x : A) : (l ++ [x] = l)%list -> False.
Proof.
  intros H. apply (f_equal (@length A)) in H. rewrite length_app in H.
  cbn in H. lia.
Qed.

(** X5. A method call issues at most one request, after those already
    issued: there is no retry, no second page and no follow-up call. The
    request goes to the base URL of the credentials (the default one when
    none or an empty one is given) followed by the endpoint, and carries
    exactly four headers: the bearer token and the tenant identifier of
    the credentials, both non-empty, and the two JSON content headers. *)
Theorem one_request_per_call (c : call) (env : Runtime)
  (creds : TenantCredentials) (log : list Request) :
  snd (run env creds c log) = (log ++ sent env creds c log)%list
  /\ length (sent env creds c log) <= 1
  /\ forall req, In req (sent env creds c log) ->
       exists token tenant endpoint,
         accessToken creds = Some token /\ token <> ""
         /\ tenantId creds = Some tenant /\ tenant <> ""
         /\ url req
            = (match baseUrl creds with
               | Some base => if base =? "" then API_BASE_URL else base
               | None => API_BASE_URL
               end) ++ endpoint
         /\ headers req
            = [ ("Authorization", "Bearer " ++ token);
                ("Xero-Tenant-Id", tenant);
                ("Content-Type", "application/json");
                ("Accept", "application/json") ].
Proof.
  unfold sent.
  assert (H : snd (run env creds c log) = log
              \/ exists auth endpoint options,
                   getAuthHeaders creds = inr auth
                   /\ snd (run env creds c log)
                      = (log ++ [{| url := clientBaseUrl creds ++ endpoint;
                                    init := options;
                                    headers := auth |}])%list).
  { destruct (run_requests c env creds log) as [H|(ep & opts & H)];
      [left; exact H|].
    destruct (request_log env creds ep opts log) as [E|(auth & Ha & E)].
    - left. rewrite H. exact E.
    - right. exists auth, ep, opts. split; [exact Ha|]. rewrite H. exact E. }
  destruct H as [->|(auth & ep & opts & Ha & ->)].
  - rewrite skipn_all_of, app_nil_r. split; [reflexivity|].
    split; [cbn; lia|]. intros req [].
  - rewrite skipn_own. split; [reflexivity|]. split; [cbn; lia|].
    intros req [<-|[]]. cbn [url headers].
    destruct (getAuthHeaders_inr creds auth Ha)
      as (token & tenant & Ht & Hne & Hn & Hnn & ->).
    exists token, tenant, ep. repeat split; try assumption.
    unfold clientBaseUrl. destruct (baseUrl creds) as [base|]; cbn; reflexivity.
Qed.

(** *** What is asked of [fetch] *)

Lemma sent_direct (env : Runtime) (creds : TenantCredentials)
  (endpoint : string) (options : RequestInit)
  (post : value -> result value) (log : list Request) (req : Request) :
  In req (skipn (length log)
            (snd (bind (request env creds endpoint options)
                       (fun data => lift (post data)) log))) ->
  init req = options /\ url req = clientBaseUrl creds ++ endpoint.
Proof.
  unfold bind, lift, request.
  destruct (getAuthHeaders creds) as [e|auth].
  - cbn [snd]. rewrite skipn_all_of. intros [].
  - destruct (fetch env log _) as [m|r]; [|destruct (settle env r)];
      cbn [snd]; rewrite skipn_own; intros [<-|[]]; split; reflexivity.
Qed.

Lemma sent_after {A} (env : Runtime) (creds : TenantCredentials)
  (pre : result A) (endpoint : A -> string) (payload : A -> RequestInit)
  (post : A -> value -> result value) (log : list Request) (req : Request) :
  In req (skipn (length log)
            (snd (bind (lift pre)
                       (fun x =>
                          bind (request env creds (endpoint x) (payload x))
                               (fun data => lift (post x data))) log))) ->
  exists x, pre = inr x /\ init req = payload x
            /\ url req = clientBaseUrl creds ++ endpoint x.
Proof.
  unfold bind at 1. unfold lift at 1. destruct pre as [e|x].
  - cbn [snd]. rewrite skipn_all_of. intros [].
  - intros H. exists x. split; [reflexivity|].
    exact (sent_direct env creds _ _ _ log req H).
Qed.

Lemma sent_probe (env : Runtime) (creds : TenantCredentials)
  (log : list Request) (req : Request) :
  In req (skipn (length log) (snd (testConnection env creds log))) ->
  init req = GET /\ url req = clientBaseUrl creds ++ "/Organisation".
Proof.
  rewrite (proj2 (testConnection_outcome env creds log)).
  unfold request. destruct (getAuthHeaders creds) as [e|auth].
  - cbn [snd]. rewrite skipn_all_of. intros [].
  - destruct (fetch env log _) as [m|r]; cbn [snd]; rewrite skipn_own;
      intros [<-|[]]; split; reflexivity.
Qed.

(** X6. A method that only reads (the connection test, every list and
    get method, every report) asks [fetch] with the options of [request]
    left empty: no method, so the request is a GET, and no body. *)
Theorem reads_use_get (c : call) (env : Runtime) (creds : TenantCredentials)
  (log : list Request) (req : Request) :
  reading c = true ->
  In req (sent env creds c log) ->
  method (init req) = None /\ body (init req) = None.
Proof.
  intros Hr Hin. unfold sent in Hin.
  assert (H : init req = GET).
  { destruct c; cbn [reading listing singular] in Hr; try discriminate;
      cbn [run] in Hin; autounfold with methods in Hin;
      try exact (proj1 (sent_probe env creds log req Hin));
      try exact (proj1 (sent_direct env creds _ _ _ log req Hin)).
    - destruct (sent_after env creds _ _ (fun _ => GET) (fun _ d => _) log req Hin)
        as (q & _ & H & _). exact H.
    - destruct (sent_after env creds _ _ (fun _ => GET) (fun _ d => _) log req Hin)
        as (q & _ & H & _). exact H.
    - destruct (sent_after env creds _ _ (fun _ => GET) (fun _ d => _) log req Hin)
        as (q & _ & H & _). exact H. }
  rewrite H. split; reflexivity.
Qed.

Lemma reads_use_get_witness :
  method (init {| url := "https://api.xero.com/api.xro/2.0/Contacts/c1";
                  init := GET;
                  headers := [ ("Authorization", "Bearer token");
                               ("Xero-Tenant-Id", "tenant");
                               ("Content-Type", "application/json");
                               ("Accept", "application/json") ] |}) = None
  /\ body (init {| url := "https://api.xero.com/api.xro/2.0/Contacts/c1";
                   init := GET;
                   headers := [ ("Authorization", "Bearer token");
                                ("Xero-Tenant-Id", "tenant");
                                ("Content-Type", "application/json");
                                ("Accept", "application/json") ] |}) = None.
Proof.
  exact (reads_use_get (GetContact "c1") (answering 200 [] one_contact)
           tenant [] _ eq_refl (or_introl eq_refl)).
Defined.

Lemma toWire_VObj (rules : list rule) (x w : value) :
  toWire rules x = inr w -> exists o, w = VObj o.
Proof.
  unfold toWire. destruct (fold_left (statement x) rules (ok [])) as [e|o];
    [discriminate|].
  intros H. injection H as <-. exists o. reflexivity.
Qed.

Lemma body_is_object (b : value) :
  (exists o', b = VObj o') ->
  exists o, Some (stringify b) = Some (VObj o) /\ is_json (VObj o) = true.
Proof.
  intros [o' ->]. exists (written o'). rewrite <- stringify_VObj.
  split; [reflexivity|]. apply stringify_is_json. reflexivity.
Qed.

Ltac object_body :=
  apply body_is_object;
  first [ eexists; reflexivity
        | eapply toWire_VObj; eassumption
        | match goal with
          | H : build _ _ = inr _ |- _ =>
              let o := fresh "o" in
              destruct (build_inr _ _ _ H) as (o & -> & _);
              eexists; reflexivity
          end ].

Ltac by_method :=
  cbn [method body POST PUT DELETE];
  first
    [ exists "DELETE"; split; [reflexivity|]; left; split; reflexivity
    | exists "POST"; split; [reflexivity|]; right;
      split; [left; reflexivity|]; object_body
    | exists "PUT"; split; [reflexivity|]; right;
      split; [right; reflexivity|]; object_body ].

(** X7. A method that writes asks [fetch] with an explicit method: DELETE
    without a body, or POST or PUT with a body that is a JSON object,
    holding no [undefined] and no [NaN] at any depth. *)
Theorem writes_carry_json (c : call) (env : Runtime)
  (creds : TenantCredentials) (log : list Request) (req : Request) :
  reading c = false ->
  In req (sent env creds c log) ->
  exists m,
    method (init req) = Some m
    /\ ((m = "DELETE" /\ body (init req) = None)
        \/ ((m = "POST" \/ m = "PUT")
            /\ exists o, body (init req) = Some (VObj o)
                         /\ is_json (VObj o) = true)).
Proof.
  intros Hr Hin. unfold sent in Hin.
  destruct c; cbn [reading listing singular] in Hr; try discriminate;
    cbn [run] in Hin; autounfold with methods in Hin;
    first
      [ destruct (sent_direct env creds _ _ _ log req Hin) as [-> _]
      | match type of Hin with
        | In _ (skipn _ (snd (bind (lift ?pre)
                                (fun x => bind (request _ _ (@?ep x) (@?pl x))
                                               (fun d => lift (@?post x d)))
                                _))) =>
            let x := fresh "x" in
            let Hx := fresh "Hx" in
            destruct (sent_after env creds pre ep pl post log req Hin)
              as (x & Hx & -> & _)
        end ];
    by_method.
Qed.

Lemma writes_carry_json_witness :
  exists m,
    method (init {| url := "https://api.xero.com/api.xro/2.0/Invoices/i1";
                    init := POST (wrap "Invoices"
                                    (VObj [ ("InvoiceID", VStr "i1");
                                            ("Status", VStr "VOIDED") ]));
                    headers := [ ("Authorization", "Bearer token");
                                 ("Xero-Tenant-Id", "tenant");
                                 ("Content-Type", "application/json");
                                 ("Accept", "application/json") ] |})
    = Some m
    /\ (m = "POST" \/ m = "PUT").
Proof.
  destruct (writes_carry_json (VoidInvoice "i1")
              (answering 200 [] one_invoice) tenant [] _ eq_refl
              (or_introl eq_refl)) as (m & Hm & [[-> _]|[Hp _]]).
  - discriminate Hm.
  - exists m. split; [exact Hm|exact Hp].
Defined.

End Requests.

(* ===================================================================== *)
(** ** When the mappers fail *)
(* ===================================================================== *)

Module Mappers.
Import Js Mapper Entities Text Platform Env Client Reading Samples Operations.
Import Shapes Fixtures.
Import MapperFacts ClientFacts Facade Payload RoundTrip Answers.

Lemma traverse_inl {A B} (f : A -> result B) (l : list A) (e : error) :
  traverse f l = inl e -> exists a, In a l /\ f a = inl e.
Proof.
  induction l as [|a l IH]; [discriminate|]. cbn [traverse].
  destruct (f a) as [e0|y] eqn:Ha.
  - intros H. injection H as <-. exists a. split; [left; reflexivity|exact Ha].
  - cbn [and_then]. destruct (traverse f l) as [e1|ys]; [|discriminate].
    intros H. injection H as <-. destruct (IH eq_refl) as (b & Hb & Hf).
    exists b. split; [right; exact Hb|exact Hf].
Qed.

Lemma read_TypeError (v : value) (k : string) (e : error) :
  read v k = inl e -> e = TypeError (ReadOfNullish v k).
Proof.
  unfold read. destruct (nullish v); [|discriminate].
  intros H. injection H as <-. reflexivity.
Qed.

Lemma build_TypeError (parts : list part) (x : value) (e : error) :
  build parts x = inl e -> exists f, e = TypeError f.
Proof.
  unfold build. destruct (traverse (part_value x) parts) as [e0|o] eqn:H;
    [|discriminate].
  intros E. injection E as <-. apply traverse_inl in H as (p & _ & Hp).
  destruct p as [t f|t f idKey idField]; cbn [part_value] in Hp;
    destruct (read x f) as [e1|v] eqn:Hr; try discriminate;
    injection Hp as <-; eexists; exact (read_TypeError _ _ _ Hr).
Qed.

Lemma array_map_TypeError (what : string) (f : value -> result value)
  (v : value) (e : error) :
  (forall x e', f x = inl e' -> exists t, e' = TypeError t) ->
  array_map what f v = inl e -> exists t, e = TypeError t.
Proof.
  intros Hf. destruct v as [| | | | |l|]; cbn [array_map nullish];
    try (intros H; injection H as <-; eexists; reflexivity).
  destruct (traverse f l) as [e0|ys] eqn:H; [|discriminate].
  intros E. injection E as <-. apply traverse_inl in H as (x & _ & Hx).
  exact (Hf x e0 Hx).
Qed.










(** *** What a mapper returns *)

Lemma reader_value_local (b : bool) (w w' : value) (rd : reader) :
  member w (reader_key rd) = member w' (reader_key rd) ->
  reader_value b w rd = reader_value b w' rd.
Proof.
  destruct rd as [f k|f k back|f k back|f k via elem];
    cbn [reader_key reader_value]; intros ->; reflexivity.
Qed.

(** X9. Whatever wire record a [map...] method is given, the record it
    returns has exactly the fields its object literal declares, in the
    order of the literal; and it reads the wire record through the
    declared wire keys only, so two records that agree on those keys are
    mapped alike: a key the mapper does not declare never reaches the
    result. *)
Theorem mapper_keys_fixed (first : string) (readers : list reader)
  (bound : bool) (w d : value) :
  fromWire first readers bound w = inr d ->
  keys_of d = map reader_field readers
  /\ forall w',
       nullish w' = false ->
       (forall rd, In rd readers ->
          member w' (reader_key rd) = member w (reader_key rd)) ->
       fromWire first readers bound w' = inr d.
Proof.
  intros H. destruct (fromWire_inr _ _ _ _ _ H) as (Hw & od & Hod & ->).
  split.
  - cbn [keys_of]. clear H. revert od Hod.
    induction readers as [|rd readers IH]; intros od Hod.
    + injection Hod as <-. reflexivity.
    + destruct (traverse_inr_cons _ _ _ _ Hod) as ([f v] & od' & Hrd & Hr & ->).
      cbn [keys map fst]. rewrite (reader_value_field _ _ _ _ _ Hrd).
      f_equal. exact (IH od' Hr).
  - intros w' Hw' Hsame. unfold fromWire. rewrite Hw'.
    rewrite (traverse_ext (reader_value bound w') (reader_value bound w)
               readers), Hod; [reflexivity|].
    intros rd Hrd. apply reader_value_local. exact (Hsame rd Hrd).
Qed.

Lemma mapper_keys_fixed_witness :
  exists d,
    mapContact wire_contact = inr d
    /\ keys_of d = map fst contact_fields
    /\ mapContact (VObj [ ("Unknown", VNum (of_Z 1)); ("ContactID", VStr "c1");
                          ("Name", VStr "Acme"); ("EmailAddress", VStr "");
                          ("IsSupplier", VBool false) ])
       = inr d.
Proof.
  pose (d := match mapContact wire_contact with
             | inr d => d
             | inl _ => VUndef
             end).
  assert (E : fromWire "ContactID" contact_readers true wire_contact = inr d)
    by reflexivity.
  destruct (mapper_keys_fixed "ContactID" contact_readers true wire_contact d E)
    as [Hk Hs].
  exists d. split; [exact E|]. split; [exact Hk|].
  apply Hs; [reflexivity|].
  intros rd Hrd. cbn in Hrd.
  repeat (destruct Hrd as [<-|Hrd]; [reflexivity|]). destruct Hrd.
Defined.

(** *** When a mapper returns *)

Lemma build_copies_inr (elem : list (string * string)) (x : value) :
  (exists y, build (copies elem) x = inr y)
  <-> elem = [] \/ nullish x = false.
Proof.
  split.
  - intros [y H]. destruct elem as [|b elem]; [left; reflexivity|right].
    unfold build in H. cbn [copies map traverse part_value] in H.
    unfold read in H. destruct (nullish x); [discriminate|reflexivity].
  - intros [->|Hx]; [exists (VObj []); reflexivity|].
    exists (pick x elem). rewrite (build_plain _ x (copies_plain elem) Hx).
    rewrite (image_copies elem x Hx). reflexivity.
Qed.

Lemma traverse_inr_iff {A B} (f : A -> result B) (l : list A) :
  (exists ys, traverse f l = inr ys)
  <-> forall a, In a l -> exists y, f a = inr y.
Proof.
  split.
  - intros [ys H] a Ha. apply traverse_Forall2 in H.
    induction H as [|x y l ys Hx _ IH]; [destruct Ha|].
    destruct Ha as [<-|Ha]; [exists y; exact Hx|exact (IH Ha)].
  - apply traverse_all.
Qed.

Lemma array_map_copies_inr (what : string) (elem : list (string * string))
  (a : value) :
  nullish a = false ->
  (exists l, array_map what (build (copies elem)) a = inr l)
  <-> mappable elem a = true.
Proof.
  intros Hn. unfold mappable. rewrite Hn. cbn [orb].
  destruct a as [| | | | |xs|]; cbn [array_map nullish];
    try (split; [intros [l H]; discriminate|discriminate]).
  split.
  - intros [l H].
    destruct (traverse (build (copies elem)) xs) as [e|ys] eqn:Ht;
      [discriminate|].
    destruct elem as [|b elem]; [reflexivity|].
    apply forallb_forall. intros x Hx.
    destruct (proj1 (traverse_inr_iff _ xs) (ex_intro _ ys Ht) x Hx) as [y Hy].
    destruct (proj1 (build_copies_inr (b :: elem) x) (ex_intro _ y Hy))
      as [E|E]; [discriminate|]. rewrite E. reflexivity.
  - intros H.
    assert (Hall : forall x, In x xs ->
                   exists y, build (copies elem) x = inr y).
    { intros x Hx. apply build_copies_inr.
      destruct elem as [|b elem]; [left; reflexivity|right].
      rewrite forallb_forall in H. specialize (H x Hx).
      apply negb_true_iff in H. exact H. }
    destruct (proj2 (traverse_inr_iff _ xs) Hall) as [ys Hys].
    exists (VArr ys). rewrite Hys. reflexivity.
Qed.

Lemma reader_value_inr (w : value) (rd : reader) :
  (exists kv, reader_value true w rd = inr kv)
  <-> match rd with
      | Items _ k _ elem => mappable elem (member w k) = true
      | _ => True
      end.
Proof.
  destruct rd as [f k|f k back|f k back|f k via elem]; cbn [reader_value];
    try (split; [intros _; exact I|intros _; eexists; reflexivity]).
  destruct (nullish (member w k)) eqn:Hn.
  - unfold mappable. rewrite Hn. split; [reflexivity|].
    intros _. eexists. reflexivity.
  - rewrite <- (array_map_copies_inr k elem (member w k) Hn).
    assert (E : (match via with
                 | Some _ =>
                     and_then (array_map k (build (copies elem)) (member w k))
                       (fun l => ok (f, l))
                 | None =>
                     and_then (array_map k (build (copies elem)) (member w k))
                       (fun l => ok (f, l))
                 end)
                = and_then (array_map k (build (copies elem)) (member w k))
                    (fun l => ok (f, l))) by (destruct via; reflexivity).
    rewrite E.
    destruct (array_map k (build (copies elem)) (member w k)) as [e|l];
      cbn [and_then]; split; intros [x H]; try discriminate;
      eexists; reflexivity.
Qed.

(** X10. A [map...] method called as a method returns exactly on the
    well-shaped wire records: the record is neither [undefined] nor
    [null], and each nested array it maps is absent, [null], or an array
    without an [undefined] or [null] element. A missing field, a field of
    an unexpected type or an unknown field never makes it throw. *)
Theorem mapper_returns_iff (first : string) (readers : list reader)
  (w : value) :
  (exists d, fromWire first readers true w = inr d)
  <-> well_shaped readers w = true.
Proof.
  unfold well_shaped, fromWire. destruct (nullish w); cbn [negb andb].
  - split; [intros [d H]; discriminate|discriminate].
  - rewrite forallb_forall. split.
    + intros [d H] rd Hrd.
      destruct (traverse (reader_value true w) readers) as [e|od] eqn:Ht;
        [discriminate|].
      pose proof (proj1 (traverse_inr_iff _ readers) (ex_intro _ od Ht) rd Hrd)
        as Hk.
      apply reader_value_inr in Hk. destruct rd; try reflexivity. exact Hk.
    + intros H.
      assert (Hall : forall rd, In rd readers ->
                     exists kv, reader_value true w rd = inr kv).
      { intros rd Hrd. apply reader_value_inr. specialize (H rd Hrd).
        destruct rd; try exact I. exact H. }
      destruct (proj2 (traverse_inr_iff _ readers) Hall) as [od Hod].
      exists (VObj od). rewrite Hod. reflexivity.
Qed.

(** *** When a [map...ToXero] method returns *)

Lemma truthy_present (v : value) : truthy v = true -> nullish v = false.
Proof. destruct v; intros H; try reflexivity; discriminate. Qed.

Lemma part_value_present (x : value) (p : part) :
  nullish x = false -> exists kv, part_value x p = inr kv.
Proof.
  intros Hx. destruct p as [t f|t f idKey idField]; cbn [part_value];
    rewrite (read_present x f Hx); eexists; reflexivity.
Qed.

Lemma build_present (parts : list part) (x : value) :
  nullish x = false -> exists y, build parts x = inr y.
Proof.
  intros Hx. unfold build.
  destruct (proj2 (traverse_inr_iff (part_value x) parts)) as [o Ho].
  - intros p _. exact (part_value_present x p Hx).
  - rewrite Ho. eexists. reflexivity.
Qed.

Lemma build_inr_iff (p : part) (parts : list part) (x : value) :
  (exists y, build (p :: parts) x = inr y) <-> nullish x = false.
Proof.
  split; [|apply build_present].
  intros [y H]. unfold build in H. cbn [traverse] in H.
  destruct p as [t f|t f idKey idField]; cbn [part_value] in H;
    unfold read in H; destruct (nullish x); [discriminate|reflexivity
                                            |discriminate|reflexivity].
Qed.

Lemma emitted_inr_iff (src : value) (r : rule) :
  nullish src = false ->
  match when r, what r with
  | IfDefined, Copy => true
  | IfDefined, _ => false
  | IfTruthy, Each [] => false
  | IfTruthy, _ => true
  end = true ->
  (exists p, emitted src r = inr p)
  <-> match what r with
      | Each _ =>
          negb (truthy (member src (field r))) ||
          match member src (field r) with
          | VArr xs => forallb (fun x => negb (nullish x)) xs
          | _ => false
          end
      | _ => true
      end = true.
Proof.
  intros Hs Hg. unfold emitted. rewrite (read_present src _ Hs).
  cbn [and_then]. unfold payload_value.
  set (v := member src (field r)).
  destruct (when r); destruct (what r) as [|idKey idField|parts|parts];
    try discriminate; cbn [passes].
  - (* copy when truthy *)
    split; [reflexivity|]. intros _. destruct (truthy v); eexists; reflexivity.
  - (* reference *)
    split; [reflexivity|]. intros _. destruct (truthy v) eqn:Ht.
    + rewrite (read_present v _ (truthy_present v Ht)). eexists. reflexivity.
    + eexists. reflexivity.
  - (* object *)
    split; [reflexivity|]. intros _. destruct (truthy v) eqn:Ht.
    + destruct (build_present parts v (truthy_present v Ht)) as [y ->].
      eexists. reflexivity.
    + eexists. reflexivity.
  - (* each *)
    destruct parts as [|p parts]; [discriminate|].
    destruct (truthy v) eqn:Ht; cbn [negb orb].
    + destruct v as [| | | | |xs|]; cbn [array_map nullish];
        try (split; [intros [q H]; discriminate|discriminate]).
      split.
      * intros [q H].
        destruct (traverse (build (p :: parts)) xs) as [e|ys] eqn:Hys;
          [discriminate|].
        apply forallb_forall. intros x Hx.
        pose proof (proj1 (traverse_inr_iff _ xs) (ex_intro _ ys Hys) x Hx)
          as Hb.
        apply build_inr_iff in Hb. rewrite Hb. reflexivity.
      * intros H.
        destruct (proj2 (traverse_inr_iff (build (p :: parts)) xs)) as [ys Hys].
        { intros x Hx. apply build_inr_iff. rewrite forallb_forall in H.
          specialize (H x Hx). apply negb_true_iff in H. exact H. }
        rewrite Hys. eexists. reflexivity.
    + split; [reflexivity|]. intros _. eexists. reflexivity.
  - (* copy when defined *)
    split; [reflexivity|]. intros _. destruct (defined v); eexists; reflexivity.
Qed.

Lemma kinds_guarded : forallb (fun k => guarded (rules k)) kinds = true.
Proof. vm_compute. reflexivity. Qed.

(** A table whose statements can throw only through [map] returns
    exactly on the sendable entities. *)
Lemma toWire_returns_iff (table : list rule) (src : value) :
  NoDup (map key table) ->
  guarded table = true ->
  ((exists x, toWire table src = inr x) <-> sendable table src = true).
Proof.
  intros Hnd Hg. unfold guarded in Hg.
  apply andb_true_iff in Hg as [Hne Hg]. rewrite forallb_forall in Hg.
  unfold sendable. rewrite (toWire_flat table src Hnd).
  destruct (nullish src) eqn:Hs; cbn [negb andb].
  - split; [|discriminate]. intros [x H].
    destruct table as [|r rs]; [discriminate|].
    cbn [traverse] in H. unfold emitted at 1 in H. unfold read in H.
    rewrite Hs in H. discriminate.
  - rewrite forallb_forall. split.
    + intros [x H] r Hr.
      destruct (traverse (emitted src) table) as [e|parts] eqn:Ht;
        [discriminate|].
      pose proof (proj1 (traverse_inr_iff _ _) (ex_intro _ parts Ht) r Hr)
        as He.
      exact (proj1 (emitted_inr_iff src r Hs (Hg r Hr)) He).
    + intros H.
      destruct (proj2 (traverse_inr_iff (emitted src) table)) as [parts Hp].
      { intros r Hr. apply (emitted_inr_iff src r Hs (Hg r Hr)).
        exact (H r Hr). }
      rewrite Hp. eexists. reflexivity.
Qed.

(** X11. A [map...ToXero] method returns exactly on the sendable
    entities: the entity is neither [undefined] nor [null], and each field
    it maps element by element (line items, journal lines, the payments of
    a batch) is falsy or an array without an [undefined] or [null]
    element. A missing field or a field of an unexpected primitive type
    never makes it throw; nothing is validated. *)
Theorem entity_sendable_iff (k : kind) (src : value) :
  In k kinds ->
  ((exists x, to_wire k src = inr x) <-> sendable (rules k) src = true).
Proof.
  intros Hk. pose proof kinds_guarded as Hg. rewrite forallb_forall in Hg.
  exact (toWire_returns_iff (rules k) src (kind_keys_NoDup k Hk) (Hg k Hk)).
Qed.

Lemma entity_sendable_iff_witness :
  (exists x, mapInvoiceToXero (VObj [ ("type", VNum (of_Z 7));
                                       ("lineItems", VArr [VObj []]) ])
             = inr x)
  /\ ~ (exists x, mapInvoiceToXero (VObj [("lineItems", VStr "none")]) = inr x).
Proof.
  split.
  - apply (entity_sendable_iff invoice_kind); [cbn; tauto|reflexivity].
  - intros H.
    apply (entity_sendable_iff invoice_kind) in H; [|cbn; tauto].
    discriminate H.
Defined.

End Mappers.

(* ===================================================================== *)
(** ** What the create methods send, and the identity of an update *)
(* ===================================================================== *)

Module Creation.
Import Js Mapper Entities Text Platform Env Client Reading Samples Operations.
Import Shapes Fixtures.
Import MapperFacts ClientFacts Payload Requests.

(** What a create method with guarded properties sends holds only what
    the caller supplied. *)
Lemma guarded_create (c : call) (u : update) (env : Runtime)
  (creds : TenantCredentials) (log : list Request) (req : Request) :
  creating c = Some u ->
  In req (sent env creds c log) ->
  exists doc o,
    body (init req) = Some doc
    /\ is_json doc = true
    /\ record_in (envelope u) doc = Some o
    /\ (forall k, In k (keys o) ->
          exists f, In (k, f) (provenance (table u))
                    /\ defined (member (entity u) f) = true)
    /\ (forall rules r y,
          table u = inl rules -> In r rules ->
          lookup (key r) o = Some y ->
          faithful r (member (entity u) (field r)) y).
Proof.
  intros Hu Hin. unfold sent in Hin.
  assert (H : exists doc o,
    body (init req) = Some doc
    /\ is_json doc = true
    /\ record_in (envelope u) doc = Some o
    /\ (forall k, In k (keys o) ->
          @None string = Some k
          \/ exists f, In (k, f) (provenance (table u))
                       /\ defined (member (entity u) f) = true)
    /\ (forall rules r y,
          table u = inl rules -> In r rules ->
          lookup (key r) o = Some y ->
          faithful r (member (entity u) (field r)) y)).
  { destruct c; cbn [creating] in Hu; try discriminate; injection Hu as <-;
      cbn [run] in Hin; autounfold with methods in Hin;
      destruct (sent_by_update _ _ _ _ _ _ _ _ Hin) as (xero & Hx & ->);
      cbn [body POST PUT entity table identity envelope];
      match goal with
      | |- exists doc o, Some ?d = Some doc /\ @?P doc o =>
          let H := fresh "H" in
          assert (H : exists o, P d o);
          [ cbv beta
          | destruct H as [o H]; exists d, o; split; [reflexivity|exact H] ]
      end.
    - by_table contact_kind (Some "Contacts").
    - by_table account_kind (@None string).
    - by_table invoice_kind (Some "Invoices").
    - by_table credit_note_kind (Some "CreditNotes").
    - by_table payment_kind (Some "Payments").
    - by_table bank_transaction_kind (Some "BankTransactions").
    - by_table item_kind (Some "Items").
    - by_table purchase_order_kind (Some "PurchaseOrders").
    - by_table quote_kind (Some "Quotes").
    - by_table manual_journal_kind (Some "ManualJournals").
    - by_table batch_payment_kind (Some "BatchPayments").
    - by_table tax_rate_kind (Some "TaxRates").
    - by_table repeating_invoice_kind (Some "RepeatingInvoices").
    - destruct (build_supplied_only _ _ _ Hx) as (o & Ho & Hk).
      exists o. split.
      { apply stringify_is_json. exact (build_defined _ _ _ Hx). }
      split; [rewrite Ho; reflexivity|]. split.
      + intros k Hin'. right. destruct (Hk k Hin') as (p & Hp & Hn & Hd).
        exists (part_source p). split; [|exact Hd]. cbn [provenance].
        apply in_map_iff. exists p. split; [rewrite Hn; reflexivity|exact Hp].
      + intros rules r y [=]. }
  destruct H as (doc & o & H1 & H2 & H3 & H4 & H5).
  exists doc, o. repeat (split; [assumption|]). split; [|exact H5].
  intros k Hk. destruct (H4 k Hk) as [E|E]; [discriminate|exact E].
Qed.

(** The record [createBankTransfer] sends. *)
Lemma transfer_record (x item : value) :
  (let! fromAccount := read x "fromBankAccount" in
   let! toAccount := read x "toBankAccount" in
   let! amount := read x "amount" in
   let! date := read x "date" in
   ok (literal
         [ ("FromBankAccount",
            literal [("AccountID", opt_member fromAccount "accountId")]);
           ("ToBankAccount",
            literal [("AccountID", opt_member toAccount "accountId")]);
           ("Amount", amount);
           ("Date", date) ])) = inr item ->
  exists o,
    stringify (wrap "BankTransfers" item)
    = VObj [("BankTransfers", VArr [VObj o])]
    /\ is_json (VObj o) = true
    /\ lookup "FromBankAccount" o
       = Some (VObj (written
                       [("AccountID",
                         opt_member (member x "fromBankAccount") "accountId")]))
    /\ lookup "ToBankAccount" o
       = Some (VObj (written
                       [("AccountID",
                         opt_member (member x "toBankAccount") "accountId")]))
    /\ lookup "Amount" o
       = (if defined (member x "amount")
          then Some (stringify (member x "amount")) else None)
    /\ lookup "Date" o
       = (if defined (member x "date")
          then Some (stringify (member x "date")) else None)
    /\ incl (keys o) ["FromBankAccount"; "ToBankAccount"; "Amount"; "Date"].
Proof.
  unfold read. destruct (nullish x); [discriminate|].
  unfold ok, literal. cbn [and_then]. intros H. injection H as <-.
  match goal with
  | |- context [wrap _ (VObj ?o)] => set (record := o)
  end.
  exists (written record). split.
  { exact (proj1 (wrapped_record "BankTransfers" (VObj record) (written record)
                    (stringify_VObj record))). }
  split.
  { rewrite <- stringify_VObj. apply stringify_is_json. reflexivity. }
  unfold record. clear record.
  set (a := opt_member (member x "fromBankAccount") "accountId").
  set (b := opt_member (member x "toBankAccount") "accountId").
  cbn [written flat_map snd fst app]. rewrite !stringify_VObj.
  destruct (member x "amount"); destruct (member x "date");
    cbn [defined lookup String.eqb Ascii.eqb Bool.eqb app keys map fst];
    repeat (split; [reflexivity|]);
    intros k Hk; cbn [In] in *; tauto.
Qed.

(** X12. What a create method that takes a partial entity sends holds
    only properties the caller supplied, with one exception. For every
    such method but [createBankTransfer], each key of the wire record is
    the wire key of an entity field that is not undefined, the nested
    objects hold only keys whose source field is not undefined, and the
    document holds no [undefined] anywhere: nothing is defaulted.
    [createBankTransfer] always sends [FromBankAccount] and
    [ToBankAccount], as objects that are empty when the caller supplied no
    account; its [Amount] and [Date] are sent only when supplied. *)
Theorem create_sends_only_supplied (c : call) (x : value) (env : Runtime)
  (creds : TenantCredentials) (log : list Request) (req : Request) :
  partial_create c = Some x ->
  In req (sent env creds c log) ->
  (forall u,
     creating c = Some u ->
     entity u = x
     /\ exists doc o,
          body (init req) = Some doc
          /\ is_json doc = true
          /\ record_in (envelope u) doc = Some o
          /\ (forall k, In k (keys o) ->
                exists f, In (k, f) (provenance (table u))
                          /\ defined (member x f) = true)
          /\ (forall rules r y,
                table u = inl rules -> In r rules ->
                lookup (key r) o = Some y ->
                faithful r (member x (field r)) y))
  /\ (creating c = None ->
      c = CreateBankTransfer x
      /\ exists o,
           body (init req) = Some (VObj [("BankTransfers", VArr [VObj o])])
           /\ is_json (VObj o) = true
           /\ lookup "FromBankAccount" o
              = Some (VObj (written
                              [("AccountID",
                                opt_member (member x "fromBankAccount")
                                           "accountId")]))
           /\ lookup "ToBankAccount" o
              = Some (VObj (written
                              [("AccountID",
                                opt_member (member x "toBankAccount")
                                           "accountId")]))
           /\ lookup "Amount" o
              = (if defined (member x "amount")
                 then Some (stringify (member x "amount")) else None)
           /\ lookup "Date" o
              = (if defined (member x "date")
                 then Some (stringify (member x "date")) else None)
           /\ incl (keys o)
                   ["FromBankAccount"; "ToBankAccount"; "Amount"; "Date"]).
Proof.
  intros Hp Hin. split.
  - intros u Hu.
    assert (He : entity u = x).
    { destruct c; cbn [creating] in Hu; try discriminate Hu;
        injection Hu as <-; cbn [partial_create] in Hp; injection Hp as <-;
        reflexivity. }
    split; [exact He|]. rewrite <- He.
    exact (guarded_create c u env creds log req Hu Hin).
  - intros Hn.
    destruct c; cbn [partial_create] in Hp; try discriminate Hp;
      cbn [creating] in Hn; try discriminate Hn. injection Hp as <-.
    split; [reflexivity|]. unfold sent in Hin. cbn [run] in Hin.
    unfold createBankTransfer in Hin.
    destruct (sent_by_update _ _ _ _ _ _ _ _ Hin) as (item & Hi & ->).
    destruct (transfer_record _ item Hi) as (o & Hd & Hrest).
    exists o. split; [|exact Hrest]. cbn [body PUT]. rewrite Hd. reflexivity.
Qed.

Lemma create_sends_only_supplied_witness :
  (exists doc o,
     body (init {| url := "https://api.xero.com/api.xro/2.0/Contacts";
                   init := POST (wrap "Contacts"
                                   (VObj [("IsSupplier", VBool false)]));
                   headers := [ ("Authorization", "Bearer token");
                                ("Xero-Tenant-Id", "tenant");
                                ("Content-Type", "application/json");
                                ("Accept", "application/json") ] |})
     = Some doc
     /\ is_json doc = true
     /\ record_in (Some "Contacts") doc = Some o
     /\ keys o = ["IsSupplier"])
  /\ exists o,
       body (init {| url := "https://api.xero.com/api.xro/2.0/BankTransfers";
                     init := PUT (wrap "BankTransfers"
                                    (VObj [ ("FromBankAccount", VObj []);
                                            ("ToBankAccount", VObj []) ]));
                     headers := [ ("Authorization", "Bearer token");
                                  ("Xero-Tenant-Id", "tenant");
                                  ("Content-Type", "application/json");
                                  ("Accept", "application/json") ] |})
       = Some (VObj [("BankTransfers", VArr [VObj o])])
       /\ lookup "FromBankAccount" o = Some (VObj [])
       /\ lookup "ToBankAccount" o = Some (VObj []).
Proof.
  split.
  - destruct (proj1 (create_sends_only_supplied
                       (CreateContact
                          (VObj [ ("name", VStr ""); ("emailAddress", VUndef);
                                  ("isSupplier", VBool false) ]))
                       _ (answering 200 [] one_contact) tenant []
                       _ eq_refl (or_introl eq_refl)) _ eq_refl)
      as (_ & doc & o & Hb & Hj & Hr & _).
    exists doc, o. split; [exact Hb|]. split; [exact Hj|].
    cbn [envelope] in Hr. split; [exact Hr|].
    vm_compute in Hb. injection Hb as <-. vm_compute in Hr.
    injection Hr as <-. reflexivity.
  - destruct (proj2 (create_sends_only_supplied
                       (CreateBankTransfer (VObj [("amount", VUndef)]))
                       _ (answering 200 [] one_contact) tenant []
                       _ eq_refl (or_introl eq_refl)) eq_refl)
      as (_ & o & Hb & _ & Hf & Ht & _).
    exists o. split; [exact Hb|]. split; [exact Hf|exact Ht].
Defined.

(** *** The identity of an update *)

Lemma lookup_written_assign (k : string) (v : value) (o : props) :
  defined v = true ->
  lookup k (written (assign k v o)) = Some (stringify v).
Proof.
  intros Hv. induction o as [|[k' v'] o IH]; cbn [assign].
  - unfold written. cbn [flat_map fst snd app].
    destruct v; try discriminate; cbn [lookup app];
      rewrite String.eqb_refl; reflexivity.
  - destruct (String.eqb_spec k k') as [->|Hne].
    + unfold written. cbn [flat_map fst snd].
      destruct v; try discriminate; cbn [app lookup];
        rewrite String.eqb_refl; reflexivity.
    + unfold written in *. cbn [flat_map fst snd].
      rewrite lookup_app.
      destruct v'; cbn [lookup]; try rewrite (eqb_false_of_neq _ _ Hne);
        exact IH.
Qed.

(** X13. [updateInvoice] and [updateBankTransaction] send the request to
    the path of the identifier they are given and write the same
    identifier into the record, whatever the entity holds: the record of
    the body and the path of the request always name the same invoice or
    transaction. *)
Theorem update_identity_matches_path (c : call) (path idKey id : string)
  (u : update) (env : Runtime) (creds : TenantCredentials)
  (log : list Request) (req : Request) :
  addressed c = Some (path, idKey, id) ->
  updating c = Some u ->
  In req (sent env creds c log) ->
  url req = clientBaseUrl creds ++ path ++ id
  /\ exists doc o,
       body (init req) = Some doc
       /\ record_in (envelope u) doc = Some o
       /\ lookup idKey o = Some (VStr id).
Proof.
  intros Ha Hu Hin. unfold sent in Hin.
  destruct c; cbn [addressed] in Ha; try discriminate;
    injection Ha as <- <- <-; cbn [updating] in Hu; injection Hu as <-;
    cbn [run] in Hin; autounfold with methods in Hin;
    match type of Hin with
    | In _ (skipn _ (snd (bind (lift ?pre)
                            (fun x => bind (request _ _ (@?ep x) (@?pl x))
                                           (fun d => lift (@?post x d)))
                            _))) =>
        destruct (sent_after env creds pre ep pl post log req Hin)
          as (x & Hx & -> & ->)
    end;
    (split; [reflexivity|]);
    destruct (toWire_VObj _ _ _ Hx) as [o0 ->];
    cbn [body POST envelope with_property];
    match goal with
    | |- context [wrap ?K (VObj (assign ?k ?v o0))] =>
        destruct (wrapped_record K (VObj (assign k v o0))
                    (written (assign k v o0)) (stringify_VObj _))
          as [_ Hrec];
        exists (stringify (wrap K (VObj (assign k v o0)))),
               (written (assign k v o0));
        split; [reflexivity|]; split; [exact Hrec|];
        exact (lookup_written_assign k v o0 eq_refl)
    end.
Qed.

Lemma update_identity_matches_path_witness :
  exists doc o,
    body (init {| url := "https://api.xero.com/api.xro/2.0/Invoices/i1";
                  init := POST (wrap "Invoices"
                                  (VObj [ ("Reference", VStr "PO-7");
                                          ("InvoiceID", VStr "i1") ]));
                  headers := [ ("Authorization", "Bearer token");
                               ("Xero-Tenant-Id", "tenant");
                               ("Content-Type", "application/json");
                               ("Accept", "application/json") ] |})
    = Some doc
    /\ record_in (Some "Invoices") doc = Some o
    /\ lookup "InvoiceID" o = Some (VStr "i1").
Proof.
  exact (proj2 (update_identity_matches_path
                  (UpdateInvoice "i1"
                     (VObj [ ("invoiceId", VStr "other");
                             ("reference", VStr "PO-7") ]))
                  "/Invoices/" "InvoiceID" "i1" _
                  (answering 200 [] one_invoice) tenant [] _
                  eq_refl eq_refl (or_introl eq_refl))).
Defined.

End Creation.

(* ===================================================================== *)
(** ** Numbers in headers and settings *)
(* ===================================================================== *)

Module Numbers.
Import Js Mapper Entities Text Platform Env Client Reading Samples Settings.

(** *** [parseInt] reads back what a number prints as *)

Ltac read_digit :=
  cbn [digits];
  match goal with
  | |- context [digit_of ?c] =>
      let v := eval vm_compute in (digit_of c) in
      change (digit_of c) with v
  end;
  cbv iota.

Lemma digits_acc (d : Decimal.uint) (acc : positive) :
  digits (DecimalString.NilEmpty.string_of_uint d) (Some (Zpos acc))
  = Some (Zpos (Pos.of_uint_acc d acc)).
Proof.
  revert acc. induction d; intros acc;
    cbn [DecimalString.NilEmpty.string_of_uint Pos.of_uint_acc];
    [reflexivity|..];
    read_digit; rewrite <- IHd; do 2 f_equal; lia.
Qed.

Lemma digits_uint (d : Decimal.uint) (acc : option Z) :
  d <> Decimal.Nil ->
  acc = None \/ acc = Some 0%Z ->
  digits (DecimalString.NilEmpty.string_of_uint d) acc
  = Some (Z.of_N (Pos.of_uint d)).
Proof.
  revert acc. induction d; intros acc Hd Hacc; [contradiction|..];
    cbn [DecimalString.NilEmpty.string_of_uint Pos.of_uint];
    read_digit;
    try (destruct Hacc as [->| ->]; cbn [Z.mul Z.add Pos.mul];
         rewrite digits_acc; reflexivity).
  destruct d; try (apply IHd; [discriminate|right];
                   destruct Hacc as [->| ->]; reflexivity).
  destruct Hacc as [->| ->]; reflexivity.
Qed.

Lemma string_of_uint_head (d : Decimal.uint) :
  d <> Decimal.Nil ->
  exists c r,
    DecimalString.NilEmpty.string_of_uint d = String c r
    /\ is_space c = false /\ c <> "-"%char /\ c <> "+"%char.
Proof.
  destruct d; intros H; [contradiction|..];
    cbn [DecimalString.NilEmpty.string_of_uint]; do 2 eexists;
    (split; [reflexivity|]); repeat split; discriminate.
Qed.

Lemma parseInt_unsigned (s : string) (c : ascii) (r : string) (n : Z) :
  s = String c r -> is_space c = false -> c <> "-"%char -> c <> "+"%char ->
  digits s None = Some n ->
  parseInt s = of_Z n /\ parseInt (String "-" s) = of_Z (- n).
Proof.
  intros -> Hs Hm Hp Hd.
  assert (Hsign : match String c r with
                  | String "-" r' => (true, r')
                  | String "+" r' => (false, r')
                  | _ => (false, String c r)
                  end = (false, String c r)).
  { destruct c as [[] [] [] [] [] [] [] []]; try reflexivity;
      exfalso; (apply Hm; reflexivity) || (apply Hp; reflexivity). }
  split.
  - unfold parseInt. cbn [skip_spaces]. rewrite Hs, Hsign. cbn [fst snd].
    rewrite Hd. reflexivity.
  - unfold parseInt. cbn [skip_spaces].
    change (is_space "-") with false. cbv iota. cbn [fst snd].
    rewrite Hd. reflexivity.
Qed.

Lemma parseInt_decimal (z : Z) : parseInt (decimal z) = of_Z z.
Proof.
  unfold decimal. destruct z as [|p|p]; [reflexivity|..];
    cbn [Z.to_int DecimalString.NilZero.string_of_int];
    pose proof (DecimalPos.Unsigned.to_uint_nonnil p) as Hn;
    assert (E : DecimalString.NilZero.string_of_uint (Pos.to_uint p)
                = DecimalString.NilEmpty.string_of_uint (Pos.to_uint p))
      by (destruct (Pos.to_uint p); [contradiction|reflexivity..]);
    rewrite E;
    destruct (string_of_uint_head _ Hn) as (c & r & Hs & Hsp & Hm & Hp);
    pose proof (digits_uint (Pos.to_uint p) None Hn (or_introl eq_refl)) as Hd;
    rewrite DecimalPos.Unsigned.of_to in Hd;
    destruct (parseInt_unsigned _ c r _ Hs Hsp Hm Hp Hd) as [H1 H2].
  - exact H1.
  - exact H2.
Qed.

Lemma decimal_not_empty (z : Z) : decimal z <> "".
Proof.
  unfold decimal. destruct z as [|p|p]; [discriminate|..];
    cbn [Z.to_int DecimalString.NilZero.string_of_int]; [|discriminate].
  pose proof (DecimalPos.Unsigned.to_uint_nonnil p) as Hn.
  destruct (Pos.to_uint p); [contradiction|discriminate..].
Qed.

(** X14. On a 429 response whose [Retry-After] header is the decimal
    form of an integer, [request] fails with the rate-limit error carrying
    exactly that number of seconds: [0] gives 0, not the default of 60
    (the header is a non-empty string, hence truthy), and a negative value
    is passed on as it is. *)
Theorem retry_after_seconds_read (env : Runtime) (r : Response) (seconds : Z) :
  status r = 429%Z ->
  headers_get "Retry-After" (response_headers r) = Some (decimal seconds) ->
  (Z.abs seconds < 2 ^ 53)%Z ->
  settle env r = inl (RateLimitError "Rate limit exceeded" (of_Z seconds)).
Proof.
  intros Hs Hh _. unfold settle. rewrite Hs. cbn [Z.eqb Pos.eqb].
  unfold retry_after_seconds. rewrite Hh.
  destruct (String.eqb_spec (decimal seconds) "") as [E|_].
  - destruct (decimal_not_empty seconds E).
  - rewrite parseInt_decimal. reflexivity.
Qed.

Lemma retry_after_seconds_read_witness :
  settle (engine (Rejected ""))
    {| status := 429; response_headers := [("retry-after", "0")]; text := "" |}
  = inl (RateLimitError "Rate limit exceeded" (of_Z 0)).
Proof.
  apply (retry_after_seconds_read _ _ 0); [reflexivity|reflexivity|].
  vm_compute. reflexivity.
Defined.

(** X15. [getEnvNumber] never returns [NaN] unless its default is [NaN]:
    a variable that is missing, that is no string, or in which [parseInt]
    finds no integer gives the default, and a variable that is the decimal
    form of an integer (of magnitude below 2^53) gives that integer, zero
    and the negative ones included: no range is checked. Without variables
    the three settings are 50000, 20 and 100. *)
Theorem getEnvNumber_falls_back (env : props) (key : string)
  (defaultValue : number) :
  (isNaN defaultValue = false ->
   isNaN (getEnvNumber env key defaultValue) = false)
  /\ (forall z : Z,
        (Z.abs z < 2 ^ 53)%Z ->
        lookup key env = Some (VStr (decimal z)) ->
        getEnvNumber env key defaultValue = of_Z z)
  /\ (forall s,
        forallb (fun c => (nat_of_ascii c <? 128)%nat)
                (list_ascii_of_string s) = true ->
        lookup key env = Some (VStr s) -> parseInt s = NaN ->
        getEnvNumber env key defaultValue = defaultValue)
  /\ ((forall s, lookup key env <> Some (VStr s)) ->
      getEnvNumber env key defaultValue = defaultValue)
  /\ getCharacterLimit [] = of_Z 50000
  /\ getDefaultPageSize [] = of_Z 20
  /\ getMaxPageSize [] = of_Z 100.
Proof.
  unfold getEnvNumber. split; [|split; [|split; [|split]]].
  - intros Hd. destruct (lookup key env) as [[| | | |s| |]|]; try exact Hd.
    destruct (parseInt s) eqn:E; [exact Hd|reflexivity].
  - intros z _ ->. rewrite parseInt_decimal. reflexivity.
  - intros s _ -> ->. reflexivity.
  - intros H. destruct (lookup key env) as [[| | | |s| |]|]; try reflexivity.
    destruct (H s eq_refl).
  - repeat split.
Qed.

End Numbers.

(* ===================================================================== *)
(** ** From the headers of the Worker to the headers of the client *)
(* ===================================================================== *)

Module Entry.
Import Js Mapper Entities Text Platform Env Client Reading Samples Settings.

Lemma blank_Some (s : string) : blank (Some s) = (s =? "").
Proof. reflexivity. Qed.

Lemma validateCredentials_inr (creds : TenantCredentials) :
  validateCredentials creds = inr tt
  <-> blank (accessToken creds) = false /\ blank (tenantId creds) = false.
Proof.
  unfold validateCredentials.
  destruct (blank (accessToken creds)), (blank (tenantId creds));
    split; try discriminate; try (intros [? ?]; discriminate);
    try reflexivity.
  intros _. split; reflexivity.
Qed.

Lemma getAuthHeaders_inr_iff (creds : TenantCredentials) :
  (exists auth, getAuthHeaders creds = inr auth)
  <-> blank (accessToken creds) = false /\ blank (tenantId creds) = false.
Proof.
  unfold getAuthHeaders.
  destruct (blank (accessToken creds)), (blank (tenantId creds)); split;
    try (intros [auth H]; discriminate); try (intros [? ?]; discriminate).
  - intros _. split; reflexivity.
  - intros _. eexists. reflexivity.
Qed.

(** X16. The two credential gates agree: [validateCredentials] accepts
    a credential set exactly when the client can build its authorization
    headers from it. For the credentials read off the headers of a
    request, that is exactly when [X-Xero-Access-Token] and
    [X-Xero-Tenant-Id] are both present and not empty; the bearer token and
    the tenant identifier the client then sends are the values of those two
    headers, and the base URL is the value of [X-Xero-Base-URL] when it is
    present and not empty, the default one otherwise. *)
Theorem header_credentials (request : Incoming) :
  let credentials := parseTenantCredentials request in
  let token :=
    header_or_empty "X-Xero-Access-Token" (incoming_headers request) in
  let tenant :=
    header_or_empty "X-Xero-Tenant-Id" (incoming_headers request) in
  (forall creds,
     validateCredentials creds = inr tt
     <-> exists auth, getAuthHeaders creds = inr auth)
  /\ (validateCredentials credentials = inr tt
      <-> token <> "" /\ tenant <> "")
  /\ (forall auth,
        getAuthHeaders credentials = inr auth ->
        auth = [ ("Authorization", "Bearer " ++ token);
                 ("Xero-Tenant-Id", tenant);
                 ("Content-Type", "application/json");
                 ("Accept", "application/json") ])
  /\ clientBaseUrl credentials
     = match headers_get "X-Xero-Base-URL" (incoming_headers request) with
       | Some v => if v =? "" then API_BASE_URL else v
       | None => API_BASE_URL
       end.
Proof.
  cbv zeta. split; [|split; [|split]].
  - intros creds. rewrite validateCredentials_inr, getAuthHeaders_inr_iff.
    reflexivity.
  - rewrite validateCredentials_inr. cbn [parseTenantCredentials accessToken
                                          tenantId blank].
    split.
    + intros [H1 H2]. split; intros E; rewrite E in *; discriminate.
    + intros [H1 H2]. split; apply String.eqb_neq; assumption.
  - intros auth. unfold getAuthHeaders.
    cbn [parseTenantCredentials accessToken tenantId blank text_of].
    destruct (_ =? ""); [discriminate|].
    destruct (_ =? ""); [discriminate|].
    intros H. injection H as <-. reflexivity.
  - unfold clientBaseUrl. cbn [parseTenantCredentials baseUrl].
    destruct (headers_get "X-Xero-Base-URL" (incoming_headers request))
      as [v|]; [|reflexivity].
    destruct (String.eqb_spec v "") as [->|Hne]; [reflexivity|].
    cbn [blank text_of]. rewrite (proj2 (String.eqb_neq v "") Hne).
    reflexivity.
Qed.

(** *** The Worker *)

Lemma served_inv (engine : Runtime) (request : Incoming)
  (creds : TenantCredentials) :
  Index.fetch engine request = Index.Served creds ->
  pathname request = "/mcp" /\ http_method request = "POST"
  /\ creds = parseTenantCredentials request
  /\ validateCredentials creds = inr tt.
Proof.
  unfold Index.fetch.
  destruct (String.eqb_spec (pathname request) "/health"); [discriminate|].
  destruct (String.eqb_spec (pathname request) "/mcp") as [Hp|_];
    cbn [andb].
  - destruct (String.eqb_spec (http_method request) "POST") as [Hm|_].
    + destruct (validateCredentials (parseTenantCredentials request))
        as [e|[]] eqn:Hv; [discriminate|].
      intros H. injection H as <-. repeat split; assumption.
    + destruct (pathname request =? "/sse"); discriminate.
  - destruct (pathname request =? "/sse"); discriminate.
Qed.

(** X17. The Worker hands a request to the MCP server only on a POST to
    [/mcp] whose credential headers pass [validateCredentials], and the
    client of that server is created with the credentials of those
    headers, so that client never lacks a credential. It answers 401
    exactly on a POST to [/mcp] with a credential header missing or empty,
    naming the access token first; any other method on [/mcp] is answered
    with the description of the server, status 200. *)
Theorem worker_admits (engine : Runtime) (request : Incoming) :
  let token :=
    header_or_empty "X-Xero-Access-Token" (incoming_headers request) in
  let tenant :=
    header_or_empty "X-Xero-Tenant-Id" (incoming_headers request) in
  (forall creds,
     Index.fetch engine request = Index.Served creds ->
     pathname request = "/mcp" /\ http_method request = "POST"
     /\ creds = parseTenantCredentials request
     /\ ~ missing creds
     /\ exists auth, getAuthHeaders creds = inr auth)
  /\ ((exists doc, Index.fetch engine request = Index.Document 401 doc)
      <-> pathname request = "/mcp" /\ http_method request = "POST"
          /\ (token = "" \/ tenant = ""))
  /\ (pathname request = "/mcp" -> http_method request = "POST" ->
      token = "" ->
      Index.fetch engine request
      = Index.Document 401
          (literal
             [ ("error", VStr "Unauthorized");
               ("message",
                VStr "Missing X-Xero-Access-Token header. Provide a valid OAuth 2.0 access token.");
               ("required_headers",
                VArr [VStr "X-Xero-Access-Token"; VStr "X-Xero-Tenant-Id"]) ]))
  /\ (pathname request = "/mcp" -> http_method request <> "POST" ->
      Index.fetch engine request = Index.Document 200 Index.description).
Proof.
  cbv zeta. split; [|split; [|split]].
  - intros creds H. destruct (served_inv engine request creds H)
      as (Hp & Hm & Hc & Hv).
    repeat (split; [assumption|]).
    apply validateCredentials_inr in Hv as [H1 H2]. split.
    + intros [E|E]; rewrite E in *; discriminate.
    + apply getAuthHeaders_inr_iff. split; assumption.
  - unfold Index.fetch.
    destruct (String.eqb_spec (pathname request) "/health") as [Hh|_].
    { split; [intros [doc H]; discriminate|].
      intros (Hp & _). rewrite Hp in Hh. discriminate. }
    destruct (String.eqb_spec (pathname request) "/mcp") as [Hp|Hp];
      cbn [andb].
    + destruct (String.eqb_spec (http_method request) "POST") as [Hm|Hm].
      * unfold validateCredentials.
        cbn [parseTenantCredentials accessToken tenantId blank].
        destruct (String.eqb_spec
                    (header_or_empty "X-Xero-Access-Token"
                       (incoming_headers request)) "") as [Ht|Ht].
        { split; [|intros _; eexists; reflexivity].
          intros _. repeat split; try assumption. left. exact Ht. }
        destruct (String.eqb_spec
                    (header_or_empty "X-Xero-Tenant-Id"
                       (incoming_headers request)) "") as [Hn|Hn].
        { split; [|intros _; eexists; reflexivity].
          intros _. repeat split; try assumption. right. exact Hn. }
        split; [intros [doc H]; discriminate|].
        intros (_ & _ & [E|E]); contradiction.
      * split; [|intros (_ & E & _); contradiction].
        rewrite Hp. cbn. intros [doc H]. discriminate.
    + split; [|intros (E & _); contradiction].
      destruct (pathname request =? "/sse"); intros [doc H]; discriminate.
  - intros Hp Hm Ht. unfold Index.fetch. rewrite Hp, Hm. cbn [String.eqb
      Ascii.eqb Bool.eqb andb].
    unfold validateCredentials.
    cbn [parseTenantCredentials accessToken tenantId blank]. rewrite Ht.
    reflexivity.
  - intros Hp Hm. unfold Index.fetch. rewrite Hp.
    apply String.eqb_neq in Hm. rewrite Hm. reflexivity.
Qed.

End Entry.

(* ===================================================================== *)
(** ** The pagination helpers *)
(* ===================================================================== *)

Module Paging.
Import Js Mapper Entities Text Platform Env Client Reading Samples Pagination.

(** X18. [normalizePaginationParams] always returns a page that is
    truthy (the given one, or 1 when it is missing, 0 or [params] is
    absent), it changes nothing when applied to its own result, and the
    page it returns is the page every paginated list method reports. *)
Theorem normalized_page (params : value) :
  normalizePaginationParams (normalizePaginationParams params)
  = normalizePaginationParams params
  /\ truthy (member (normalizePaginationParams params) "page") = true
  /\ (truthy (opt_member params "page") = false ->
      member (normalizePaginationParams params) "page" = VNum (of_Z 1))
  /\ forall items,
       member (page_of items params) "page"
       = member (normalizePaginationParams params) "page".
Proof.
  assert (Hpage : forall items,
            member (page_of items params) "page"
            = or_else (opt_member params "page") (VNum (of_Z 1)))
    by reflexivity.
  assert (Hnorm : member (normalizePaginationParams params) "page"
                  = or_else (opt_member params "page") (VNum (of_Z 1)))
    by reflexivity.
  rewrite Hnorm. unfold or_else.
  split; [|split; [|split]].
  - unfold normalizePaginationParams, literal, or_else.
    cbn [opt_member nullish member lookup String.eqb Ascii.eqb Bool.eqb].
    destruct (truthy (opt_member params "page")) eqn:Hp;
      [rewrite Hp|]; reflexivity.
  - destruct (truthy (opt_member params "page")) eqn:Hp;
      [exact Hp|reflexivity].
  - intros ->. reflexivity.
  - intros items. rewrite Hpage. reflexivity.
Qed.

(** X19. [createPaginatedResponse] on an array counts its elements and
    always gives a [hasMore] that is neither [undefined] nor [null]: the
    one of the options when they hold one (a falsy one included), [false]
    otherwise. With no options and no items it serialises to the same JSON
    as [emptyPaginatedResponse]. Options that are [null] are not defaulted:
    the call throws. *)
Theorem created_page_counts (items : list value) (options : value) :
  (options <> VNull ->
   exists v,
     createPaginatedResponse (VArr items) options = inr v
     /\ member v "items" = VArr items
     /\ member v "count" = VNum (of_nat (length items))
     /\ member v "page" = opt_member options "page"
     /\ member v "hasMore"
        = nullish_or (opt_member options "hasMore") (VBool false)
     /\ nullish (member v "hasMore") = false)
  /\ createPaginatedResponse (VArr items) VNull
     = inl (TypeError (ReadOfNullish VNull "page"))
  /\ and_then (createPaginatedResponse (VArr []) VUndef)
       (fun v => ok (stringify v))
     = inr (stringify emptyPaginatedResponse).
Proof.
  split; [|split; reflexivity].
  intros Hn. unfold createPaginatedResponse.
  assert (H : exists o,
              (if defined options then options else literal []) = o
              /\ nullish o = false
              /\ forall k, member o k = opt_member options k).
  { destruct options; try (eexists; repeat split; reflexivity).
    contradiction. }
  destruct H as (o & -> & Ho & Hm).
  rewrite (MapperFacts.read_present (VArr items) "length" eq_refl).
  rewrite !(MapperFacts.read_present o _ Ho). cbn [and_then].
  eexists. split; [reflexivity|].
  cbn [member literal lookup String.eqb Ascii.eqb Bool.eqb].
  rewrite !Hm. repeat split.
  unfold nullish_or. destruct (nullish (opt_member options "hasMore")) eqn:E;
    [reflexivity|exact E].
Qed.

Lemma created_page_counts_witness :
  exists v,
    createPaginatedResponse (VArr [VNull; VNull])
      (VObj [("hasMore", VNum (of_Z 0))]) = inr v
    /\ member v "count" = VNum (of_Z 2)
    /\ member v "hasMore" = VNum (of_Z 0).
Proof.
  destruct (proj1 (created_page_counts [VNull; VNull]
                     (VObj [("hasMore", VNum (of_Z 0))])))
    as (v & Hv & _ & Hc & _ & Hh & _); [discriminate|].
  exists v. split; [exact Hv|]. split; [exact Hc|exact Hh].
Defined.

Section WithArithmetic.
Variable arithmetic : Arithmetic.
Variable env : Runtime.

Lemma successor_of_Z (page : Z) :
  (- 2 ^ 53 <= page < 2 ^ 53)%Z ->
  successor arithmetic (of_Z page) = of_Z (page + 1).
Proof.
  intros [Hlo Hhi]. unfold successor, of_Z, inject_Z. cbn [Qden Qnum].
  rewrite (proj2 (Z.leb_le _ _) Hlo), (proj2 (Z.ltb_lt _ _) Hhi).
  reflexivity.
Qed.

End WithArithmetic.

(** X20. For a page number that is an integer of magnitude below 2^53,
    [getNextPage] applied to the flag of [hasMoreItems] gives the next
    page exactly when the page is full (at least [pageSize] items, 100 by
    default) and [undefined] otherwise. *)
Theorem next_page_of_full_page (arithmetic : Arithmetic) (env : Runtime)
  (page count : Z) (pageSize : option Z) :
  (- 2 ^ 53 <= page < 2 ^ 53)%Z ->
  getNextPage arithmetic env (VNum (of_Z page))
    (VBool (Formatters.hasMoreItems count pageSize))
  = if (match pageSize with Some p => p | None => 100 end <=? count)%Z
    then VNum (of_Z (page + 1))
    else VUndef.
Proof.
  intros H. unfold getNextPage, Formatters.hasMoreItems. cbn [truthy].
  destruct (_ <=? count)%Z; [|reflexivity].
  cbn [plus_one]. rewrite (successor_of_Z arithmetic page H). reflexivity.
Qed.

Lemma next_page_of_full_page_witness :
  getNextPage {| Number_add := fun a _ => a |} (engine (Rejected ""))
    (VNum (of_Z 3)) (VBool (Formatters.hasMoreItems 100 None))
  = VNum (of_Z 4).
Proof.
  apply (next_page_of_full_page _ _ 3 100 None). lia.
Defined.

End Paging.


(* ===================================================================== *)
(** ** The URL of a reading request *)
(* ===================================================================== *)

Module Urls.
Import Js Mapper Entities Text Platform Env Client Reading Samples Operations.
Import Routes.
Import MapperFacts ClientFacts Gate Payload Requests.

Lemma append_empty (s : string) : s ++ "" = s.
Proof. induction s as [|c s IH]; cbn; [reflexivity|rewrite IH; reflexivity]. Qed.

(** *** The names of a query *)

Lemma within_nil (names : list string) : within names [].
Proof. split; [constructor|intros x []]. Qed.

Lemma filter_names (keep : string * string -> bool) (q : query) :
  NoDup (map fst q) ->
  NoDup (map fst (filter keep q))
  /\ incl (map fst (filter keep q)) (map fst q).
Proof.
  induction q as [|[n x] r IH]; cbn [filter map]; intros H.
  - split; [constructor|intros y []].
  - inversion H as [|? ? Hn Hr]; subst. destruct (IH Hr) as [IHn IHi].
    destruct (keep (n, x)); cbn [map fst].
    + split.
      * constructor; [|exact IHn]. intros Hin. apply Hn, IHi, Hin.
      * intros y [<-|Hy]; [left; reflexivity|right; apply IHi, Hy].
    + split; [exact IHn|]. intros y Hy. right. apply IHi, Hy.
Qed.

Lemma query_set_names (n v : string) (q : query) :
  NoDup (map fst q) ->
  NoDup (map fst (query_set n v q))
  /\ incl (map fst (query_set n v q)) (n :: map fst q).
Proof.
  induction q as [|[n' x] r IH]; cbn [query_set map fst]; intros H.
  - split; [constructor; [intros []|constructor]|].
    intros y [<-|[]]. left. reflexivity.
  - inversion H as [|? ? Hn Hr]; subst.
    destruct (String.eqb_spec n' n) as [->|Hne]; cbn [map fst].
    + destruct (filter_names (fun p => negb (fst p =? n)) r Hr) as [Fn Fi].
      split.
      * constructor; [|exact Fn]. intros Hin. apply Hn, Fi, Hin.
      * intros y [<-|Hy]; [left; reflexivity|].
        right. right. apply Fi, Hy.
    + destruct (IH Hr) as [IHn IHi]. split.
      * constructor; [|exact IHn]. intros Hin.
        destruct (IHi _ Hin) as [E|Hin']; [exact (Hne (eq_sym E))|].
        exact (Hn Hin').
      * intros y [<-|Hy]; [right; left; reflexivity|].
        destruct (IHi _ Hy) as [E|Hy']; [left; exact E|right; right; exact Hy'].
Qed.

Lemma record_set_names (k v : string) (r : query) :
  NoDup (map fst r) ->
  NoDup (map fst (record_set k v r))
  /\ incl (map fst (record_set k v r)) (k :: map fst r).
Proof.
  induction r as [|[k' x] t IH]; cbn [record_set map fst]; intros H.
  - split; [constructor; [intros []|constructor]|].
    intros y [<-|[]]. left. reflexivity.
  - inversion H as [|? ? Hn Hr]; subst.
    destruct (String.eqb_spec k k') as [->|Hne]; cbn [map fst].
    + split; [exact H|]. intros y Hy. right. exact Hy.
    + destruct (IH Hr) as [IHn IHi]. split.
      * constructor; [|exact IHn]. intros Hin.
        destruct (IHi _ Hin) as [E|Hin']; [exact (Hne E)|].
        exact (Hn Hin').
      * intros y [<-|Hy]; [right; left; reflexivity|].
        destruct (IHi _ Hy) as [E|Hy']; [left; exact E|right; right; exact Hy'].
Qed.

Lemma within_query_set (names : list string) (n v : string) (q : query) :
  within names q -> In n names -> within names (query_set n v q).
Proof.
  intros [Hn Hi] Hin. destruct (query_set_names n v q Hn) as [Sn Si].
  split; [exact Sn|]. intros y Hy.
  destruct (Si y Hy) as [<-|Hy']; [exact Hin|exact (Hi y Hy')].
Qed.

Lemma within_record_set (names : list string) (k v : string) (r : query) :
  within names r -> In k names -> within names (record_set k v r).
Proof.
  intros [Hn Hi] Hin. destruct (record_set_names k v r Hn) as [Sn Si].
  split; [exact Sn|]. intros y Hy.
  destruct (Si y Hy) as [<-|Hy']; [exact Hin|exact (Hi y Hy')].
Qed.

Lemma within_if (names : list string) (b : bool) (q q' : query) :
  within names q -> within names q' -> within names (if b then q else q').
Proof. destruct b; intros; assumption. Qed.

Lemma within_set_from (env : Runtime) (names : list string) (params : value)
  (name key : string) (q : query) :
  within names q -> In key names ->
  within names (set_from env params name key q).
Proof.
  intros H Hin. unfold set_from. apply within_if; [|exact H].
  apply within_query_set; assumption.
Qed.

Lemma within_record_from (env : Runtime) (names : list string)
  (params : value) (name key : string) (r : query) :
  within names r -> In key names ->
  within names (record_from env params name key r).
Proof.
  intros H Hin. unfold record_from. apply within_if; [|exact H].
  apply within_record_set; assumption.
Qed.

Lemma within_record_from_defined (env : Runtime) (names : list string)
  (params : value) (name key : string) (r : query) :
  within names r -> In key names ->
  within names (record_from_defined env params name key r).
Proof.
  intros H Hin. unfold record_from_defined. apply within_if; [|exact H].
  apply within_record_set; assumption.
Qed.

(** *** Without [params] nothing is set *)

Lemma opt_member_nullish (p : value) (k : string) :
  nullish p = true -> opt_member p k = VUndef.
Proof. intros H. unfold opt_member. rewrite H. reflexivity. Qed.

Lemma set_from_nullish (env : Runtime) (p : value) (name key : string)
  (q : query) :
  nullish p = true -> set_from env p name key q = q.
Proof.
  intros H. unfold set_from. rewrite (opt_member_nullish p name H).
  reflexivity.
Qed.

Lemma record_from_nullish (env : Runtime) (p : value) (name key : string)
  (r : query) :
  nullish p = true -> record_from env p name key r = r.
Proof.
  intros H. unfold record_from. rewrite (opt_member_nullish p name H).
  reflexivity.
Qed.

Lemma record_from_defined_nullish (env : Runtime) (p : value)
  (name key : string) (r : query) :
  nullish p = true -> record_from_defined env p name key r = r.
Proof.
  intros H. unfold record_from_defined.
  rewrite (opt_member_nullish p name H). reflexivity.
Qed.

Ltac named :=
  cbn [In]; repeat (first [left; reflexivity | right]).

Ltac names_within :=
  unfold paging, accounts_query;
  repeat first
    [ apply within_nil
    | apply within_set_from; [|named]
    | apply within_record_from; [|named]
    | apply within_record_from_defined; [|named]
    | apply within_query_set; [|named]
    | apply within_if ].

Ltac unset Hn :=
  unfold paging, accounts_query;
  rewrite ?(set_from_nullish _ _ _ _ _ Hn),
          ?(record_from_nullish _ _ _ _ _ Hn),
          ?(record_from_defined_nullish _ _ _ _ _ Hn),
          ?(opt_member_nullish _ _ Hn);
  reflexivity.

(** The query of [listInvoices], when [statuses] can be joined. *)
Lemma invoices_query (env : Runtime) (p : value) (q : query) :
  (if truthy (opt_member p "statuses")
   then let! s := joined_statuses env (opt_member p "statuses") in
        ok (query_set "Statuses" s (paging env p))
   else ok (paging env p)) = inr q ->
  within ["page"; "where"; "order"; "Statuses"] q
  /\ (nullish p = true -> q = []).
Proof.
  destruct (truthy (opt_member p "statuses")) eqn:Ht.
  - destruct (joined_statuses env (opt_member p "statuses")) as [e|s];
      [discriminate|].
    cbn [and_then]. intros H. injection H as <-. split; [names_within|].
    intros Hn. rewrite (opt_member_nullish p _ Hn) in Ht. discriminate Ht.
  - intros H. injection H as <-. split; [names_within|].
    intros Hn. unset Hn.
Qed.

(** The query of the two aged reports, when [params] can be read. *)
Lemma aged_query_names (env : Runtime) (p : value) (q : query) :
  aged_query env p = inr q ->
  within ["contactID"; "date"; "fromDate"; "toDate"] q
  /\ nullish p = false.
Proof.
  unfold aged_query, read. destruct (nullish p); [discriminate|].
  cbn [and_then]. intros H. injection H as <-. split; [|reflexivity].
  repeat (apply within_record_from; [|named]).
  split; [constructor; [intros []|constructor]|].
  intros y [<-|[]]. left. reflexivity.
Qed.

(** X21. A reading method asks for its own path under the base URL,
    followed by a query string only when a parameter is set. The query
    holds each name at most once and no name outside the ones the method
    declares (none at all for the get methods, the lists without
    parameters and the connection test), and it is empty when [params] is
    [undefined] or [null]: the URL is then the base URL and the path
    alone. *)
Theorem query_parameters_declared (c : call) (path : string)
  (names : list string) (params : option value) (env : Runtime)
  (creds : TenantCredentials) (log : list Request) (req : Request) :
  resource c = Some (path, names, params) ->
  In req (sent env creds c log) ->
  exists q,
    url req = clientBaseUrl creds ++ path ++ query_suffix (query_toString q)
    /\ within names q
    /\ (forall p, params = Some p -> nullish p = true -> q = []).
Proof.
  intros Hr Hin. unfold sent in Hin.
  destruct c; cbn [resource] in Hr; try discriminate;
    injection Hr as <- <- <-;
    cbn [run] in Hin; autounfold with methods in Hin; cbv zeta in Hin;
    try (first
           [ pose proof (proj2 (sent_probe env creds log req Hin)) as Hu
           | pose proof (proj2 (sent_direct env creds _ _ _ log req Hin)) as Hu ];
         match type of Hu with
         | context [query_toString ?Q] =>
             exists Q; split; [exact Hu|]; split;
             [ names_within
             | intros p0 Hp Hn; injection Hp as <-; unset Hn ]
         | _ =>
             exists []; split;
             [ change (query_suffix (query_toString [])) with "";
               rewrite append_empty; exact Hu
             | split; [apply within_nil|reflexivity] ]
         end).
  - destruct (sent_after env creds _ _ (fun _ => GET) (fun _ d => _) log req Hin)
      as (q & Hq & _ & Hu).
    destruct (invoices_query env _ q Hq) as [Hw Hn].
    exists q. split; [exact Hu|]. split; [exact Hw|].
    intros p0 Hp. injection Hp as <-. exact Hn.
  - destruct (sent_after env creds _ _ (fun _ => GET) (fun _ d => _) log req Hin)
      as (q & Hq & _ & Hu).
    destruct (aged_query_names env _ q Hq) as [Hw Hn].
    exists q. split; [exact Hu|]. split; [exact Hw|].
    intros p0 Hp Hp0. injection Hp as <-. rewrite Hn in Hp0. discriminate Hp0.
  - destruct (sent_after env creds _ _ (fun _ => GET) (fun _ d => _) log req Hin)
      as (q & Hq & _ & Hu).
    destruct (aged_query_names env _ q Hq) as [Hw Hn].
    exists q. split; [exact Hu|]. split; [exact Hw|].
    intros p0 Hp Hp0. injection Hp as <-. rewrite Hn in Hp0. discriminate Hp0.
Qed.

Lemma query_parameters_declared_witness :
  exists q,
    "https://api.xero.com/api.xro/2.0/Contacts?where=IsSupplier%3D%3Dtrue&includeArchived=true"
    = API_BASE_URL ++ "/Contacts" ++ query_suffix (query_toString q)
    /\ within ["page"; "where"; "order"; "includeArchived"] q.
Proof.
  destruct (query_parameters_declared
              (ListContacts (VObj [ ("where", VStr "IsSupplier==true");
                                    ("includeArchived", VBool true) ]))
              _ _ _ (answering 200 [] no_contacts) tenant [] _ eq_refl
              (or_introl eq_refl)) as (q & Hu & Hw & _).
  exists q. split; [exact Hu|exact Hw].
Defined.

End Urls.

(* ===================================================================== *)
(** ** An entity is mapped before anything is sent *)
(* ===================================================================== *)

Module Validation.
Import Js Mapper Entities Text Platform Env Client Reading Samples Operations.
Import Shapes.
Import MapperFacts ClientFacts Gate Payload Requests Mappers.

Lemma payload_value_TypeError (r : rule) (v : value) (e : error) :
  payload_value r v = inl e -> exists t, e = TypeError t.
Proof.
  unfold payload_value. destruct (what r) as [|idKey idField|parts|parts].
  - discriminate.
  - destruct (read v idField) as [e'|i] eqn:Hr; cbn [and_then];
      [|discriminate].
    intros H. injection H as <-. eexists. exact (read_TypeError _ _ _ Hr).
  - apply build_TypeError.
  - apply array_map_TypeError. intros x e'. apply build_TypeError.
Qed.

Lemma emitted_TypeError (src : value) (r : rule) (e : error) :
  emitted src r = inl e -> exists t, e = TypeError t.
Proof.
  unfold emitted. destruct (read src (field r)) as [e'|v] eqn:Hr;
    cbn [and_then].
  - intros H. injection H as <-. eexists. exact (read_TypeError _ _ _ Hr).
  - destruct (passes (when r) v); [|discriminate].
    destruct (payload_value r v) as [e'|w] eqn:Hp; cbn [and_then];
      [|discriminate].
    intros H. injection H as <-. exact (payload_value_TypeError r v _ Hp).
Qed.

(** A table either returns a record or throws a [TypeError], by whether
    the entity is sendable. *)
Lemma table_outcome (table : list rule) (src : value) :
  NoDup (map key table) ->
  guarded table = true ->
  if sendable table src
  then exists x, toWire table src = inr x
  else exists t, toWire table src = inl (TypeError t).
Proof.
  intros Hnd Hg. pose proof (toWire_returns_iff table src Hnd Hg) as Hiff.
  destruct (sendable table src).
  - apply Hiff. reflexivity.
  - destruct (toWire table src) as [e|x] eqn:Hw.
    + rewrite (toWire_flat table src Hnd) in Hw.
      destruct (traverse (emitted src) table) as [e'|parts] eqn:Ht;
        [|discriminate].
      cbn [and_then] in Hw. injection Hw as <-.
      destruct (traverse_inl _ _ _ Ht) as (r & _ & Hr).
      destruct (emitted_TypeError src r e' Hr) as [t ->].
      exists t. reflexivity.
    + assert (H : false = true) by (apply Hiff; exists x; reflexivity).
      discriminate H.
Qed.

Lemma request_sends (env : Runtime) (creds : TenantCredentials)
  (endpoint : string) (options : RequestInit)
  (post : value -> result value) (log : list Request) :
  ~ missing creds ->
  exists req,
    snd (bind (request env creds endpoint options)
              (fun data => lift (post data)) log)
    = (log ++ [req])%list.
Proof.
  intros Hm. unfold bind, lift, request.
  destruct (getAuthHeaders creds) as [e|auth] eqn:Ha.
  - exfalso. apply Hm. unfold missing, getAuthHeaders in *.
    destruct (blank (accessToken creds)); [left; reflexivity|].
    destruct (blank (tenantId creds)); [right; reflexivity|discriminate].
  - destruct (fetch env log _) as [m|r]; [|destruct (settle env r)];
      cbn [snd]; eexists; reflexivity.
Qed.

Ltac by_mapper :=
  unfold mapContactToXero, mapAccountToXero, mapInvoiceToXero,
    mapCreditNoteToXero, mapPaymentToXero, mapBankTransactionToXero,
    mapItemToXero, mapPurchaseOrderToXero, mapQuoteToXero,
    mapManualJournalToXero, mapBatchPaymentToXero, mapTaxRateToXero,
    mapRepeatingInvoiceToXero.

(** X23. A create or update method maps the entity before it asks for
    anything. An entity its [map...ToXero] method throws on (a [lineItems]
    that is no array, an [undefined] entity) makes the call fail with that
    [TypeError], and no request is issued; with a sendable entity and both
    credentials present, exactly one request is issued. *)
Theorem entity_mapped_before_request (c : call) (u : update)
  (rows : list rule) (env : Runtime) (creds : TenantCredentials)
  (log : list Request) :
  creating c = Some u \/ updating c = Some u ->
  table u = inl rows ->
  (sendable rows (entity u) = false ->
   sent env creds c log = []
   /\ exists t, fst (run env creds c log) = inl (TypeError t))
  /\ (sendable rows (entity u) = true -> ~ missing creds ->
      length (sent env creds c log) = 1).
Proof.
  intros Hc Ht.
  assert (Hk : if sendable rows (entity u)
               then exists x, toWire rows (entity u) = inr x
               else exists t, toWire rows (entity u) = inl (TypeError t)).
  { apply table_outcome;
      destruct c; destruct Hc as [Hc|Hc]; cbn [creating updating] in Hc;
      try discriminate Hc; injection Hc as <-; cbn [table] in Ht;
      try discriminate Ht; injection Ht as <-;
      first [ apply distinct_NoDup; reflexivity | reflexivity ]. }
  unfold sent.
  destruct c; destruct Hc as [Hc|Hc]; cbn [creating updating] in Hc;
    try discriminate Hc; injection Hc as <-; cbn [table entity] in *;
    try discriminate Ht; injection Ht as <-;
    cbn [run]; autounfold with methods; by_mapper;
    (destruct (sendable _ _); destruct Hk as [y Hy];
     [ rewrite (bind_lift_inr _ y _ log Hy);
       split; [discriminate|]; intros _ Hm; cbv beta zeta;
       match goal with
       | |- context [bind (request _ _ ?ep ?opts) (fun d => lift (@?post d))] =>
           destruct (request_sends env creds ep opts post log Hm) as [req ->]
       end;
       rewrite skipn_own; reflexivity
     | rewrite (bind_lift_inl _ (TypeError y) _ log Hy);
       split; [|discriminate]; intros _; cbn [fst snd];
       rewrite skipn_all_of; split; [reflexivity|exists y; reflexivity] ]).
Qed.

Lemma entity_mapped_before_request_witness :
  sent (answering 200 [] one_invoice) tenant
    (CreateInvoice (VObj [("lineItems", VStr "none")])) [] = []
  /\ length (sent (answering 200 [] one_invoice) tenant
               (CreateInvoice (VObj [("lineItems", VArr [VObj []])])) []) = 1.
Proof.
  split.
  - exact (proj1 (proj1 (entity_mapped_before_request
                           (CreateInvoice (VObj [("lineItems", VStr "none")]))
                           _ _ (answering 200 [] one_invoice) tenant []
                           (or_introl eq_refl) eq_refl) eq_refl)).
  - apply (proj2 (entity_mapped_before_request
                    (CreateInvoice (VObj [("lineItems", VArr [VObj []])]))
                    _ _ (answering 200 [] one_invoice) tenant []
                    (or_introl eq_refl) eq_refl) eq_refl).
    intros [H|H]; discriminate H.
Defined.

End Validation.


(* ===================================================================== *)
(** ** What the connection test says of the organisation *)
(* ===================================================================== *)

Module Probe.
Import Js Mapper Entities Text Platform Env Client Reading Samples Operations.
Import MapperFacts ClientFacts Gate Facade Answers.



End Probe.
